(** * TaskWarrior MCP server: request-to-command translation

    A shallow embedding of [src/index.ts]: the shell escaping of free text,
    the flexible date check, the zod request schemas, the argument builders
    of the seventeen tool handlers and the dispatch switch, followed by the
    properties of the specification stated and settled against that code.

    Conventions.  A JavaScript string is a [string] (a sequence of bytes);
    every pattern, separator and keyword of the source is ASCII.  A thrown
    [Error] is the [Err] branch of [result]; [execSync] is the last action
    of every handler, so a handler that ends in [Err] has spawned nothing. *)

From Stdlib Require Import Ascii String List Bool Arith ZArith Lia.
From stdpp Require Import base option list strings gmap.

Set Default Proof Using "Type".

(** ** Regular expressions

    The source validates text with anchored regular expression literals
    ([/^...$/.test(s)]).  They use only classes, concatenation, alternation
    and repetition, so [test] is language membership of the whole string;
    it is computed here with Brzozowski derivatives. *)

Module Regex.

Inductive regex : Type :=
| Void
| Eps
| Class (p : ascii -> bool)
| Seq (r1 r2 : regex)
| Alt (r1 r2 : regex)
| Star (r : regex).

(** Derived forms: [r+], [r?], [r{n}], a literal word, and the same word
    under the [i] flag. *)
Definition Plus (r : regex) : regex := Seq r (Star r).
Definition Opt (r : regex) : regex := Alt r Eps.

Fixpoint Rep (n : nat) (r : regex) : regex :=
  match n with
  | O => Eps
  | S n' => Seq r (Rep n' r)
  end.

Definition Chr (c : ascii) : regex := Class (Ascii.eqb c).

(** ASCII case folding, as the [i] flag without the [u] flag does it:
    a code unit above 127 never folds onto an ASCII letter. *)
Definition to_lower (c : ascii) : ascii :=
  let n := nat_of_ascii c in
  if (65 <=? n)%nat && (n <=? 90)%nat then ascii_of_nat (n + 32) else c.

Definition ChrI (c : ascii) : regex :=
  Class (fun a => Ascii.eqb (to_lower a) (to_lower c)).

Fixpoint Word (mk : ascii -> regex) (s : string) : regex :=
  match s with
  | EmptyString => Eps
  | String c s' => Seq (mk c) (Word mk s')
  end.

Fixpoint AnyOf (rs : list regex) : regex :=
  match rs with
  | [] => Void
  | r :: rs' => Alt r (AnyOf rs')
  end.

Fixpoint nullable (r : regex) : bool :=
  match r with
  | Void => false
  | Eps => true
  | Class _ => false
  | Seq r1 r2 => nullable r1 && nullable r2
  | Alt r1 r2 => nullable r1 || nullable r2
  | Star _ => true
  end.

Fixpoint deriv (a : ascii) (r : regex) : regex :=
  match r with
  | Void => Void
  | Eps => Void
  | Class p => if p a then Eps else Void
  | Seq r1 r2 =>
      if nullable r1
      then Alt (Seq (deriv a r1) r2) (deriv a r2)
      else Seq (deriv a r1) r2
  | Alt r1 r2 => Alt (deriv a r1) (deriv a r2)
  | Star r1 => Seq (deriv a r1) (Star r1)
  end.

Fixpoint matches (r : regex) (w : list ascii) : bool :=
  match w with
  | [] => nullable r
  | a :: w' => matches (deriv a r) w'
  end.

(** [test r s] is [/^r$/.test(s)]. *)
Definition test (r : regex) (s : string) : bool :=
  matches r (list_ascii_of_string s).

(** The language of a regular expression. *)
Inductive lang : regex -> list ascii -> Prop :=
| lang_eps : lang Eps []
| lang_class p a : p a = true -> lang (Class p) [a]
| lang_seq r1 r2 w1 w2 :
    lang r1 w1 -> lang r2 w2 -> lang (Seq r1 r2) (w1 ++ w2)
| lang_alt_l r1 r2 w : lang r1 w -> lang (Alt r1 r2) w
| lang_alt_r r1 r2 w : lang r2 w -> lang (Alt r1 r2) w
| lang_star_nil r : lang (Star r) []
| lang_star_app r w1 w2 :
    lang r w1 -> lang (Star r) w2 -> lang (Star r) (w1 ++ w2).

End Regex.

(** ** Text

    [join] is [Array.prototype.join]; [replace_g c rep s] is
    [s.replace(/c/g, rep)] for a pattern of one literal character and a
    replacement that holds no [$] pattern. *)

Definition join (sep : string) (parts : list string) : string :=
  String.concat sep parts.

Fixpoint replace_g (c : ascii) (rep : string) (s : string) : string :=
  match s with
  | EmptyString => EmptyString
  | String a s' =>
      if Ascii.eqb a c
      then rep +:+ replace_g c rep s'
      else String a (replace_g c rep s')
  end.

(** Truthiness of a possibly absent string: [if (data.x)] passes for a
    string that is present and not empty. *)
Definition truthy (o : option string) : option string :=
  match o with
  | Some (String _ _ as s) => Some s
  | _ => None
  end.

(** [escapeShellArg], index.ts lines 21-23. *)
Definition escapeShellArg (arg : string) : string :=
  "'" +:+ replace_g "'"%char "'\''" arg +:+ "'".

(** ** Errors and results *)

Inductive ZodIssueCode : Type :=
| invalid_type
| too_small
| invalid_string
| invalid_enum_value.

Inductive PathSeg : Type :=
| PKey (k : string)
| PIndex (i : nat).

(** One issue of a failed [safeParse]: the rule that failed, where, and the
    message the schema gives for it ([None]: zod's default text). *)
Record ZodIssue : Type := mkIssue {
  code : ZodIssueCode;
  path : list PathSeg;
  message : option string
}.

(** What a handler throws; the [catch] of the dispatcher turns each into an
    ordinary error response. *)
Inductive error : Type :=
| InvalidArguments (tool : string) (issues : list ZodIssue)
| InvalidDateFormat (msg : string)
| UnknownTool (name : string).

Inductive result (A : Type) : Type :=
| Ok (a : A)
| Err (e : error).
Arguments Ok {A} a.
Arguments Err {A} e.

Definition bind {A B : Type} (x : result A) (f : A -> result B) : result B :=
  match x with
  | Ok a => f a
  | Err e => Err e
  end.

Notation "'let*' x := c1 'in' c2" := (bind c1 (fun x => c2))
  (at level 10, x name, c1 at level 100, c2 at level 200).

(** ** The flexible date check, index.ts lines 27-56 *)

Module Dates.
Import Regex.

Definition between (lo hi c : ascii) : bool :=
  (nat_of_ascii lo <=? nat_of_ascii c)%nat && (nat_of_ascii c <=? nat_of_ascii hi)%nat.

Definition among (set : string) (c : ascii) : bool :=
  existsb (Ascii.eqb c) (list_ascii_of_string set).

Definition digit : regex := Class (between "0" "9").

Fixpoint Cat (rs : list regex) : regex :=
  match rs with
  | [] => Eps
  | r :: rs' => Seq r (Cat rs')
  end.

Definition words_i (ws : list string) : regex := AnyOf (map (Word ChrI) ws).

(** [/^\d{4}-\d{2}-\d{2}(T\d{2}:\d{2}:\d{2}(\.\d{3})?(Z|[+-]\d{2}:\d{2})?)?$/] *)
Definition isoRegex : regex :=
  Cat [ Rep 4 digit; Chr "-"; Rep 2 digit; Chr "-"; Rep 2 digit;
        Opt (Cat [ Chr "T"; Rep 2 digit; Chr ":"; Rep 2 digit; Chr ":"; Rep 2 digit;
                   Opt (Seq (Chr ".") (Rep 3 digit));
                   Opt (Alt (Chr "Z")
                            (Cat [ Class (among "+-"); Rep 2 digit; Chr ":";
                                   Rep 2 digit ])) ]) ].

(** [/^[+-]\d+[dwmqy]$/] *)
Definition relativeRegex : regex :=
  Cat [ Class (among "+-"); Plus digit; Class (among "dwmqy") ].

(** [/^(eom|eoq|eoy|som|soq|soy|today|tomorrow|yesterday|now)$/i] *)
Definition specialDates : regex :=
  words_i [ "eom"; "eoq"; "eoy"; "som"; "soq"; "soy"; "today"; "tomorrow";
            "yesterday"; "now" ].

(** [/^(monday|tuesday|wednesday|thursday|friday|saturday|sunday)$/i] *)
Definition dayNames : regex :=
  words_i [ "monday"; "tuesday"; "wednesday"; "thursday"; "friday"; "saturday";
            "sunday" ].

(** [/^(january|...|december)$/i] *)
Definition monthNames : regex :=
  words_i [ "january"; "february"; "march"; "april"; "may"; "june"; "july";
            "august"; "september"; "october"; "november"; "december" ].

(** [/^\d{1,2}(st|nd|rd|th)$/i] *)
Definition ordinalRegex : regex :=
  Cat [ digit; Opt digit; words_i [ "st"; "nd"; "rd"; "th" ] ].

Definition dquote : string := String (ascii_of_nat 34) EmptyString.

Definition invalid_date_message (dateStr : string) : string :=
  "Invalid date format: " +:+ dquote +:+ dateStr +:+ dquote +:+
  ". Supported formats: ISO timestamps (2024-01-15T10:30:00Z), relative dates (+7d, -2w), special dates (today, tomorrow, eom), day names (monday), or ordinal dates (15th)".

(** The test of the [if], lines 46-51. *)
Definition accepted (dateStr : string) : bool :=
  test isoRegex dateStr || test relativeRegex dateStr ||
  test specialDates dateStr || test dayNames dateStr ||
  test monthNames dateStr || test ordinalRegex dateStr.

Definition parseFlexibleDate (dateStr : string) : result string :=
  if accepted dateStr
  then Ok dateStr
  else Err (InvalidDateFormat (invalid_date_message dateStr)).

End Dates.
Export Dates.

(** ** Raw arguments and zod schemas

    [request.params.arguments] is untyped JSON; [None] stands for
    [undefined] (an absent value).  A schema maps a value to the typed data
    or to the issues found; the issues of the fields of an object and of
    the items of an array are all collected.  No schema accepts a number or
    [null]: only their type matters. *)

#[local] Unset Elimination Schemes.
Inductive raw : Type :=
| RNull
| RBool (b : bool)
| RNum (n : Z)
| RStr (s : string)
| RArr (l : list raw)
| RObj (m : gmap string raw).
#[local] Set Elimination Schemes.

Inductive parsed (A : Type) : Type :=
| Valid (a : A)
| Invalid (issues : list ZodIssue).
Arguments Valid {A} a.
Arguments Invalid {A} issues.

Definition Schema (A : Type) : Type := list PathSeg -> option raw -> parsed A.

Definition pmap {A B : Type} (f : A -> B) (x : parsed A) : parsed B :=
  match x with
  | Valid a => Valid (f a)
  | Invalid i => Invalid i
  end.

Definition pap {A B : Type} (f : parsed (A -> B)) (x : parsed A) : parsed B :=
  match f, x with
  | Valid g, Valid a => Valid (g a)
  | Valid _, Invalid i => Invalid i
  | Invalid i, Valid _ => Invalid i
  | Invalid i, Invalid j => Invalid (i ++ j)
  end.

Definition issue (c : ZodIssueCode) (p : list PathSeg) (msg : option string) : list ZodIssue :=
  [ mkIssue c p msg ].

(** [z.string()] *)
Definition z_string : Schema string := fun p v =>
  match v with
  | Some (RStr s) => Valid s
  | _ => Invalid (issue invalid_type p None)
  end.

(** [z.string().min(n, msg)] *)
Definition z_string_min (n : nat) (msg : string) : Schema string := fun p v =>
  match z_string p v with
  | Valid s =>
      if (n <=? String.length s)%nat then Valid s
      else Invalid (issue too_small p (Some msg))
  | Invalid i => Invalid i
  end.

(** [z.string().regex(re, msg)] *)
Definition z_string_regex (re : Regex.regex) (msg : option string) : Schema string :=
  fun p v =>
  match z_string p v with
  | Valid s =>
      if Regex.test re s then Valid s
      else Invalid (issue invalid_string p msg)
  | Invalid i => Invalid i
  end.

(** [z.enum([...])] *)
Definition z_enum (values : list string) : Schema string := fun p v =>
  match v with
  | Some (RStr s) =>
      if existsb (String.eqb s) values then Valid s
      else Invalid (issue invalid_enum_value p None)
  | _ => Invalid (issue invalid_type p None)
  end.

(** [z.boolean()] *)
Definition z_boolean : Schema bool := fun p v =>
  match v with
  | Some (RBool b) => Valid b
  | _ => Invalid (issue invalid_type p None)
  end.

(** [.optional()] *)
Definition z_optional {A : Type} (sch : Schema A) : Schema (option A) := fun p v =>
  match v with
  | None => Valid None
  | Some _ => pmap Some (sch p v)
  end.

Fixpoint parse_items {A : Type} (item : Schema A) (p : list PathSeg) (i : nat)
    (l : list raw) : parsed (list A) :=
  match l with
  | [] => Valid []
  | x :: l' =>
      pap (pmap cons (item (p ++ [PIndex i]) (Some x))) (parse_items item p (S i) l')
  end.

(** [z.array(item)] *)
Definition z_array {A : Type} (item : Schema A) : Schema (list A) := fun p v =>
  match v with
  | Some (RArr l) => parse_items item p 0 l
  | _ => Invalid (issue invalid_type p None)
  end.

(** [z.object({...})]: the value must be an object; each key of the shape
    is read from it (a missing key reads as [undefined]) and the other
    keys are dropped. *)
Definition Shape (A : Type) : Type := list PathSeg -> gmap string raw -> parsed A.

Definition z_object {A : Type} (shape : Shape A) : Schema A := fun p v =>
  match v with
  | Some (RObj m) => shape p m
  | _ => Invalid (issue invalid_type p None)
  end.

Definition shape_pure {A : Type} (a : A) : Shape A := fun _ _ => Valid a.

Definition key {A : Type} (k : string) (sch : Schema A) : Shape A :=
  fun p m => sch (p ++ [PKey k]) (m !! k).

Definition shape_ap {A B : Type} (sh : Shape (A -> B)) (fld : Shape A) : Shape B :=
  fun p m => pap (sh p m) (fld p m).

Infix "<&>" := shape_ap (at level 50, left associativity).

(** The patterns and enumerations that the schemas repeat. *)
Module Patterns.
Import Regex.

(** [/^[a-zA-Z0-9._-]+$/] *)
Definition project_char (c : ascii) : bool :=
  between "a" "z" c || between "A" "Z" c || between "0" "9" c || among "._-" c.
Definition projectRegex : regex := Plus (Class project_char).

(** [/^[@a-z0-9_-]+$/] *)
Definition tag_char (c : ascii) : bool :=
  among "@" c || between "a" "z" c || between "0" "9" c || among "_-" c.
Definition tagRegex : regex := Plus (Class tag_char).

Definition priorities : list string := [ "H"; "M"; "L" ].
Definition statuses : list string :=
  [ "pending"; "completed"; "deleted"; "waiting"; "recurring" ].
Definition clearable : list string :=
  [ "due"; "start"; "wait"; "until"; "scheduled"; "priority"; "project"; "depends" ].

Definition project_msg : string :=
  "Project name can only contain letters, numbers, dots, hyphens, and underscores".
Definition tag_msg : string :=
  "Tags can only contain lowercase letters, numbers, hyphens, underscores, and @ symbols".
End Patterns.
Export Patterns.

(** ** Request data and request schemas, index.ts lines 132-259 *)

Record ListPendingData : Type := mkListPending {
  lp_project : option string;
  lp_tags : option (list string)
}.

Record ListTasksData : Type := mkListTasks {
  lt_status : option string;
  lt_project : option string;
  lt_tags : option (list string)
}.

(** The data of [getTaskRequest], [markTaskDoneRequest], [getTaskInfoRequest],
    [deleteTaskRequest] and [duplicateTaskRequest]. *)
Record IdentifierData : Type := mkIdentifier {
  identifier : string
}.

Record AddTaskData : Type := mkAddTask {
  add_description : string;
  add_due : option string;
  add_priority : option string;
  add_project : option string;
  add_tags : option (list string)
}.

(** The data of [modifyTaskRequest] and [modifyTasksBulkRequest]; [target]
    is the [identifier] of the first and the [filter] of the second. *)
Record ModifyData : Type := mkModify {
  target : string;
  description : option string;
  due : option string;
  start : option string;
  stop_task : option bool;
  wait : option string;
  until : option string;
  scheduled : option string;
  priority : option string;
  project : option string;
  depends : option (list string);
  tags : option (list string);
  tags_remove : option (list string);
  clear_fields : option (list string)
}.

Record CountData : Type := mkCount {
  cnt_status : option string;
  cnt_project : option string;
  cnt_tags : option (list string);
  cnt_priority : option string
}.

Record ListFilteredData : Type := mkListFiltered {
  lf_status : option string;
  lf_project : option string;
  lf_tags : option (list string);
  lf_priority : option string;
  lf_report : option string
}.

Record AnnotateData : Type := mkAnnotate {
  ann_identifier : string;
  annotation : string
}.

(** The data of [appendTaskRequest] and [prependTaskRequest]. *)
Record TextData : Type := mkText {
  txt_identifier : string;
  text : string
}.

Record BuiltinReportData : Type := mkBuiltinReport {
  br_report : string;
  br_project : option string;
  br_tags : option (list string);
  br_priority : option string
}.

Record VisualizationData : Type := mkVisualization {
  vis_report : string;
  vis_project : option string;
  vis_tags : option (list string)
}.

Record CustomReportData : Type := mkCustomReport {
  cr_report : string;
  cr_columns : option (list string);
  cr_filter : option string
}.

Definition opt_project (msg : option string) : Schema (option string) :=
  z_optional (z_string_regex projectRegex msg).
Definition opt_tags (msg : option string) : Schema (option (list string)) :=
  z_optional (z_array (z_string_regex tagRegex msg)).
Definition opt_priority : Schema (option string) := z_optional (z_enum priorities).
Definition opt_status : Schema (option string) := z_optional (z_enum statuses).

Definition listPendingTasksRequest : Schema ListPendingData :=
  z_object (shape_pure mkListPending
    <&> key "project" (opt_project None)
    <&> key "tags" (opt_tags None)).

Definition listTasksRequest : Schema ListTasksData :=
  z_object (shape_pure mkListTasks
    <&> key "status" opt_status
    <&> key "project" (opt_project None)
    <&> key "tags" (opt_tags None)).

Definition getTaskRequest : Schema IdentifierData :=
  z_object (shape_pure mkIdentifier <&> key "identifier" z_string).

Definition markTaskDoneRequest : Schema IdentifierData :=
  z_object (shape_pure mkIdentifier <&> key "identifier" z_string).

Definition addTaskRequest : Schema AddTaskData :=
  z_object (shape_pure mkAddTask
    <&> key "description" z_string
    <&> key "due" (z_optional z_string)
    <&> key "priority" opt_priority
    <&> key "project" (opt_project None)
    <&> key "tags" (opt_tags None)).

Definition modify_shape (target_key target_msg : string) : Shape ModifyData :=
  shape_pure mkModify
    <&> key target_key (z_string_min 1 target_msg)
    <&> key "description" (z_optional (z_string_min 1 "Description cannot be empty"))
    <&> key "due" (z_optional (z_string_min 1 "Due date cannot be empty"))
    <&> key "start" (z_optional (z_string_min 1 "Start date cannot be empty"))
    <&> key "stop_task" (z_optional z_boolean)
    <&> key "wait" (z_optional (z_string_min 1 "Wait date cannot be empty"))
    <&> key "until" (z_optional (z_string_min 1 "Until date cannot be empty"))
    <&> key "scheduled" (z_optional (z_string_min 1 "Scheduled date cannot be empty"))
    <&> key "priority" opt_priority
    <&> key "project" (opt_project (Some project_msg))
    <&> key "depends"
          (z_optional (z_array (z_string_min 1 "Dependency must be a valid task ID or UUID")))
    <&> key "tags" (opt_tags (Some tag_msg))
    <&> key "tags_remove" (opt_tags (Some tag_msg))
    <&> key "clear_fields" (z_optional (z_array (z_enum clearable))).

Definition modifyTaskRequest : Schema ModifyData :=
  z_object (modify_shape "identifier" "Task identifier cannot be empty").

Definition modifyTasksBulkRequest : Schema ModifyData :=
  z_object (modify_shape "filter" "Filter cannot be empty").

Definition getTaskInfoRequest : Schema IdentifierData :=
  z_object (shape_pure mkIdentifier <&> key "identifier" z_string).

Definition countTasksRequest : Schema CountData :=
  z_object (shape_pure mkCount
    <&> key "status" opt_status
    <&> key "project" (opt_project None)
    <&> key "tags" (opt_tags None)
    <&> key "priority" opt_priority).

Definition listTasksFilteredRequest : Schema ListFilteredData :=
  z_object (shape_pure mkListFiltered
    <&> key "status" opt_status
    <&> key "project" (opt_project None)
    <&> key "tags" (opt_tags None)
    <&> key "priority" opt_priority
    <&> key "report" (z_optional z_string)).

Definition deleteTaskRequest : Schema IdentifierData :=
  z_object (shape_pure mkIdentifier <&> key "identifier" z_string).

Definition annotateTaskRequest : Schema AnnotateData :=
  z_object (shape_pure mkAnnotate
    <&> key "identifier" z_string
    <&> key "annotation" z_string).

Definition appendTaskRequest : Schema TextData :=
  z_object (shape_pure mkText
    <&> key "identifier" z_string
    <&> key "text" z_string).

Definition prependTaskRequest : Schema TextData :=
  z_object (shape_pure mkText
    <&> key "identifier" z_string
    <&> key "text" z_string).

Definition duplicateTaskRequest : Schema IdentifierData :=
  z_object (shape_pure mkIdentifier <&> key "identifier" z_string).

Definition undoLastRequest : Schema unit :=
  z_object (shape_pure tt).

Definition builtinReportRequest : Schema BuiltinReportData :=
  z_object (shape_pure mkBuiltinReport
    <&> key "report"
          (z_enum [ "list"; "all"; "active"; "completed"; "blocked"; "overdue";
                    "ready"; "recurring" ])
    <&> key "project" (opt_project None)
    <&> key "tags" (opt_tags None)
    <&> key "priority" opt_priority).

Definition visualizationReportRequest : Schema VisualizationData :=
  z_object (shape_pure mkVisualization
    <&> key "report" (z_enum [ "burndown"; "calendar"; "history"; "summary"; "timesheet" ])
    <&> key "project" (opt_project None)
    <&> key "tags" (opt_tags None)).

Definition customReportRequest : Schema CustomReportData :=
  z_object (shape_pure mkCustomReport
    <&> key "report" z_string
    <&> key "columns" (z_optional (z_array z_string))
    <&> key "filter" (z_optional z_string)).

(** [schema.safeParse(args)] followed by the [throw] of the handler. *)
Definition safeParse {A : Type} (tool : string) (sch : Schema A) (args : option raw) : result A :=
  match sch [] args with
  | Valid a => Ok a
  | Invalid issues => Err (InvalidArguments tool issues)
  end.

(** ** Command building *)

(** What a handler passes to [execSync]: the command line and its options. *)
Record CommandInvocation : Type := mkInvocation {
  command : string;
  shell : option string;
  maxBuffer : N
}.

Definition exec (cmd : string) : CommandInvocation :=
  mkInvocation cmd None (1024 * 1024 * 10).

Definition exec_bash (cmd : string) : CommandInvocation :=
  mkInvocation cmd (Some "/bin/bash") (1024 * 1024 * 10).

(** [if (x) { task_args.push(`name:${x}`) }] for a string [x]. *)
Definition push_field (name : string) (x : option string) (task_args : list string) : list string :=
  match truthy x with
  | Some v => task_args ++ [ name +:+ ":" +:+ v ]
  | None => task_args
  end.

(** [if (x) { parseFlexibleDate(x); task_args.push(`name:${x}`) }] *)
Definition push_date (name : string) (x : option string) (task_args : list string) :
    result (list string) :=
  match truthy x with
  | Some v => let* _ := parseFlexibleDate v in Ok (task_args ++ [ name +:+ ":" +:+ v ])
  | None => Ok task_args
  end.

(** [if (xs) { for (let x of xs) task_args.push(`${sign}${x}${suffix}`) }];
    an array is truthy even when empty. *)
Definition push_each (f : string -> string) (xs : option (list string))
    (task_args : list string) : list string :=
  match xs with
  | Some l => task_args ++ map f l
  | None => task_args
  end.

(** [buildTaskModifyArgs], index.ts lines 59-114. *)
Definition buildTaskModifyArgs (data : ModifyData) : result (list string) :=
  let task_args := [] in
  let task_args :=
    match truthy (description data) with
    | Some d => task_args ++ [ "description:" +:+ escapeShellArg d ]
    | None => task_args
    end in
  let* task_args := push_date "due" (due data) task_args in
  let task_args := push_field "priority" (priority data) task_args in
  let* task_args := push_date "start" (start data) task_args in
  let task_args :=
    match stop_task data with
    | Some true => task_args ++ [ "start:" ]
    | _ => task_args
    end in
  let* task_args := push_date "wait" (wait data) task_args in
  let* task_args := push_date "until" (until data) task_args in
  let* task_args := push_date "scheduled" (scheduled data) task_args in
  let task_args := push_field "project" (project data) task_args in
  let task_args :=
    match depends data with
    | Some ds => task_args ++ [ "depends:" +:+ join "," ds ]
    | None => task_args
    end in
  let task_args := push_each (fun tag => "+" +:+ tag) (tags data) task_args in
  let task_args := push_each (fun tag => "-" +:+ tag) (tags_remove data) task_args in
  let task_args := push_each (fun fld => fld +:+ ":") (clear_fields data) task_args in
  Ok task_args.

(** ** The tool handlers, index.ts lines 401-719

    Each handler is the body of its [case] up to the call of [execSync]:
    it returns the invocation that [execSync] receives, or what it threw
    before reaching that call. *)

Definition plus_tag (tag : string) : string := "+" +:+ tag.

Definition get_next_tasks_args (d : ListPendingData) : list string :=
  let task_args := [] in
  let task_args := push_each plus_tag (lp_tags d) task_args in
  let task_args := push_field "project" (lp_project d) task_args in
  task_args.

Definition get_next_tasks (args : option raw) : result CommandInvocation :=
  let* parsed := safeParse "get_next_tasks" listPendingTasksRequest args in
  Ok (exec ("task limit: " +:+ join " " (get_next_tasks_args parsed) +:+ " next")).

Definition mark_task_done (args : option raw) : result CommandInvocation :=
  let* parsed := safeParse "mark_task_done" markTaskDoneRequest args in
  Ok (exec ("task " +:+ identifier parsed +:+ " done")).

Definition add_task_args (d : AddTaskData) : result (list string) :=
  let task_args := [ "add" ] in
  let task_args := task_args ++ [ escapeShellArg (add_description d) ] in
  let* task_args := push_date "due" (add_due d) task_args in
  let task_args := push_field "priority" (add_priority d) task_args in
  let task_args :=
    match truthy (add_project d) with
    | Some p => task_args ++ [ "project:" +:+ escapeShellArg p ]
    | None => task_args
    end in
  let task_args := push_each (fun tag => "+" +:+ escapeShellArg tag) (add_tags d) task_args in
  Ok task_args.

Definition add_task (args : option raw) : result CommandInvocation :=
  let* parsed := safeParse "add_task" addTaskRequest args in
  let* task_args := add_task_args parsed in
  Ok (exec ("task " +:+ join " " task_args)).

Definition modify_task (args : option raw) : result CommandInvocation :=
  let* parsed := safeParse "modify_task" modifyTaskRequest args in
  let* task_args := buildTaskModifyArgs parsed in
  let identifier := escapeShellArg (target parsed) in
  Ok (exec ("task " +:+ identifier +:+ " modify " +:+ join " " task_args)).

Definition modify_tasks_bulk (args : option raw) : result CommandInvocation :=
  let* parsed := safeParse "modify_tasks_bulk" modifyTasksBulkRequest args in
  let* task_args := buildTaskModifyArgs parsed in
  let filter := target parsed in
  Ok (exec_bash ("yes | task " +:+ filter +:+ " modify " +:+ join " " task_args)).

Definition get_task_info (args : option raw) : result CommandInvocation :=
  let* parsed := safeParse "get_task_info" getTaskInfoRequest args in
  Ok (exec ("task " +:+ identifier parsed +:+ " info")).

(** The [task_args] of [count_tasks] and of [list_tasks_filtered]. *)
Definition filter_args (status project priority : option string)
    (tags : option (list string)) : list string :=
  let task_args := [] in
  let task_args := push_field "status" status task_args in
  let task_args := push_field "project" project task_args in
  let task_args := push_field "priority" priority task_args in
  let task_args := push_each plus_tag tags task_args in
  task_args.

Definition count_tasks (args : option raw) : result CommandInvocation :=
  let* parsed := safeParse "count_tasks" countTasksRequest args in
  let task_args :=
    filter_args (cnt_status parsed) (cnt_project parsed) (cnt_priority parsed)
      (cnt_tags parsed) in
  Ok (exec ("task " +:+ join " " task_args +:+ " count")).

Definition list_tasks_filtered (args : option raw) : result CommandInvocation :=
  let* parsed := safeParse "list_tasks_filtered" listTasksFilteredRequest args in
  let task_args :=
    filter_args (lf_status parsed) (lf_project parsed) (lf_priority parsed)
      (lf_tags parsed) in
  let report := match truthy (lf_report parsed) with Some r => r | None => "list" end in
  Ok (exec ("task " +:+ join " " task_args +:+ " " +:+ report)).

Definition delete_task (args : option raw) : result CommandInvocation :=
  let* parsed := safeParse "delete_task" deleteTaskRequest args in
  Ok (exec ("task rc.confirmation=no " +:+ identifier parsed +:+ " delete")).

Definition annotate_task (args : option raw) : result CommandInvocation :=
  let* parsed := safeParse "annotate_task" annotateTaskRequest args in
  Ok (exec ("task " +:+ ann_identifier parsed +:+ " annotate " +:+
            escapeShellArg (annotation parsed))).

Definition append_task (args : option raw) : result CommandInvocation :=
  let* parsed := safeParse "append_task" appendTaskRequest args in
  Ok (exec ("task " +:+ txt_identifier parsed +:+ " append " +:+
            escapeShellArg (text parsed))).

Definition prepend_task (args : option raw) : result CommandInvocation :=
  let* parsed := safeParse "prepend_task" prependTaskRequest args in
  Ok (exec ("task " +:+ txt_identifier parsed +:+ " prepend " +:+
            escapeShellArg (text parsed))).

Definition duplicate_task (args : option raw) : result CommandInvocation :=
  let* parsed := safeParse "duplicate_task" duplicateTaskRequest args in
  Ok (exec ("task " +:+ identifier parsed +:+ " duplicate")).

Definition undo_last (args : option raw) : result CommandInvocation :=
  let* parsed := safeParse "undo_last" undoLastRequest args in
  Ok (exec "task rc.confirmation=no undo").

Definition builtin_report_args (d : BuiltinReportData) : list string :=
  let task_args := [] in
  let task_args := push_field "project" (br_project d) task_args in
  let task_args := push_field "priority" (br_priority d) task_args in
  let task_args := push_each plus_tag (br_tags d) task_args in
  task_args.

Definition builtin_report (args : option raw) : result CommandInvocation :=
  let* parsed := safeParse "builtin_report" builtinReportRequest args in
  Ok (exec ("task " +:+ join " " (builtin_report_args parsed) +:+ " " +:+ br_report parsed)).

Definition visualization_report_args (d : VisualizationData) : list string :=
  let task_args := [] in
  let task_args := push_field "project" (vis_project d) task_args in
  let task_args := push_each plus_tag (vis_tags d) task_args in
  task_args.

Definition visualization_report (args : option raw) : result CommandInvocation :=
  let* parsed := safeParse "visualization_report" visualizationReportRequest args in
  Ok (exec ("task " +:+ join " " (visualization_report_args parsed) +:+ " " +:+
            vis_report parsed)).

(** [col.charAt(0).toUpperCase() + col.slice(1)], for a column name whose
    first character is ASCII (other first bytes are left as they are). *)
Definition to_upper (c : ascii) : ascii :=
  let n := nat_of_ascii c in
  if (97 <=? n)%nat && (n <=? 122)%nat then ascii_of_nat (n - 32) else c.

Definition capitalize (col : string) : string :=
  match col with
  | EmptyString => EmptyString
  | String c rest => String (to_upper c) rest
  end.

Definition custom_report_parts (d : CustomReportData) : list string :=
  let cmd_parts := [ "task" ] in
  let cmd_parts :=
    match truthy (cr_filter d) with
    | Some f => cmd_parts ++ [ f ]
    | None => cmd_parts
    end in
  let cmd_parts := cmd_parts ++ [ cr_report d ] in
  match cr_columns d with
  | Some ((_ :: _) as cols) =>
      let columns := join "," cols in
      let labels := join "," (map capitalize cols) in
      cmd_parts ++ [ "rc.report." +:+ cr_report d +:+ ".columns=" +:+ columns;
                     "rc.report." +:+ cr_report d +:+ ".labels=" +:+ labels ]
  | _ => cmd_parts
  end.

Definition custom_report (args : option raw) : result CommandInvocation :=
  let* parsed := safeParse "custom_report" customReportRequest args in
  Ok (exec (join " " (custom_report_parts parsed))).

(** ** The tool catalog and the dispatch switch *)

(** An entry of the list that the [ListTools] handler returns; its
    [inputSchema] is the JSON rendering of the request schema of the tool. *)
Record Tool : Type := mkTool {
  tool_name : string;
  tool_description : string
}.

(** The [tools] array, index.ts lines 305-391. *)
Definition tools : list Tool :=
  [ mkTool "get_next_tasks" "Get a list of all pending tasks";
    mkTool "mark_task_done" "Mark a task as done (completed)";
    mkTool "add_task" "Add a new task";
    mkTool "modify_task" "Modify an existing task";
    mkTool "modify_tasks_bulk" "Modify multiple tasks using TaskWarrior filter syntax";
    mkTool "get_task_info" "Get detailed information about a specific task";
    mkTool "count_tasks" "Count tasks matching specified filters";
    mkTool "list_tasks_filtered" "List tasks with comprehensive filtering options";
    mkTool "delete_task" "Delete a task from TaskWarrior";
    mkTool "annotate_task" "Add an annotation to a task";
    mkTool "append_task" "Append text to a task description";
    mkTool "prepend_task" "Prepend text to a task description";
    mkTool "duplicate_task" "Duplicate an existing task";
    mkTool "undo_last" "Undo the last TaskWarrior operation";
    mkTool "builtin_report"
      "Generate built-in TaskWarrior reports (list, all, active, completed, blocked, overdue, ready, recurring)";
    mkTool "visualization_report"
      "Generate TaskWarrior visualization reports (burndown, calendar, history, summary, timesheet)";
    mkTool "custom_report"
      "Execute custom TaskWarrior reports with user-defined columns and filters" ].

Definition Handler : Type := option raw -> result CommandInvocation.

(** The [case] labels of the switch, in source order, each with its body. *)
Definition cases : list (string * Handler) :=
  [ ("get_next_tasks", get_next_tasks);
    ("mark_task_done", mark_task_done);
    ("add_task", add_task);
    ("modify_task", modify_task);
    ("modify_tasks_bulk", modify_tasks_bulk);
    ("get_task_info", get_task_info);
    ("count_tasks", count_tasks);
    ("list_tasks_filtered", list_tasks_filtered);
    ("delete_task", delete_task);
    ("annotate_task", annotate_task);
    ("append_task", append_task);
    ("prepend_task", prepend_task);
    ("duplicate_task", duplicate_task);
    ("undo_last", undo_last);
    ("builtin_report", builtin_report);
    ("visualization_report", visualization_report);
    ("custom_report", custom_report) ].

(** [switch (name)]: the body of the first label equal to [name]. *)
Fixpoint switch (name : string) (cs : list (string * Handler)) : option Handler :=
  match cs with
  | [] => None
  | (label, body) :: cs' => if String.eqb name label then Some body else switch name cs'
  end.

(** The [try] block of the [CallTool] handler up to the call of [execSync];
    the [default] branch throws [Unknown tool]. *)
Definition dispatch (name : string) (args : option raw) : result CommandInvocation :=
  match switch name cases with
  | Some body => body args
  | None => Err (UnknownTool name)
  end.

(** The response of the [CallTool] handler: the trimmed output of the
    child process, or the error text with [isError]. *)
Inductive Failure : Type :=
| Thrown (e : error)
| ExecutionError (msg : string).

Inductive Response : Type :=
| Success (text : string)
| ErrorResponse (f : Failure).

Section Server.

(** [execSync(cmd, opts).toString().trim()]: the trimmed standard output
    of the child process, or the message of the error it throws (a
    non-zero exit, or output beyond [maxBuffer]). *)
Variable execSync : CommandInvocation -> string + string.

(** The [CallTool] handler, with the invocations it spawned. *)
Definition CallTool (name : string) (args : option raw) :
    Response * list CommandInvocation :=
  match dispatch name args with
  | Ok inv =>
      match execSync inv with
      | inl content => (Success content, [ inv ])
      | inr msg => (ErrorResponse (ExecutionError msg), [ inv ])
      end
  | Err e => (ErrorResponse (Thrown e), [])
  end.

End Server.

(** ** How the shell reads a command line

    [execSync] hands the command line to [/bin/sh], or to [/bin/bash] for
    [modify_tasks_bulk]; [/bin/sh] may itself be bash.  [sh_fields] is the
    splitting of a line into fields with quote removal, for lines that use
    blanks, single quotes and backslashes (POSIX XCU 2.2.1, 2.2.2 and
    2.6.5), which bash and the POSIX shells read alike: inside single
    quotes every character stands for itself up to the closing quote;
    outside, a backslash makes the next character literal and blanks
    separate fields.  A line that leaves this fragment (an unquoted
    operator, expansion, double quote, glob, brace or newline, or an
    unterminated quote) has no reading here: [None].  Braces are left out
    because bash expands [{a,b}] into several fields where a POSIX shell
    keeps one. *)

Module Shell.

Inductive mode : Type :=
| Unquoted
| Escaped
| SingleQuoted.

Definition is_blank (c : ascii) : bool := among (String " " (String "009" "")) c.

Definition is_special (c : ascii) : bool :=
  among "|&;<>()$`*?[#~{}" c || Ascii.eqb c (ascii_of_nat 34) || Ascii.eqb c "010".

(** The field being read, if one has been started (a pair of quotes
    starts a field even when nothing is between them). *)
Definition add_char (cur : option string) (c : ascii) : option string :=
  Some (match cur with Some w => w | None => "" end +:+ String c "").

Definition started (cur : option string) : option string :=
  Some (match cur with Some w => w | None => "" end).

Definition close (cur : option string) : list string :=
  match cur with
  | Some w => [ w ]
  | None => []
  end.

Fixpoint scan (m : mode) (cur : option string) (line : string) : option (list string) :=
  match line with
  | EmptyString =>
      match m with
      | Unquoted => Some (close cur)
      | _ => None
      end
  | String c rest =>
      match m with
      | SingleQuoted =>
          if Ascii.eqb c "'" then scan Unquoted cur rest
          else scan SingleQuoted (add_char cur c) rest
      | Escaped =>
          if Ascii.eqb c "010" then scan Unquoted cur rest
          else scan Unquoted (add_char cur c) rest
      | Unquoted =>
          if Ascii.eqb c "'" then scan SingleQuoted (started cur) rest
          else if Ascii.eqb c "\" then scan Escaped cur rest
          else if is_blank c then
            match scan Unquoted None rest with
            | Some fields => Some (close cur ++ fields)
            | None => None
            end
          else if is_special c then None
          else scan Unquoted (add_char cur c) rest
      end
  end.

Definition sh_fields (line : string) : option (list string) :=
  scan Unquoted None line.

End Shell.
Export Shell.

(** ** The wording of the specification

    Definitions that follow the words of the specification rather than the
    code, to be compared with the code. *)

Module Spec.
Import Regex.

(** "Surrounding it in single quotes and replacing every embedded single
    quote with the four-character sequence close-quote, backslash-quote,
    open-quote". *)
Definition quote_seq (c : ascii) : list ascii :=
  if Ascii.eqb c "'" then [ "'"; "\"; "'"; "'" ]%char else [ c ].

Definition spec_escape (s : string) : string :=
  string_of_list_ascii
    ([ "'"%char ] ++ flat_map quote_seq (list_ascii_of_string s) ++ [ "'"%char ]).



(** "Text matching [[@A-Za-z0-9_-]+]". *)
Definition spec_tag_char (c : ascii) : bool :=
  among "@" c || between "A" "Z" c || between "a" "z" c || between "0" "9" c ||
  among "_-" c.
Definition spec_tag : regex := Plus (Class spec_tag_char).

(** "Exactly 18 named operations". *)
Definition spec_operation_count : nat := 18.

End Spec.

(** ** Vocabulary of the statements *)

(** [contains needle hay]: [hay.includes(needle)]. *)
Fixpoint contains (needle hay : string) : bool :=
  String.prefix needle hay ||
  match hay with
  | EmptyString => false
  | String _ hay' => contains needle hay'
  end.

Definition occurs_in (needle hay : string) : Prop :=
  exists pre post, hay = pre +:+ needle +:+ post.

(** The names the catalog advertises. *)
Definition tool_names : list string := map tool_name tools.

(** A name is handled when the switch has a case for it. *)
Definition handled (name : string) : bool :=
  match switch name cases with
  | Some _ => true
  | None => false
  end.

(** A token of a command line: text that stands between a blank and a
    blank or the end of the line. *)
Definition has_token (tok cmd : string) : Prop :=
  exists pre post,
    cmd = pre +:+ " " +:+ tok +:+ post /\
    (post = "" \/ exists post', post = " " +:+ post').

(** ** The builders without their date checks

    [modify_tokens] and [add_tokens] are the arrays that
    [buildTaskModifyArgs] and the [add_task] handler fill when no date check
    throws; [present_dates] lists the date values the builder checks, in the
    order it checks them. *)

Definition modify_tokens (data : ModifyData) : list string :=
  let task_args := [] in
  let task_args :=
    match truthy (description data) with
    | Some d => task_args ++ [ "description:" +:+ escapeShellArg d ]
    | None => task_args
    end in
  let task_args := push_field "due" (due data) task_args in
  let task_args := push_field "priority" (priority data) task_args in
  let task_args := push_field "start" (start data) task_args in
  let task_args :=
    match stop_task data with
    | Some true => task_args ++ [ "start:" ]
    | _ => task_args
    end in
  let task_args := push_field "wait" (wait data) task_args in
  let task_args := push_field "until" (until data) task_args in
  let task_args := push_field "scheduled" (scheduled data) task_args in
  let task_args := push_field "project" (project data) task_args in
  let task_args :=
    match depends data with
    | Some ds => task_args ++ [ "depends:" +:+ join "," ds ]
    | None => task_args
    end in
  let task_args := push_each (fun tag => "+" +:+ tag) (tags data) task_args in
  let task_args := push_each (fun tag => "-" +:+ tag) (tags_remove data) task_args in
  let task_args := push_each (fun fld => fld +:+ ":") (clear_fields data) task_args in
  task_args.

Definition present_dates (data : ModifyData) : list string :=
  flat_map (fun x => match truthy x with Some v => [ v ] | None => [] end)
    [ due data; start data; wait data; until data; scheduled data ].

Definition first_rejected (dates : list string) : option string :=
  List.find (fun v => negb (accepted v)) dates.

Definition add_tokens (d : AddTaskData) : list string :=
  let task_args := [ "add" ] in
  let task_args := task_args ++ [ escapeShellArg (add_description d) ] in
  let task_args := push_field "due" (add_due d) task_args in
  let task_args := push_field "priority" (add_priority d) task_args in
  let task_args :=
    match truthy (add_project d) with
    | Some p => task_args ++ [ "project:" +:+ escapeShellArg p ]
    | None => task_args
    end in
  let task_args := push_each (fun tag => "+" +:+ escapeShellArg tag) (add_tags d) task_args in
  task_args.

(** [field_token name x t]: [t] is the token [name:v] of a present value
    [v] of [x]; [each_token f xs t]: [t] is the token [f x] of an item [x]
    of a present array [xs]. *)
Definition field_token (name : string) (x : option string) (t : string) : Prop :=
  exists v, truthy x = Some v /\ t = name +:+ ":" +:+ v.

Definition each_token (f : string -> string) (xs : option (list string)) (t : string) : Prop :=
  exists l x, xs = Some l /\ In x l /\ t = f x.

(** The text in lower case, as the [i] flag compares it. *)
Definition lower (s : string) : string :=
  string_of_list_ascii (map Regex.to_lower (list_ascii_of_string s)).

Definition is_digit (c : ascii) : bool := between "0" "9" c.

(** The date fields and the tools that take them. *)
Definition date_fields : list string := [ "due"; "start"; "wait"; "until"; "scheduled" ].

Definition takes_date (tool fld : string) : bool :=
  (String.eqb tool "add_task" && String.eqb fld "due") ||
  ((String.eqb tool "modify_task" || String.eqb tool "modify_tasks_bulk") &&
   existsb (String.eqb fld) date_fields).

(** The date field of the modify data that a field name selects. *)
Definition date_of (fld : string) (data : ModifyData) : option string :=
  if String.eqb fld "due" then due data
  else if String.eqb fld "start" then start data
  else if String.eqb fld "wait" then wait data
  else if String.eqb fld "until" then until data
  else if String.eqb fld "scheduled" then scheduled data
  else None.

(** The tools that take an identifier or a filter: the key of that field,
    what stands before it on the command line and the command word after
    it. *)
Definition target_table : list (string * (string * string * string)) :=
  [ ("mark_task_done", ("identifier", "task ", "done"));
    ("modify_task", ("identifier", "task ", "modify"));
    ("modify_tasks_bulk", ("filter", "yes | task ", "modify"));
    ("get_task_info", ("identifier", "task ", "info"));
    ("delete_task", ("identifier", "task rc.confirmation=no ", "delete"));
    ("annotate_task", ("identifier", "task ", "annotate"));
    ("append_task", ("identifier", "task ", "append"));
    ("prepend_task", ("identifier", "task ", "prepend"));
    ("duplicate_task", ("identifier", "task ", "duplicate")) ].

(** How a tool writes its identifier or filter: [modify_task] escapes it,
    the others insert it as it is. *)
Definition target_token (tool x : string) : string :=
  if String.eqb tool "modify_task" then escapeShellArg x else x.

(** The tag fields of the request schemas: tool and key. *)
Definition tag_fields : list (string * string) :=
  [ ("get_next_tasks", "tags"); ("add_task", "tags");
    ("modify_task", "tags"); ("modify_task", "tags_remove");
    ("modify_tasks_bulk", "tags"); ("modify_tasks_bulk", "tags_remove");
    ("count_tasks", "tags"); ("list_tasks_filtered", "tags");
    ("builtin_report", "tags"); ("visualization_report", "tags") ].

(** The tools that take [project] and [tags], each with: whether it
    shell-escapes their values, whether it takes [priority], whether it
    takes [tags_remove]. *)
Definition field_table : list (string * (bool * bool * bool)) :=
  [ ("get_next_tasks", (false, false, false));
    ("add_task", (true, true, false));
    ("modify_task", (false, true, true));
    ("modify_tasks_bulk", (false, true, true));
    ("count_tasks", (false, true, false));
    ("list_tasks_filtered", (false, true, false));
    ("builtin_report", (false, true, false));
    ("visualization_report", (false, false, false)) ].

Definition shown (escaped : bool) (x : string) : string :=
  if escaped then escapeShellArg x else x.

(** The tokens of the constrained fields of a raw request [m] on the
    command line [cmd]. *)
Definition carries (escaped with_priority with_remove : bool)
    (m : gmap string raw) (cmd : string) : Prop :=
  (forall p, m !! "project" = Some (RStr p) ->
     has_token ("project:" +:+ shown escaped p) cmd) /\
  (forall l t, m !! "tags" = Some (RArr l) -> In (RStr t) l ->
     has_token ("+" +:+ shown escaped t) cmd) /\
  (with_priority = true ->
   forall p, m !! "priority" = Some (RStr p) -> has_token ("priority:" +:+ p) cmd) /\
  (with_remove = true ->
   forall l t, m !! "tags_remove" = Some (RArr l) -> In (RStr t) l ->
     has_token ("-" +:+ t) cmd).

(** A schema for strings: it accepts exactly the strings that pass [ok]. *)
Definition str_schema (sch : Schema string) (ok : string -> bool) : Prop :=
  forall p v s, sch p v = Valid s <-> v = Some (RStr s) /\ ok s = true.

(** ** Reading tokens back

    [shell_plain c]: outside quotes the shell reads [c] as itself; [c] is
    no quote, backslash, blank, brace or other special character, so bash
    and a POSIX shell agree on it.
    [reads_as tok fld]: wherever the token [tok] stands in a line, the shell
    adds the text [fld] to the field it is reading and goes on unquoted.
    [all_ascii] lists the 256 characters; [classes_within P r] checks that
    every character class of the pattern [r] lies within [P]. *)

Definition shell_plain (c : ascii) : bool :=
  negb (Ascii.eqb c "'" || Ascii.eqb c "\" || is_blank c || is_special c).

Definition started_text (cur : option string) : string :=
  match cur with
  | Some w => w
  | None => ""
  end.

Definition reads_as (tok fld : string) : Prop :=
  forall cur rest,
    scan Unquoted cur (tok +:+ rest) =
    scan Unquoted (Some (started_text cur +:+ fld)) rest.

Definition all_ascii : list ascii := map ascii_of_nat (seq 0 256).

Fixpoint classes_within (P : ascii -> bool) (r : Regex.regex) : bool :=
  match r with
  | Regex.Void | Regex.Eps => true
  | Regex.Class p => forallb (fun a => implb (p a) (P a)) all_ascii
  | Regex.Seq r1 r2 | Regex.Alt r1 r2 => classes_within P r1 && classes_within P r2
  | Regex.Star r1 => classes_within P r1
  end.

(** A text of plain characters: it holds no quote, backslash, blank, brace
    or other character that a shell treats specially. *)
Definition plain_text (s : string) : bool :=
  forallb shell_plain (list_ascii_of_string s).

(** ** The fields the engine receives

    [add_fields] and [modify_fields] are the arrays of [add_task] and of
    [buildTaskModifyArgs] with every value as the request gave it, without
    the shell quoting: what the shell hands to the engine when it has read
    the command line. *)

Definition add_fields (d : AddTaskData) : list string :=
  let fields := [ "add"; add_description d ] in
  let fields := push_field "due" (add_due d) fields in
  let fields := push_field "priority" (add_priority d) fields in
  let fields := push_field "project" (add_project d) fields in
  let fields := push_each plus_tag (add_tags d) fields in
  fields.

Definition modify_fields (data : ModifyData) : list string :=
  let fields := [] in
  let fields := push_field "description" (description data) fields in
  let fields := push_field "due" (due data) fields in
  let fields := push_field "priority" (priority data) fields in
  let fields := push_field "start" (start data) fields in
  let fields :=
    match stop_task data with
    | Some true => fields ++ [ "start:" ]
    | _ => fields
    end in
  let fields := push_field "wait" (wait data) fields in
  let fields := push_field "until" (until data) fields in
  let fields := push_field "scheduled" (scheduled data) fields in
  let fields := push_field "project" (project data) fields in
  let fields :=
    match depends data with
    | Some ds => fields ++ [ "depends:" +:+ join "," ds ]
    | None => fields
    end in
  let fields := push_each (fun tag => "+" +:+ tag) (tags data) fields in
  let fields := push_each (fun tag => "-" +:+ tag) (tags_remove data) fields in
  let fields := push_each (fun fld => fld +:+ ":") (clear_fields data) fields in
  fields.

(** The tools whose command is the identifier and a command word: the
    words before the identifier and the word after it. *)
Definition identifier_lines : list (string * (list string * string)) :=
  [ ("mark_task_done", ([ "task" ], "done"));
    ("get_task_info", ([ "task" ], "info"));
    ("delete_task", ([ "task"; "rc.confirmation=no" ], "delete"));
    ("duplicate_task", ([ "task" ], "duplicate")) ].

(** The tools whose command ends in an escaped text: the key of the text
    and the command word. *)
Definition text_lines : list (string * (string * string)) :=
  [ ("annotate_task", ("annotation", "annotate"));
    ("append_task", ("text", "append"));
    ("prepend_task", ("text", "prepend")) ].

(** ** Vocabulary of the validation statements *)

(** [reports iss x]: the parse [x] failed and [iss] is among its issues. *)
Definition reports {A : Type} (iss : ZodIssue) (x : parsed A) : Prop :=
  exists issues, x = Invalid issues /\ In iss issues.

(** The fields a request must have: tool and key. *)
Definition required_keys : list (string * string) :=
  [ ("mark_task_done", "identifier"); ("add_task", "description");
    ("modify_task", "identifier"); ("modify_tasks_bulk", "filter");
    ("get_task_info", "identifier"); ("delete_task", "identifier");
    ("annotate_task", "identifier"); ("annotate_task", "annotation");
    ("append_task", "identifier"); ("append_task", "text");
    ("prepend_task", "identifier"); ("prepend_task", "text");
    ("duplicate_task", "identifier"); ("builtin_report", "report");
    ("visualization_report", "report"); ("custom_report", "report") ].

(** The keys each request schema reads. *)
Definition modify_keys (target_key : string) : list string :=
  [ target_key; "description"; "due"; "start"; "stop_task"; "wait"; "until";
    "scheduled"; "priority"; "project"; "depends"; "tags"; "tags_remove";
    "clear_fields" ].

Definition schema_keys : list (string * list string) :=
  [ ("get_next_tasks", [ "project"; "tags" ]);
    ("mark_task_done", [ "identifier" ]);
    ("add_task", [ "description"; "due"; "priority"; "project"; "tags" ]);
    ("modify_task", modify_keys "identifier");
    ("modify_tasks_bulk", modify_keys "filter");
    ("get_task_info", [ "identifier" ]);
    ("count_tasks", [ "status"; "project"; "tags"; "priority" ]);
    ("list_tasks_filtered", [ "status"; "project"; "tags"; "priority"; "report" ]);
    ("delete_task", [ "identifier" ]);
    ("annotate_task", [ "identifier"; "annotation" ]);
    ("append_task", [ "identifier"; "text" ]);
    ("prepend_task", [ "identifier"; "text" ]);
    ("duplicate_task", [ "identifier" ]);
    ("undo_last", []);
    ("builtin_report", [ "report"; "project"; "tags"; "priority" ]);
    ("visualization_report", [ "report"; "project"; "tags" ]);
    ("custom_report", [ "report"; "columns"; "filter" ]) ].

(** Optional values that the handlers treat as absent: tool, key and the
    value.  An empty string and [false] are falsy; an empty array is truthy
    but its loop adds nothing. *)
Definition empty_values : list (string * (string * raw)) :=
  [ ("get_next_tasks", ("tags", RArr []));
    ("add_task", ("due", RStr ""));
    ("add_task", ("tags", RArr []));
    ("modify_task", ("stop_task", RBool false));
    ("modify_task", ("tags", RArr []));
    ("modify_task", ("tags_remove", RArr []));
    ("modify_task", ("clear_fields", RArr []));
    ("modify_tasks_bulk", ("stop_task", RBool false));
    ("modify_tasks_bulk", ("tags", RArr []));
    ("modify_tasks_bulk", ("tags_remove", RArr []));
    ("modify_tasks_bulk", ("clear_fields", RArr []));
    ("count_tasks", ("tags", RArr []));
    ("list_tasks_filtered", ("tags", RArr []));
    ("list_tasks_filtered", ("report", RStr ""));
    ("builtin_report", ("tags", RArr []));
    ("visualization_report", ("tags", RArr []));
    ("custom_report", ("filter", RStr ""));
    ("custom_report", ("columns", RArr [])) ].

(** Two parses that fail with the same issues, or succeed with related
    values. *)
Definition prel {A B : Type} (R : A -> B -> Prop) (x : parsed A) (y : parsed B) : Prop :=
  match x, y with
  | Valid a, Valid b => R a b
  | Invalid i, Invalid j => i = j
  | _, _ => False
  end.

(** The report that [list_tasks_filtered] runs: the one given, or [list]
    when none or an empty one is given. *)
Definition report_or_list (v : option raw) : option string :=
  match v with
  | None => Some "list"
  | Some (RStr "") => Some "list"
  | Some (RStr r) => Some r
  | Some _ => None
  end.

(** ** Vocabulary of the date statements

    [digit_mask c] is [0] for a digit and [c] otherwise, and [date_shape s]
    is [s] with every digit masked.  [classes_respect f r] checks that no
    character class of the pattern [r] tells a character from its image
    under [f].  [iso_shapes] are the shapes of the first date pattern,
    [date_names] the words of the third, fourth and fifth. *)

Definition digit_mask (c : ascii) : ascii :=
  if is_digit c then "0"%char else c.

Definition date_shape (s : string) : string :=
  string_of_list_ascii (map digit_mask (list_ascii_of_string s)).

Fixpoint classes_respect (f : ascii -> ascii) (r : Regex.regex) : bool :=
  match r with
  | Regex.Void | Regex.Eps => true
  | Regex.Class p => forallb (fun a => Bool.eqb (p a) (p (f a))) all_ascii
  | Regex.Seq r1 r2 | Regex.Alt r1 r2 => classes_respect f r1 && classes_respect f r2
  | Regex.Star r1 => classes_respect f r1
  end.

Definition iso_shapes : list string :=
  [ "0000-00-00";
    "0000-00-00T00:00:00";
    "0000-00-00T00:00:00Z";
    "0000-00-00T00:00:00+00:00";
    "0000-00-00T00:00:00-00:00";
    "0000-00-00T00:00:00.000";
    "0000-00-00T00:00:00.000Z";
    "0000-00-00T00:00:00.000+00:00";
    "0000-00-00T00:00:00.000-00:00" ].

Definition date_names : list string :=
  [ "eom"; "eoq"; "eoy"; "som"; "soq"; "soy"; "today"; "tomorrow"; "yesterday"; "now";
    "monday"; "tuesday"; "wednesday"; "thursday"; "friday"; "saturday"; "sunday";
    "january"; "february"; "march"; "april"; "may"; "june"; "july"; "august";
    "september"; "october"; "november"; "december" ].

(** A sign, one digit or more, and one of the five unit letters. *)
Definition relative_date (v : string) : Prop :=
  exists sign ds unit,
    v = String sign (ds +:+ String unit "") /\
    (sign = "+"%char \/ sign = "-"%char) /\
    ds <> "" /\ forallb is_digit (list_ascii_of_string ds) = true /\
    In unit (list_ascii_of_string "dwmqy").

(** One digit or two, and [st], [nd], [rd] or [th] in any letter case. *)
Definition ordinal_date (v : string) : Prop :=
  exists ds suf,
    v = ds +:+ suf /\
    (String.length ds = 1 \/ String.length ds = 2)%nat /\
    forallb is_digit (list_ascii_of_string ds) = true /\
    In (lower suf) [ "st"; "nd"; "rd"; "th" ].

(** A column name that is empty or begins with an ASCII character: the
    names for which [capitalize] is [charAt(0).toUpperCase() + slice(1)]. *)
Definition ascii_head (col : string) : bool :=
  match col with
  | EmptyString => true
  | String c _ => (nat_of_ascii c <? 128)%nat
  end.





(** A schema, or a shape, whose failed parses always carry an issue. *)
Definition issues_nonempty {A : Type} (sch : Schema A) : Prop :=
  forall p v i, sch p v = Invalid i -> i <> [].

Definition shape_issues_nonempty {A : Type} (sh : Shape A) : Prop :=
  forall p m i, sh p m = Invalid i -> i <> [].

(** The data of a modify request with its [depends] replaced. *)
Definition with_depends (d : ModifyData) (ds : list string) : ModifyData :=
  mkModify (target d) (description d) (due d) (start d) (stop_task d) (wait d)
    (until d) (scheduled d) (priority d) (project d) (Some ds) (tags d)
    (tags_remove d) (clear_fields d).

(** * Properties *)

Module RegexFacts.
Import Regex.

Lemma lang_void_inv w : lang Void w -> False.
Proof. inversion 1. Qed.

Lemma lang_eps_inv w : lang Eps w -> w = [].
Proof. by inversion 1. Qed.

Lemma lang_class_inv p w : lang (Class p) w -> exists a, w = [a] /\ p a = true.
Proof. inversion 1; subst; eauto. Qed.

Lemma lang_seq_inv r1 r2 w :
  lang (Seq r1 r2) w -> exists w1 w2, w = w1 ++ w2 /\ lang r1 w1 /\ lang r2 w2.
Proof. inversion 1; subst; eauto. Qed.

Lemma lang_alt_inv r1 r2 w : lang (Alt r1 r2) w -> lang r1 w \/ lang r2 w.
Proof. inversion 1; subst; eauto. Qed.

Lemma lang_seq_cons r1 r2 a w1 w2 :
  lang r1 (a :: w1) -> lang r2 w2 -> lang (Seq r1 r2) (a :: w1 ++ w2).
Proof. intros H1 H2. apply (lang_seq r1 r2 (a :: w1) w2 H1 H2). Qed.

Lemma nullable_lang r : nullable r = true <-> lang r [].
Proof.
  split.
  - induction r as [| |p|r1 IH1 r2 IH2|r1 IH1 r2 IH2|r IH]; simpl; intros H;
      try discriminate.
    + constructor.
    + apply andb_true_iff in H as [H1 H2].
      apply (lang_seq r1 r2 [] []); auto.
    + apply orb_true_iff in H as [H|H]; [apply lang_alt_l|apply lang_alt_r]; auto.
    + constructor.
  - induction r as [| |p|r1 IH1 r2 IH2|r1 IH1 r2 IH2|r IH]; simpl; intros H; auto.
    + by apply lang_void_inv in H.
    + apply lang_class_inv in H as (a & Ha & _). discriminate.
    + apply lang_seq_inv in H as (w1 & w2 & Hw & H1 & H2).
      symmetry in Hw. apply app_eq_nil in Hw as [-> ->].
      rewrite IH1, IH2; auto.
    + apply lang_alt_inv in H as [H|H].
      * rewrite IH1; auto.
      * rewrite IH2, orb_true_r; auto.
Qed.

Lemma lang_star_cons r a w :
  lang (Star r) (a :: w) ->
  exists w1 w2, w = w1 ++ w2 /\ lang r (a :: w1) /\ lang (Star r) w2.
Proof.
  intros H. remember (Star r) as s eqn:Es. remember (a :: w) as v eqn:Ev.
  revert Es Ev.
  induction H as [| | | | | |r0 w1 w2 H1 _ H2 IH2]; intros Es Ev; try discriminate.
  inversion Es; subst r0. destruct w1 as [|b w1]; simpl in Ev.
  - apply IH2; auto.
  - inversion Ev; subst. exists w1, w2. auto.
Qed.

Lemma deriv_seq_lang a r1 r2 w :
  (forall v, lang (deriv a r1) v <-> lang r1 (a :: v)) ->
  lang (Seq (deriv a r1) r2) w <->
  exists w1 w2, w = w1 ++ w2 /\ lang r1 (a :: w1) /\ lang r2 w2.
Proof.
  intros IH. split.
  - intros H. apply lang_seq_inv in H as (w1 & w2 & -> & H1 & H2).
    exists w1, w2. split; [done|]. split; [by apply IH|done].
  - intros (w1 & w2 & -> & H1 & H2). constructor; [by apply IH|done].
Qed.

Lemma deriv_lang a r w : lang (deriv a r) w <-> lang r (a :: w).
Proof.
  revert w.
  induction r as [| |p|r1 IH1 r2 IH2|r1 IH1 r2 IH2|r IH]; intros w; simpl.
  - split; intros H; by apply lang_void_inv in H.
  - split; intros H; [by apply lang_void_inv in H|].
    apply lang_eps_inv in H. discriminate.
  - destruct (p a) eqn:Ep; split; intros H.
    + apply lang_eps_inv in H as ->. by constructor.
    + apply lang_class_inv in H as (b & Hb & _). inversion Hb; subst. constructor.
    + by apply lang_void_inv in H.
    + apply lang_class_inv in H as (b & Hb & Hp). inversion Hb; subst. congruence.
  - pose proof (deriv_seq_lang a r1 r2 w IH1) as Hseq.
    destruct (nullable r1) eqn:En.
    + split; intros H.
      * apply lang_alt_inv in H as [H|H].
        -- apply Hseq in H as (w1 & w2 & -> & H1 & H2). by apply lang_seq_cons.
        -- apply (lang_seq r1 r2 [] (a :: w)).
           ++ by apply nullable_lang.
           ++ by apply IH2.
      * apply lang_seq_inv in H as (w1 & w2 & Hw & H1 & H2).
        destruct w1 as [|b w1]; simpl in Hw.
        -- subst w2. apply lang_alt_r. by apply IH2.
        -- inversion Hw; subst. apply lang_alt_l. apply Hseq. eauto.
    + rewrite Hseq. split.
      * intros (w1 & w2 & -> & H1 & H2). by apply lang_seq_cons.
      * intros H. apply lang_seq_inv in H as (w1 & w2 & Hw & H1 & H2).
        destruct w1 as [|b w1]; simpl in Hw.
        -- apply nullable_lang in H1. congruence.
        -- inversion Hw; subst. eauto.
  - split; intros H; apply lang_alt_inv in H as [H|H].
    + apply lang_alt_l. by apply IH1.
    + apply lang_alt_r. by apply IH2.
    + apply lang_alt_l. by apply IH1.
    + apply lang_alt_r. by apply IH2.
  - split; intros H.
    + apply lang_seq_inv in H as (w1 & w2 & -> & H1 & H2).
      apply (lang_star_app r (a :: w1) w2); [by apply IH|done].
    + apply lang_star_cons in H as (w1 & w2 & -> & H1 & H2).
      constructor; [by apply IH|done].
Qed.

Lemma matches_lang r w : matches r w = true <-> lang r w.
Proof.
  revert r. induction w as [|a w IH]; intros r; simpl.
  - apply nullable_lang.
  - rewrite IH. apply deriv_lang.
Qed.

End RegexFacts.

(** ** Strings *)

Lemma append_cons (c : ascii) (s t : string) : String c s +:+ t = String c (s +:+ t).
Proof. reflexivity. Qed.

Lemma append_nil_l (s : string) : "" +:+ s = s.
Proof. reflexivity. Qed.

Lemma append_nil_r (s : string) : s +:+ "" = s.
Proof. induction s as [|c s IH]; [done|]. by rewrite append_cons, IH. Qed.

Lemma append_assoc (s1 s2 s3 : string) : (s1 +:+ s2) +:+ s3 = s1 +:+ s2 +:+ s3.
Proof. induction s1 as [|c s1 IH]; [done|]. by rewrite !append_cons, IH. Qed.

Lemma list_ascii_of_append (s1 s2 : string) :
  list_ascii_of_string (s1 +:+ s2) = list_ascii_of_string s1 ++ list_ascii_of_string s2.
Proof. induction s1 as [|c s1 IH]; [done|]. rewrite append_cons. simpl. by rewrite IH. Qed.

Lemma string_of_list_app (l1 l2 : list ascii) :
  string_of_list_ascii (l1 ++ l2) = string_of_list_ascii l1 +:+ string_of_list_ascii l2.
Proof. induction l1 as [|c l1 IH]; [done|]. simpl. by rewrite append_cons, IH. Qed.

Lemma prefix_spec (s1 s2 : string) :
  String.prefix s1 s2 = true <-> exists t, s2 = s1 +:+ t.
Proof.
  revert s2. induction s1 as [|c s1 IH]; intros s2; simpl.
  - destruct s2; split; eauto.
  - destruct s2 as [|d s2].
    + split; [discriminate|]. intros [t Ht]. discriminate.
    + simpl. destruct (ascii_dec c d) as [->|Hne].
      * rewrite IH. split; intros [t Ht]; exists t.
        -- by rewrite append_cons, Ht.
        -- rewrite append_cons in Ht. by inversion Ht.
      * split; [discriminate|]. intros [t Ht]. rewrite append_cons in Ht.
        inversion Ht. congruence.
Qed.

Lemma contains_cons (needle : string) (c : ascii) (hay : string) :
  contains needle (String c hay) =
  String.prefix needle (String c hay) || contains needle hay.
Proof. reflexivity. Qed.

Lemma contains_spec (needle hay : string) :
  contains needle hay = true <-> occurs_in needle hay.
Proof.
  unfold occurs_in. induction hay as [|c hay IH].
  - change (contains needle "") with (String.prefix needle "" || false).
    rewrite orb_false_r, prefix_spec. split.
    + intros [t Ht]. by exists "", t.
    + intros (pre & post & H). destruct pre; [by exists post|discriminate].
  - rewrite contains_cons, orb_true_iff, IH, prefix_spec. split.
    + intros [[t Ht]|(pre & post & Ht)].
      * by exists "", t.
      * exists (String c pre), post. by rewrite append_cons, Ht.
    + intros (pre & post & Ht). destruct pre as [|d pre].
      * left. by exists post.
      * right. exists pre, post. rewrite append_cons in Ht. by inversion Ht.
Qed.

(** ** Shell escaping *)

Lemma replace_quote_chars (s : string) :
  list_ascii_of_string (replace_g "'" "'\''" s) =
  flat_map Spec.quote_seq (list_ascii_of_string s).
Proof.
  induction s as [|c s IH]; [done|].
  simpl. unfold Spec.quote_seq at 1. destruct (Ascii.eqb c "'").
  - rewrite list_ascii_of_append, IH. reflexivity.
  - simpl. by rewrite IH.
Qed.

Lemma escapeShellArg_spec (s : string) : escapeShellArg s = Spec.spec_escape s.
Proof.
  unfold escapeShellArg, Spec.spec_escape.
  rewrite <- (string_of_list_ascii_of_string ("'" +:+ replace_g "'" "'\''" s +:+ "'")).
  by rewrite !list_ascii_of_append, replace_quote_chars.
Qed.

Lemma add_task_args_head (d : AddTaskData) (toks : list string) :
  add_task_args d = Ok toks ->
  exists rest, toks = "add" :: escapeShellArg (add_description d) :: rest.
Proof.
  unfold add_task_args, push_date, push_field, push_each.
  destruct (truthy (add_due d)) as [v|]; simpl.
  - unfold parseFlexibleDate. destruct (accepted v); simpl; [|discriminate].
    intros [= <-].
    destruct (truthy (add_priority d)), (truthy (add_project d)), (add_tags d);
      simpl; eauto.
  - intros [= <-].
    destruct (truthy (add_priority d)), (truthy (add_project d)), (add_tags d);
      simpl; eauto.
Qed.

(** C1.  [escapeShellArg] returns its argument between single quotes with
    every single quote inside replaced by the four characters quote,
    backslash, quote, quote; the second token of every [add_task] command
    is the escaped description, and for the description [It's a test] the
    token is ['It'\''s a test']. *)
Theorem escapeShellArg_quotes :
  (forall s : string, escapeShellArg s = Spec.spec_escape s) /\
  (forall d : AddTaskData,
     match add_task_args d with
     | Ok toks => toks !! 1%nat = Some (escapeShellArg (add_description d))
     | Err _ => True
     end) /\
  escapeShellArg "It's a test" = "'It'\''s a test'" /\
  add_task_args (mkAddTask "It's a test" None None None None) =
    Ok [ "add"; "'It'\''s a test'" ] /\
  dispatch "add_task" (Some (RObj {[ "description" := RStr "It's a test" ]})) =
    Ok (exec "task add 'It'\''s a test'").
Proof.
  split; [exact escapeShellArg_spec|]. split.
  - intros d. destruct (add_task_args d) as [toks|e] eqn:E; [|done].
    apply add_task_args_head in E as [rest ->]. reflexivity.
  - repeat split; vm_compute; reflexivity.
Qed.

(** ** The shell reads an escaped token back *)

Lemma scan_quoted_body (w s rest : string) :
  scan SingleQuoted (Some w) (replace_g "'" "'\''" s +:+ String "'" rest) =
  scan Unquoted (Some (w +:+ s)) rest.
Proof.
  revert w. induction s as [|c s IH]; intros w.
  - simpl replace_g. rewrite append_nil_l. simpl. by rewrite append_nil_r.
  - simpl replace_g. destruct (Ascii.eqb_spec c "'") as [->|Hne].
    + rewrite !append_cons, append_nil_l. simpl. unfold started, add_char.
      rewrite IH. by rewrite append_assoc.
    + rewrite append_cons. simpl.
      apply Ascii.eqb_neq in Hne. rewrite Hne. unfold add_char.
      rewrite IH. by rewrite append_assoc.
Qed.

Lemma scan_escaped_token (cur : option string) (s rest : string) :
  scan Unquoted cur (escapeShellArg s +:+ rest) =
  scan Unquoted (Some (match cur with Some w => w | None => "" end +:+ s)) rest.
Proof.
  unfold escapeShellArg.
  rewrite append_cons, append_nil_l, append_cons, append_assoc, append_cons, append_nil_l.
  simpl. apply scan_quoted_body.
Qed.

(** C2.  Escaping a text and letting the shell read the token gives the
    text back as one field, whatever the text holds (single quotes
    included), alone or as the description of an [add_task] command. *)
Theorem escape_then_shell_roundtrip :
  (forall s : string, sh_fields (escapeShellArg s) = Some [ s ]) /\
  (forall s : string,
     sh_fields ("task add " +:+ escapeShellArg s) = Some [ "task"; "add"; s ]).
Proof.
  split; intros s.
  - unfold sh_fields. rewrite <- (append_nil_r (escapeShellArg s)).
    rewrite scan_escaped_token. reflexivity.
  - unfold sh_fields. rewrite <- (append_nil_r (escapeShellArg s)).
    pose proof (scan_escaped_token None s "") as Htok.
    remember (escapeShellArg s +:+ "") as tok eqn:Etok.
    rewrite !append_cons, append_nil_l. simpl.
    rewrite Htok. reflexivity.
Qed.

(** ** What a schema accepts *)

Lemma pap_valid {A B : Type} (f : parsed (A -> B)) (x : parsed A) (b : B) :
  pap f x = Valid b <-> exists g a, f = Valid g /\ x = Valid a /\ b = g a.
Proof.
  split.
  - destruct f as [g|i], x as [a|j]; simpl; intros [= <-]. eauto.
  - intros (g & a & -> & -> & ->). reflexivity.
Qed.

Lemma shape_ap_valid {A B : Type} (sh : Shape (A -> B)) (fld : Shape A) p m (b : B) :
  (sh <&> fld) p m = Valid b <->
  exists g a, sh p m = Valid g /\ fld p m = Valid a /\ b = g a.
Proof. apply pap_valid. Qed.

Lemma shape_ap_invalid_l {A B : Type} (sh : Shape (A -> B)) (fld : Shape A) p m i :
  sh p m = Invalid i -> exists j, (sh <&> fld) p m = Invalid j.
Proof. unfold shape_ap. intros ->. destruct (fld p m); simpl; eauto. Qed.

Lemma shape_ap_invalid_r {A B : Type} (sh : Shape (A -> B)) (fld : Shape A) p m i :
  fld p m = Invalid i -> exists j, (sh <&> fld) p m = Invalid j.
Proof. unfold shape_ap. intros ->. destruct (sh p m); simpl; eauto. Qed.

Lemma z_string_str : str_schema z_string (fun _ => true).
Proof.
  intros p v s. unfold z_string. split.
  - destruct v as [[]|]; intros [= <-]. done.
  - by intros [-> _].
Qed.

Lemma z_string_min_str n msg :
  str_schema (z_string_min n msg) (fun s => (n <=? String.length s)%nat).
Proof.
  intros p v s. unfold z_string_min, z_string. split.
  - destruct v as [[| | |s'| |]|]; try discriminate.
    destruct (n <=? String.length s')%nat eqn:E; intros [= <-]. done.
  - intros [-> H]. by rewrite H.
Qed.

Lemma z_string_regex_str re msg : str_schema (z_string_regex re msg) (Regex.test re).
Proof.
  intros p v s. unfold z_string_regex, z_string. split.
  - destruct v as [[| | |s'| |]|]; try discriminate.
    destruct (Regex.test re s') eqn:E; intros [= <-]. done.
  - intros [-> H]. by rewrite H.
Qed.

Lemma z_enum_str values :
  str_schema (z_enum values) (fun s => existsb (String.eqb s) values).
Proof.
  intros p v s. unfold z_enum. split.
  - destruct v as [[| | |s'| |]|]; try discriminate.
    destruct (existsb (String.eqb s') values) eqn:E; intros [= <-]. done.
  - intros [-> H]. by rewrite H.
Qed.

Lemma z_optional_valid {A : Type} (sch : Schema A) p v (o : option A) :
  z_optional sch p v = Valid o <->
  match o with
  | None => v = None
  | Some a => v <> None /\ sch p v = Valid a
  end.
Proof.
  unfold z_optional. destruct v as [r|].
  - destruct (sch p (Some r)) as [a|i]; simpl; split.
    + intros [= <-]. done.
    + destruct o as [a'|]; [|done]. by intros [_ [= ->]].
    + discriminate.
    + destruct o as [a'|]; [|done]. by intros [_ ?].
  - split.
    + by intros [= <-].
    + destruct o as [a|]; [by intros [? _]|done].
Qed.

Lemma optional_str sch ok p v (o : option string) :
  str_schema sch ok ->
  z_optional sch p v = Valid o <->
  v = RStr <$> o /\ (forall s, o = Some s -> ok s = true).
Proof.
  intros Hsch. unfold str_schema in Hsch.
  rewrite z_optional_valid. destruct o as [s|]; simpl.
  - rewrite Hsch. split.
    + intros [_ [-> Hok]]. split; [done|]. by intros ? [= <-].
    + intros [-> Hok]. split; [done|]. split; [done|]. by apply Hok.
  - split; [by intros ->|by intros [-> _]].
Qed.

Lemma parse_items_str sch ok p i l (xs : list string) :
  str_schema sch ok ->
  parse_items sch p i l = Valid xs <-> l = map RStr xs /\ forallb ok xs = true.
Proof.
  intros Hsch. revert i xs. induction l as [|r l IH]; intros i xs; simpl.
  - split.
    + by intros [= <-].
    + destruct xs; [done|]. by intros [[=] _].
  - rewrite pap_valid. split.
    + intros (g & ys & Hg & Hys & ->).
      destruct (sch (p ++ [PIndex i]) (Some r)) as [x|] eqn:Ex; [|discriminate].
      simpl in Hg. injection Hg as <-.
      apply Hsch in Ex as [[= ->] Hok]. apply IH in Hys as [-> Hall].
      simpl. by rewrite Hok, Hall.
    + destruct xs as [|x xs]; [by intros [[=] _]|].
      simpl. intros [[= -> ->] Hall]. apply andb_true_iff in Hall as [Hok Hall].
      exists (cons x), xs. split; [|split; [|done]].
      * assert (Hx : sch (p ++ [PIndex i]) (Some (RStr x)) = Valid x) by by apply Hsch.
        by rewrite Hx.
      * by apply IH.
Qed.

Lemma optional_array_str sch ok p v (o : option (list string)) :
  str_schema sch ok ->
  z_optional (z_array sch) p v = Valid o <->
  v = (fun l => RArr (map RStr l)) <$> o /\ (forall l, o = Some l -> forallb ok l = true).
Proof.
  intros Hsch. rewrite z_optional_valid. destruct o as [xs|]; simpl.
  - unfold z_array. split.
    + intros [_ H]. destruct v as [[| | | |l|]|]; try discriminate.
      apply (parse_items_str _ _ _ _ _ _ Hsch) in H as [-> Hall].
      split; [done|]. by intros ? [= <-].
    + intros [-> Hall]. split; [done|].
      apply (parse_items_str _ _ _ _ _ _ Hsch). split; [done|]. by apply Hall.
  - split; [by intros ->|by intros [-> _]].
Qed.

Lemma z_optional_boolean p v (o : option bool) :
  z_optional z_boolean p v = Valid o <-> v = RBool <$> o.
Proof.
  rewrite z_optional_valid. unfold z_boolean. destruct o as [b|]; simpl.
  - split.
    + intros [_ H]. destruct v as [[]|]; try discriminate. by injection H as ->.
    + by intros ->.
  - done.
Qed.

Ltac invert_shape H :=
  repeat (let g := fresh "g" in
          let a := fresh "a" in
          let Ha := fresh "Ha" in
          apply shape_ap_valid in H as (g & a & H & Ha & ->));
  unfold shape_pure in H; injection H as <-.

(** The typed data of an accepted modify request are the raw fields,
    unchanged. *)
Lemma modify_shape_valid tk tm p m d :
  modify_shape tk tm p m = Valid d ->
  (m !! tk = Some (RStr (target d)) /\ target d <> "") /\
  m !! "description" = RStr <$> description d /\
  (m !! "due" = RStr <$> due d /\
   m !! "start" = RStr <$> start d /\
   m !! "wait" = RStr <$> wait d /\
   m !! "until" = RStr <$> until d /\
   m !! "scheduled" = RStr <$> scheduled d) /\
  m !! "stop_task" = RBool <$> stop_task d /\
  m !! "priority" = RStr <$> priority d /\
  m !! "project" = RStr <$> project d /\
  m !! "depends" = (fun l => RArr (map RStr l)) <$> depends d /\
  (m !! "tags" = (fun l => RArr (map RStr l)) <$> tags d /\
   forall l, tags d = Some l -> forallb (Regex.test tagRegex) l = true) /\
  (m !! "tags_remove" = (fun l => RArr (map RStr l)) <$> tags_remove d /\
   forall l, tags_remove d = Some l -> forallb (Regex.test tagRegex) l = true) /\
  m !! "clear_fields" = (fun l => RArr (map RStr l)) <$> clear_fields d.
Proof.
  intros H. unfold modify_shape in H. invert_shape H. unfold key in *. simpl.
  apply (z_string_min_str 1) in Ha12 as [Htk Hlen].
  apply (optional_str _ _ _ _ _ (z_string_min_str 1 _)) in Ha11 as [? _].
  apply (optional_str _ _ _ _ _ (z_string_min_str 1 _)) in Ha10 as [? _].
  apply (optional_str _ _ _ _ _ (z_string_min_str 1 _)) in Ha9 as [? _].
  apply z_optional_boolean in Ha8.
  apply (optional_str _ _ _ _ _ (z_string_min_str 1 _)) in Ha7 as [? _].
  apply (optional_str _ _ _ _ _ (z_string_min_str 1 _)) in Ha6 as [? _].
  apply (optional_str _ _ _ _ _ (z_string_min_str 1 _)) in Ha5 as [? _].
  apply (optional_str _ _ _ _ _ (z_enum_str _)) in Ha4 as [? _].
  apply (optional_str _ _ _ _ _ (z_string_regex_str _ _)) in Ha3 as [? _].
  apply (optional_array_str _ _ _ _ _ (z_string_min_str 1 _)) in Ha2 as [? _].
  apply (optional_array_str _ _ _ _ _ (z_string_regex_str _ _)) in Ha1 as [? ?].
  apply (optional_array_str _ _ _ _ _ (z_string_regex_str _ _)) in Ha0 as [? ?].
  apply (optional_array_str _ _ _ _ _ (z_enum_str _)) in Ha as [? _].
  repeat split; try done.
  intros ->. discriminate.
Qed.

Lemma add_shape_valid m d :
  addTaskRequest [] (Some (RObj m)) = Valid d ->
  m !! "description" = Some (RStr (add_description d)) /\
  m !! "due" = RStr <$> add_due d /\
  m !! "priority" = RStr <$> add_priority d /\
  m !! "project" = RStr <$> add_project d /\
  m !! "tags" = (fun l => RArr (map RStr l)) <$> add_tags d.
Proof.
  intros H. unfold addTaskRequest, z_object in H. invert_shape H. unfold key in *. simpl.
  apply z_string_str in Ha3 as [? _].
  apply (optional_str _ _ _ _ _ z_string_str) in Ha2 as [? _].
  apply (optional_str _ _ _ _ _ (z_enum_str _)) in Ha1 as [? _].
  apply (optional_str _ _ _ _ _ (z_string_regex_str _ _)) in Ha0 as [? _].
  apply (optional_array_str _ _ _ _ _ (z_string_regex_str _ _)) in Ha as [? _].
  done.
Qed.

(** ** The builders *)

Lemma buildTaskModifyArgs_eq (d : ModifyData) :
  buildTaskModifyArgs d =
  match first_rejected (present_dates d) with
  | Some v => Err (InvalidDateFormat (invalid_date_message v))
  | None => Ok (modify_tokens d)
  end.
Proof.
  unfold buildTaskModifyArgs, modify_tokens, present_dates, first_rejected.
  unfold push_date, push_field, parseFlexibleDate. simpl.
  destruct (truthy (due d)) as [v1|]; simpl;
    [destruct (accepted v1); simpl; [|reflexivity]|];
  (destruct (truthy (start d)) as [v2|]; simpl;
    [destruct (accepted v2); simpl; [|reflexivity]|]);
  (destruct (truthy (wait d)) as [v3|]; simpl;
    [destruct (accepted v3); simpl; [|reflexivity]|]);
  (destruct (truthy (until d)) as [v4|]; simpl;
    [destruct (accepted v4); simpl; [|reflexivity]|]);
  (destruct (truthy (scheduled d)) as [v5|]; simpl;
    [destruct (accepted v5); simpl; [|reflexivity]|]);
  reflexivity.
Qed.

Lemma add_task_args_eq (d : AddTaskData) :
  add_task_args d =
  match truthy (add_due d) with
  | Some v =>
      if accepted v then Ok (add_tokens d)
      else Err (InvalidDateFormat (invalid_date_message v))
  | None => Ok (add_tokens d)
  end.
Proof.
  unfold add_task_args, add_tokens, push_date, push_field, parseFlexibleDate.
  destruct (truthy (add_due d)) as [v|]; simpl; [|reflexivity].
  destruct (accepted v); reflexivity.
Qed.

Lemma first_rejected_none (dates : list string) (v : string) :
  first_rejected dates = None -> In v dates -> accepted v = true.
Proof.
  unfold first_rejected. intros Hnone Hin.
  pose proof (find_none _ _ Hnone v Hin) as H. simpl in H.
  by destruct (accepted v).
Qed.

Lemma first_rejected_some (dates : list string) (w : string) :
  first_rejected dates = Some w -> In w dates /\ accepted w = false.
Proof.
  unfold first_rejected. intros H. apply find_some in H as [Hin Hw].
  split; [done|]. by destruct (accepted w).
Qed.

Lemma in_push_field name x args t :
  In t (push_field name x args) <-> In t args \/ field_token name x t.
Proof.
  unfold push_field, field_token. destruct (truthy x) as [v|].
  - rewrite in_app_iff. simpl. split.
    + intros [H|[<-|[]]]; eauto.
    + intros [H|(v' & [= <-] & ->)]; auto.
  - split; [auto|]. intros [H|(v' & [=] & _)]. done.
Qed.

Lemma in_push_each f xs args t :
  In t (push_each f xs args) <-> In t args \/ each_token f xs t.
Proof.
  unfold push_each, each_token. destruct xs as [l|].
  - rewrite in_app_iff, in_map_iff. split.
    + intros [H|(x & <- & Hx)]; eauto 6.
    + intros [H|(l' & x & [= <-] & Hx & ->)]; eauto.
  - split; [auto|]. intros [H|(l' & x & [=] & _)]. done.
Qed.

Lemma in_modify_tokens (d : ModifyData) (t : string) :
  In t (modify_tokens d) <->
  (exists v, truthy (description d) = Some v /\ t = "description:" +:+ escapeShellArg v) \/
  field_token "due" (due d) t \/
  field_token "priority" (priority d) t \/
  field_token "start" (start d) t \/
  (stop_task d = Some true /\ t = "start:") \/
  field_token "wait" (wait d) t \/
  field_token "until" (until d) t \/
  field_token "scheduled" (scheduled d) t \/
  field_token "project" (project d) t \/
  (exists ds, depends d = Some ds /\ t = "depends:" +:+ join "," ds) \/
  each_token (fun tag => "+" +:+ tag) (tags d) t \/
  each_token (fun tag => "-" +:+ tag) (tags_remove d) t \/
  each_token (fun fld => fld +:+ ":") (clear_fields d) t.
Proof.
  unfold modify_tokens. rewrite !in_push_each.
  assert (Hdep : forall args,
    In t (match depends d with
          | Some ds => args ++ [ "depends:" +:+ join "," ds ]
          | None => args
          end) <->
    In t args \/ exists ds, depends d = Some ds /\ t = "depends:" +:+ join "," ds).
  { intros args. destruct (depends d) as [ds|].
    - rewrite in_app_iff. simpl. split.
      + intros [H|[<-|[]]]; eauto.
      + intros [H|(ds' & [= <-] & ->)]; auto.
    - split; [auto|]. intros [H|(ds' & [=] & _)]. done. }
  rewrite Hdep, !in_push_field.
  assert (Hstop : forall args,
    In t (match stop_task d with
          | Some true => args ++ [ "start:" ]
          | _ => args
          end) <->
    In t args \/ (stop_task d = Some true /\ t = "start:")).
  { intros args. destruct (stop_task d) as [[|]|].
    - rewrite in_app_iff. simpl. split.
      + intros [H|[<-|[]]]; eauto.
      + intros [H|[_ ->]]; auto.
    - split; [auto|]. intros [H|[[=] _]]. done.
    - split; [auto|]. intros [H|[[=] _]]. done. }
  rewrite Hstop, !in_push_field.
  assert (Hdesc :
    In t (match truthy (description d) with
          | Some v => [] ++ [ "description:" +:+ escapeShellArg v ]
          | None => []
          end) <->
    exists v, truthy (description d) = Some v /\ t = "description:" +:+ escapeShellArg v).
  { destruct (truthy (description d)) as [v|]; simpl.
    - split.
      + intros [<-|[]]. eauto.
      + intros (v' & [= <-] & ->). auto.
    - split; [done|]. intros (v' & [=] & _). }
  rewrite Hdesc. tauto.
Qed.

Lemma in_add_tokens (d : AddTaskData) (t : string) :
  In t (add_tokens d) <->
  t = "add" \/
  t = escapeShellArg (add_description d) \/
  field_token "due" (add_due d) t \/
  field_token "priority" (add_priority d) t \/
  (exists p, truthy (add_project d) = Some p /\ t = "project:" +:+ escapeShellArg p) \/
  each_token (fun tag => "+" +:+ escapeShellArg tag) (add_tags d) t.
Proof.
  unfold add_tokens. rewrite in_push_each.
  assert (Hproj : forall args,
    In t (match truthy (add_project d) with
          | Some p => args ++ [ "project:" +:+ escapeShellArg p ]
          | None => args
          end) <->
    In t args \/
    exists p, truthy (add_project d) = Some p /\ t = "project:" +:+ escapeShellArg p).
  { intros args. destruct (truthy (add_project d)) as [p|].
    - rewrite in_app_iff. simpl. split.
      + intros [H|[<-|[]]]; eauto.
      + intros [H|(p' & [= <-] & ->)]; auto.
    - split; [auto|]. intros [H|(p' & [=] & _)]. done. }
  rewrite Hproj, !in_push_field. simpl.
  split; [intros [[[[[<-|[<-|[]]]|?]|?]|?]|?]; auto 7|].
  intros [->|[->|[?|[?|[?|?]]]]]; auto 8.
Qed.

(** ** The languages of the patterns *)

Module PatternFacts.
Import Regex RegexFacts.

Lemma test_lang r s : test r s = true <-> lang r (list_ascii_of_string s).
Proof. apply matches_lang. Qed.

Lemma lang_star_class p w : lang (Star (Class p)) w <-> forallb p w = true.
Proof.
  split.
  - intros H. remember (Star (Class p)) as r eqn:Er. revert Er.
    induction H as [| | | | | |r0 w1 w2 H1 _ H2 IH2]; intros Er; try discriminate.
    + reflexivity.
    + inversion Er; subst r0. apply lang_class_inv in H1 as (a & -> & Ha).
      simpl. rewrite Ha. by apply IH2.
  - induction w as [|a w IH]; simpl; intros H.
    + constructor.
    + apply andb_true_iff in H as [Ha Hw].
      apply (lang_star_app (Class p) [a] w); [by constructor|by apply IH].
Qed.

Lemma lang_plus_class p w :
  lang (Plus (Class p)) w <-> w <> [] /\ forallb p w = true.
Proof.
  unfold Plus. split.
  - intros H. apply lang_seq_inv in H as (w1 & w2 & -> & H1 & H2).
    apply lang_class_inv in H1 as (a & -> & Ha). apply lang_star_class in H2.
    split; [done|]. simpl. by rewrite Ha.
  - intros [Hne H]. destruct w as [|a w]; [done|]. simpl in H.
    apply andb_true_iff in H as [Ha Hw].
    apply (lang_seq (Class p) _ [a] w); [by constructor|by apply lang_star_class].
Qed.

Lemma test_plus_class p s :
  test (Plus (Class p)) s = true <->
  s <> "" /\ forallb p (list_ascii_of_string s) = true.
Proof.
  rewrite test_lang, lang_plus_class. destruct s; simpl; split; intros [? ?]; done.
Qed.

Lemma lang_anyof rs w : lang (AnyOf rs) w <-> exists r, In r rs /\ lang r w.
Proof.
  induction rs as [|r rs IH]; simpl.
  - split; [intros H; by apply lang_void_inv in H|by intros (? & [] & _)].
  - split.
    + intros H. apply lang_alt_inv in H as [H|H]; [eauto|].
      apply IH in H as (r' & Hin & H). eauto.
    + intros (r' & [<-|Hin] & H); [by apply lang_alt_l|].
      apply lang_alt_r, IH. eauto.
Qed.

Lemma lang_word_i s w :
  lang (Word ChrI s) w <-> map to_lower w = map to_lower (list_ascii_of_string s).
Proof.
  revert w. induction s as [|c s IH]; intros w; simpl.
  - split.
    + intros H. by apply lang_eps_inv in H as ->.
    + destruct w; [constructor|discriminate].
  - split.
    + intros H. apply lang_seq_inv in H as (w1 & w2 & -> & H1 & H2).
      apply lang_class_inv in H1 as (a & -> & Ha). apply Ascii.eqb_eq in Ha.
      apply IH in H2. simpl. by rewrite Ha, H2.
    + destruct w as [|a w]; [discriminate|]. simpl. intros [= Ha Hw].
      apply (lang_seq (ChrI c) _ [a] w).
      * constructor. by apply Ascii.eqb_eq.
      * by apply IH.
Qed.

Lemma lang_words_i ws w :
  lang (words_i ws) w <->
  exists s, In s ws /\ map to_lower w = map to_lower (list_ascii_of_string s).
Proof.
  unfold words_i. rewrite lang_anyof. split.
  - intros (r & Hin & H). apply in_map_iff in Hin as (s & <- & Hs).
    apply lang_word_i in H. eauto.
  - intros (s & Hs & H). exists (Word ChrI s). split.
    + apply in_map_iff. eauto.
    + by apply lang_word_i.
Qed.

Lemma to_lower_idemp c : to_lower (to_lower c) = to_lower c.
Proof. destruct c as [[] [] [] [] [] [] [] []]; reflexivity. Qed.

Lemma lower_spec s t :
  lower s = lower t <->
  map to_lower (list_ascii_of_string s) = map to_lower (list_ascii_of_string t).
Proof.
  unfold lower. split; [|by intros ->].
  intros H. apply (f_equal list_ascii_of_string) in H.
  by rewrite !list_ascii_of_string_of_list_ascii in H.
Qed.

Lemma lower_idemp s : lower (lower s) = lower s.
Proof.
  unfold lower. rewrite list_ascii_of_string_of_list_ascii, map_map.
  f_equal. apply map_ext. intros c. apply to_lower_idemp.
Qed.

End PatternFacts.

(** The sixth date pattern accepts one or two digits followed by [st],
    [nd], [rd] or [th] in any letter case, whatever the number. *)
Lemma ordinal_accepts (v : string) :
  Regex.test ordinalRegex v = true <->
  exists ds suf,
    v = ds +:+ suf /\
    (String.length ds = 1 \/ String.length ds = 2)%nat /\
    forallb is_digit (list_ascii_of_string ds) = true /\
    In (lower suf) [ "st"; "nd"; "rd"; "th" ].
Proof.
  rewrite PatternFacts.test_lang. unfold ordinalRegex, Cat, digit. split.
  - intros H.
    apply RegexFacts.lang_seq_inv in H as (w1 & r1 & Hv & H1 & H).
    apply RegexFacts.lang_seq_inv in H as (w2 & r2 & -> & H2 & H).
    apply RegexFacts.lang_seq_inv in H as (w3 & r3 & -> & H3 & H).
    apply RegexFacts.lang_eps_inv in H as ->.
    apply RegexFacts.lang_class_inv in H1 as (d & -> & Hd).
    apply PatternFacts.lang_words_i in H3 as (s & Hs & Hlow).
    rewrite app_nil_r in Hv.
    assert (Hsuf : In (lower (string_of_list_ascii w3)) [ "st"; "nd"; "rd"; "th" ]).
    { assert (E : lower (string_of_list_ascii w3) = lower s).
      { apply PatternFacts.lower_spec.
        by rewrite list_ascii_of_string_of_list_ascii. }
      rewrite E. simpl in Hs.
      destruct Hs as [<-|[<-|[<-|[<-|[]]]]]; vm_compute; tauto. }
    apply RegexFacts.lang_alt_inv in H2 as [H2|H2].
    + apply RegexFacts.lang_class_inv in H2 as (d2 & -> & Hd2).
      exists (string_of_list_ascii [d; d2]), (string_of_list_ascii w3).
      split; [|split; [by right|split; [|done]]].
      * rewrite <- string_of_list_app, <- (string_of_list_ascii_of_string v).
        by rewrite Hv.
      * simpl. unfold is_digit. by rewrite Hd, Hd2.
    + apply RegexFacts.lang_eps_inv in H2 as ->.
      exists (string_of_list_ascii [d]), (string_of_list_ascii w3).
      split; [|split; [by left|split; [|done]]].
      * rewrite <- string_of_list_app, <- (string_of_list_ascii_of_string v).
        by rewrite Hv.
      * simpl. unfold is_digit. by rewrite Hd.
  - intros (ds & suf & -> & Hlen & Hdig & Hsuf).
    rewrite list_ascii_of_append.
    assert (H3 : Regex.lang (Regex.Seq (words_i [ "st"; "nd"; "rd"; "th" ]) Regex.Eps)
                   (list_ascii_of_string suf)).
    { rewrite <- (app_nil_r (list_ascii_of_string suf)). constructor; [|constructor].
      apply PatternFacts.lang_words_i. exists (lower suf). split; [done|].
      apply PatternFacts.lower_spec. by rewrite PatternFacts.lower_idemp. }
    destruct ds as [|d [|d2 [|d3 ds]]]; simpl in Hlen; try (destruct Hlen; discriminate).
    + simpl in Hdig. rewrite andb_true_r in Hdig. simpl.
      apply (Regex.lang_seq _ _ [d] (list_ascii_of_string suf)); [by constructor|].
      apply (Regex.lang_seq _ _ [] (list_ascii_of_string suf)); [|done].
      apply Regex.lang_alt_r. constructor.
    + simpl in Hdig. rewrite andb_true_r in Hdig.
      apply andb_true_iff in Hdig as [Hd Hd2]. simpl.
      apply (Regex.lang_seq _ _ [d] (d2 :: list_ascii_of_string suf)); [by constructor|].
      apply (Regex.lang_seq _ _ [d2] (list_ascii_of_string suf)); [|done].
      apply Regex.lang_alt_l. by constructor.
Qed.

(** A tag or project pattern accepts the non-empty texts made of the
    characters of its class. *)
Lemma tagRegex_accepts (t : string) :
  Regex.test tagRegex t = true <->
  t <> "" /\ forallb tag_char (list_ascii_of_string t) = true.
Proof. apply PatternFacts.test_plus_class. Qed.

Lemma in_all_ascii (a : ascii) : In a all_ascii.
Proof.
  unfold all_ascii. apply in_map_iff. exists (nat_of_ascii a). split.
  - apply ascii_nat_embedding.
  - apply in_seq. pose proof (nat_ascii_bounded a). lia.
Qed.

(** ** The date grammar *)

Lemma classes_respect_step f a r :
  classes_respect f r = true -> Regex.deriv a r = Regex.deriv (f a) r.
Proof.
  induction r as [| |p|r1 IH1 r2 IH2|r1 IH1 r2 IH2|r1 IH1]; cbn [classes_respect Regex.deriv];
    intros H.
  - reflexivity.
  - reflexivity.
  - rewrite forallb_forall in H. pose proof (H a (in_all_ascii a)) as E.
    apply Bool.eqb_prop in E. by rewrite E.
  - apply andb_true_iff in H as [H1 H2]. by rewrite IH1, IH2.
  - apply andb_true_iff in H as [H1 H2]. by rewrite IH1, IH2.
  - by rewrite IH1.
Qed.

Lemma classes_respect_deriv f a r :
  classes_respect f r = true -> classes_respect f (Regex.deriv a r) = true.
Proof.
  induction r as [| |p|r1 IH1 r2 IH2|r1 IH1 r2 IH2|r1 IH1]; cbn [classes_respect Regex.deriv];
    intros H.
  - reflexivity.
  - reflexivity.
  - by destruct (p a).
  - apply andb_true_iff in H as [H1 H2].
    destruct (Regex.nullable r1); cbn [classes_respect]; rewrite IH1, ?IH2, ?H2; auto.
  - apply andb_true_iff in H as [H1 H2]. rewrite IH1, IH2; auto.
  - rewrite IH1; auto.
Qed.

Lemma classes_respect_matches f r w :
  classes_respect f r = true -> Regex.matches r (map f w) = Regex.matches r w.
Proof.
  revert r. induction w as [|a w IH]; intros r H; [reflexivity|].
  cbn [map Regex.matches]. rewrite <- (classes_respect_step f a r H).
  apply IH. by apply classes_respect_deriv.
Qed.

Lemma test_date_shape r v :
  classes_respect digit_mask r = true -> Regex.test r (date_shape v) = Regex.test r v.
Proof.
  intros H. unfold Regex.test, date_shape.
  rewrite list_ascii_of_string_of_list_ascii. by apply classes_respect_matches.
Qed.

Lemma accepted_date_shape v : accepted (date_shape v) = accepted v.
Proof.
  unfold accepted. by rewrite !test_date_shape by (vm_compute; reflexivity).
Qed.

Lemma words_accept (ws : list string) (v : string) :
  (forall s, In s ws -> lower s = s) ->
  Regex.test (words_i ws) v = true <-> In (lower v) ws.
Proof.
  intros Hlow. rewrite PatternFacts.test_lang, PatternFacts.lang_words_i. split.
  - intros (s & Hs & E). apply PatternFacts.lower_spec in E.
    by rewrite E, (Hlow s Hs).
  - intros Hin. exists (lower v). split; [done|].
    apply PatternFacts.lower_spec. by rewrite PatternFacts.lower_idemp.
Qed.

Lemma names_accept (v : string) :
  Regex.test specialDates v || Regex.test dayNames v || Regex.test monthNames v = true <->
  In (lower v) date_names.
Proof.
  assert (Hlow : forall ws, forallb (fun s => String.eqb (lower s) s) ws = true ->
                            forall s, In s ws -> lower s = s).
  { intros ws H s Hs. rewrite forallb_forall in H. by apply String.eqb_eq, H. }
  unfold specialDates, dayNames, monthNames.
  rewrite !orb_true_iff, !words_accept by (apply Hlow; vm_compute; reflexivity).
  change date_names with
    ([ "eom"; "eoq"; "eoy"; "som"; "soq"; "soy"; "today"; "tomorrow"; "yesterday"; "now" ] ++
     [ "monday"; "tuesday"; "wednesday"; "thursday"; "friday"; "saturday"; "sunday" ] ++
     [ "january"; "february"; "march"; "april"; "may"; "june"; "july"; "august";
       "september"; "october"; "november"; "december" ]).
  rewrite !in_app_iff. apply Logic.or_assoc.
Qed.

Lemma among_in (set : string) (c : ascii) :
  among set c = true <-> In c (list_ascii_of_string set).
Proof.
  unfold among. rewrite existsb_exists. split.
  - intros (x & Hx & E). by apply Ascii.eqb_eq in E as ->.
  - intros H. exists c. split; [done|]. apply Ascii.eqb_refl.
Qed.

Lemma relative_accepts (v : string) :
  Regex.test relativeRegex v = true <-> relative_date v.
Proof.
  rewrite PatternFacts.test_lang. unfold relativeRegex, relative_date, Cat. split.
  - intros H.
    apply RegexFacts.lang_seq_inv in H as (w1 & r1 & Hv & H1 & H).
    apply RegexFacts.lang_seq_inv in H as (w2 & r2 & -> & H2 & H).
    apply RegexFacts.lang_seq_inv in H as (w3 & r3 & -> & H3 & H).
    apply RegexFacts.lang_eps_inv in H as ->.
    apply RegexFacts.lang_class_inv in H1 as (sign & -> & Hs).
    apply RegexFacts.lang_class_inv in H3 as (unit & -> & Hu).
    apply PatternFacts.lang_plus_class in H2 as [Hne Hd].
    exists sign, (string_of_list_ascii w2), unit.
    rewrite list_ascii_of_string_of_list_ascii.
    split; [|split; [|split; [|split]]].
    + rewrite <- (string_of_list_ascii_of_string v), Hv. simpl.
      by rewrite string_of_list_app.
    + apply among_in in Hs. simpl in Hs. destruct Hs as [<-|[<-|[]]]; auto.
    + by destruct w2.
    + exact Hd.
    + by apply among_in.
  - intros (sign & ds & unit & -> & Hs & Hne & Hd & Hu).
    change (list_ascii_of_string (String sign (ds +:+ String unit "")))
      with ([ sign ] ++ list_ascii_of_string (ds +:+ String unit "")).
    rewrite list_ascii_of_append.
    constructor.
    + constructor. apply among_in. destruct Hs as [->| ->]; simpl; auto.
    + constructor.
      * apply PatternFacts.lang_plus_class. split; [by destruct ds|done].
      * change (list_ascii_of_string (String unit "")) with ([ unit ] ++ []).
        constructor; [|constructor]. constructor. by apply among_in.
Qed.

Lemma digit_mask_digit (a : ascii) : between "0" "9" a = true -> digit_mask a = "0"%char.
Proof. unfold digit_mask, is_digit. by intros ->. Qed.

Ltac split_word :=
  repeat match goal with
  | H : Regex.lang (Regex.Seq _ _) _ |- _ =>
      apply RegexFacts.lang_seq_inv in H as (? & ? & -> & ? & ?)
  | H : Regex.lang (Regex.Alt _ _) _ |- _ =>
      apply RegexFacts.lang_alt_inv in H as [?|?]
  | H : Regex.lang (Regex.Class _) _ |- _ =>
      apply RegexFacts.lang_class_inv in H as (? & -> & ?)
  | H : Regex.lang Regex.Eps _ |- _ =>
      apply RegexFacts.lang_eps_inv in H as ->
  end.

Ltac mask_chars :=
  repeat match goal with
  | H : between "0" "9" ?a = true |- _ => rewrite (digit_mask_digit a H); clear H
  | H : Ascii.eqb _ ?a = true |- _ => apply Ascii.eqb_eq in H; subst a
  | H : among _ ?a = true |- _ => apply among_in in H; destruct H as [<-|[<-|[]]]
  end.

Lemma iso_accepts (v : string) :
  Regex.test isoRegex v = true <-> In (date_shape v) iso_shapes.
Proof.
  split.
  - rewrite PatternFacts.test_lang. intros H.
    remember (list_ascii_of_string v) as w eqn:Ew.
    cbv [isoRegex Cat Regex.Rep Regex.Opt Regex.Chr digit] in H.
    split_word; unfold date_shape; rewrite <- Ew; cbn [map app]; mask_chars;
      vm_compute; repeat (first [left; reflexivity | right]).
  - intros H. rewrite <- test_date_shape by (vm_compute; reflexivity).
    simpl in H. repeat (destruct H as [<-|H]; [vm_compute; reflexivity|]). destruct H.
Qed.




(** ** Tokens of a command line *)

Lemma join_cons2 sep x y l : join sep (x :: y :: l) = x +:+ sep +:+ join sep (y :: l).
Proof. reflexivity. Qed.

Lemma join_has_token (tok : string) (toks : list string) (P : string) :
  In tok toks -> has_token tok (P +:+ " " +:+ join " " toks).
Proof.
  revert P. induction toks as [|x xs IH]; intros P Hin; [done|].
  destruct xs as [|y xs].
  - destruct Hin as [->|[]]. exists P, "". split; [|by left].
    simpl. by rewrite append_nil_r.
  - rewrite join_cons2. destruct Hin as [->|Hin].
    + exists P, (" " +:+ join " " (y :: xs)). split; [done|]. right. eauto.
    + destruct (IH (P +:+ " " +:+ x) Hin) as (pre & post & E & Hpost).
      exists pre, post. split; [|done].
      rewrite <- E. by rewrite !append_assoc.
Qed.

Lemma has_token_suffix (tok cmd rest : string) :
  has_token tok cmd -> has_token tok (cmd +:+ " " +:+ rest).
Proof.
  intros (pre & post & -> & Hpost). exists pre, (post +:+ " " +:+ rest). split.
  - by rewrite !append_assoc.
  - right. destruct Hpost as [->|[post' ->]].
    + by exists rest.
    + exists (post' +:+ " " +:+ rest). by rewrite !append_assoc.
Qed.

(** ** Date fields, from the raw request to the command line *)

Lemma truthy_some (v : string) : v <> "" -> truthy (Some v) = Some v.
Proof. by destruct v. Qed.

Lemma modify_date_field tk tm p m d fld v :
  modify_shape tk tm p m = Valid d ->
  In fld date_fields -> m !! fld = Some (RStr v) -> v <> "" ->
  truthy (date_of fld d) = Some v /\
  In v (present_dates d) /\
  In (fld +:+ ":" +:+ v) (modify_tokens d).
Proof.
  intros Hd Hfld Hm Hv.
  apply modify_shape_valid in Hd as (_ & _ & (Hdue & Hstart & Hwait & Huntil & Hsched) & _).
  assert (Hget : forall x : option string,
            m !! fld = RStr <$> x -> truthy x = Some v).
  { intros x Hx. rewrite Hm in Hx. destruct x as [s|]; simplify_eq/=.
    by apply truthy_some. }
  assert (Ht : truthy (date_of fld d) = Some v).
  { simpl in Hfld. destruct Hfld as [<-|[<-|[<-|[<-|[<-|[]]]]]];
      unfold date_of; simpl; by apply Hget. }
  split; [done|]. split.
  - unfold present_dates. apply in_flat_map. exists (date_of fld d). split.
    + simpl in Hfld. destruct Hfld as [<-|[<-|[<-|[<-|[<-|[]]]]]];
        unfold date_of; simpl; auto 6.
    + rewrite Ht. by left.
  - apply in_modify_tokens. unfold field_token.
    simpl in Hfld. destruct Hfld as [<-|[<-|[<-|[<-|[<-|[]]]]]];
      unfold date_of in Ht; simpl in Ht; eauto 12.
Qed.


Lemma modify_task_eq (m : gmap string raw) :
  modify_task (Some (RObj m)) =
  match modify_shape "identifier" "Task identifier cannot be empty" [] m with
  | Invalid issues => Err (InvalidArguments "modify_task" issues)
  | Valid d =>
      match first_rejected (present_dates d) with
      | Some w => Err (InvalidDateFormat (invalid_date_message w))
      | None =>
          Ok (exec ("task " +:+ escapeShellArg (target d) +:+ " modify " +:+
                    join " " (modify_tokens d)))
      end
  end.
Proof.
  unfold modify_task, safeParse, modifyTaskRequest, z_object.
  destruct (modify_shape _ _ [] m) as [d|issues]; simpl; [|done].
  rewrite buildTaskModifyArgs_eq. by destruct (first_rejected (present_dates d)).
Qed.

Lemma modify_tasks_bulk_eq (m : gmap string raw) :
  modify_tasks_bulk (Some (RObj m)) =
  match modify_shape "filter" "Filter cannot be empty" [] m with
  | Invalid issues => Err (InvalidArguments "modify_tasks_bulk" issues)
  | Valid d =>
      match first_rejected (present_dates d) with
      | Some w => Err (InvalidDateFormat (invalid_date_message w))
      | None =>
          Ok (exec_bash ("yes | task " +:+ target d +:+ " modify " +:+
                         join " " (modify_tokens d)))
      end
  end.
Proof.
  unfold modify_tasks_bulk, safeParse, modifyTasksBulkRequest, z_object.
  destruct (modify_shape _ _ [] m) as [d|issues]; simpl; [|done].
  rewrite buildTaskModifyArgs_eq. by destruct (first_rejected (present_dates d)).
Qed.

Lemma add_task_eq (args : option raw) :
  add_task args =
  match addTaskRequest [] args with
  | Invalid issues => Err (InvalidArguments "add_task" issues)
  | Valid d =>
      match truthy (add_due d) with
      | Some v =>
          if accepted v then Ok (exec ("task " +:+ join " " (add_tokens d)))
          else Err (InvalidDateFormat (invalid_date_message v))
      | None => Ok (exec ("task " +:+ join " " (add_tokens d)))
      end
  end.
Proof.
  unfold add_task, safeParse.
  destruct (addTaskRequest [] args) as [d|issues]; simpl; [|done].
  rewrite add_task_args_eq. destruct (truthy (add_due d)) as [v|]; [|done].
  by destruct (accepted v).
Qed.

(** What a request with the date value [v] in field [fld] leads to: the
    command of an accepted request, or the error thrown. *)
Lemma date_field_outcome tool fld m v :
  takes_date tool fld = true -> m !! fld = Some (RStr v) -> v <> "" ->
  match dispatch tool (Some (RObj m)) with
  | Ok inv => accepted v = true /\ has_token (fld +:+ ":" +:+ v) (command inv)
  | Err e =>
      (exists issues, e = InvalidArguments tool issues) \/
      (exists w, e = InvalidDateFormat (invalid_date_message w) /\ accepted w = false)
  end.
Proof.
  intros Htool Hm Hv. unfold takes_date in Htool.
  apply orb_true_iff in Htool as [Htool|Htool];
    apply andb_true_iff in Htool as [Ht Hf].
  - apply String.eqb_eq in Ht as ->. apply String.eqb_eq in Hf as ->.
    change (dispatch "add_task" (Some (RObj m))) with (add_task (Some (RObj m))).
    rewrite add_task_eq.
    destruct (addTaskRequest [] (Some (RObj m))) as [d|issues] eqn:Ed; [|eauto].
    apply add_shape_valid in Ed as (_ & Hdue & _).
    assert (Ht : truthy (add_due d) = Some v).
    { rewrite Hm in Hdue. destruct (add_due d) as [s|]; simplify_eq/=.
      by apply truthy_some. }
    assert (Hin : In ("due" +:+ ":" +:+ v) (add_tokens d)).
    { apply in_add_tokens. right. right. left. by exists v. }
    rewrite Ht. destruct (accepted v) eqn:Eacc; simpl.
    + split; [done|]. by apply (join_has_token _ _ "task").
    + right. eauto.
  - assert (Hfld : In fld date_fields).
    { apply existsb_exists in Hf as (x & Hx & E). by apply String.eqb_eq in E as ->. }
    apply orb_true_iff in Ht as [Ht|Ht]; apply String.eqb_eq in Ht as ->.
    + change (dispatch "modify_task" (Some (RObj m))) with (modify_task (Some (RObj m))).
      rewrite modify_task_eq.
      destruct (modify_shape _ _ [] m) as [d|issues] eqn:Ed; [|eauto].
      destruct (modify_date_field _ _ _ _ _ _ _ Ed Hfld Hm Hv) as (_ & Hin & Htok).
      destruct (first_rejected (present_dates d)) as [w|] eqn:Ew; simpl.
      * apply first_rejected_some in Ew as [_ Hw]. right. eauto.
      * split; [by apply (first_rejected_none _ _ Ew)|].
        apply (join_has_token _ _ ("task " +:+ escapeShellArg (target d) +:+ " modify"))
          in Htok.
        by rewrite !append_assoc in Htok.
    + change (dispatch "modify_tasks_bulk" (Some (RObj m)))
        with (modify_tasks_bulk (Some (RObj m))).
      rewrite modify_tasks_bulk_eq.
      destruct (modify_shape _ _ [] m) as [d|issues] eqn:Ed; [|eauto].
      destruct (modify_date_field _ _ _ _ _ _ _ Ed Hfld Hm Hv) as (_ & Hin & Htok).
      destruct (first_rejected (present_dates d)) as [w|] eqn:Ew; simpl.
      * apply first_rejected_some in Ew as [_ Hw]. right. eauto.
      * split; [by apply (first_rejected_none _ _ Ew)|].
        apply (join_has_token _ _ ("yes | task " +:+ target d +:+ " modify")) in Htok.
        by rewrite !append_assoc in Htok.
Qed.




(** ** Confirmation prompts *)




Lemma delete_task_ok (args : option raw) (inv : CommandInvocation) :
  delete_task args = Ok inv ->
  exists d,
    deleteTaskRequest [] args = Valid d /\
    inv = exec ("task rc.confirmation=no " +:+ identifier d +:+ " delete").
Proof.
  unfold delete_task, safeParse.
  destruct (deleteTaskRequest [] args) as [d|issues]; simpl; [|discriminate].
  intros [= <-]. by exists d.
Qed.

Lemma undo_last_ok (args : option raw) (inv : CommandInvocation) :
  undo_last args = Ok inv -> inv = exec "task rc.confirmation=no undo".
Proof.
  unfold undo_last, safeParse.
  destruct (undoLastRequest [] args) as [d|issues]; simpl; [|discriminate].
  by intros [= <-].
Qed.

(** C10.  [undo_last] with any argument object spawns exactly the command
    [task rc.confirmation=no undo], and [delete_task] with an identifier
    spawns exactly [task rc.confirmation=no <identifier> delete].  Every
    invocation that either tool spawns, whatever its arguments, begins with
    [task rc.confirmation=no]: the override stands right after the engine
    name, before the identifier and the command word. *)
Theorem delete_and_undo_disable_confirmation
    (execSync : CommandInvocation -> string + string) :
  (forall m : gmap string raw,
     dispatch "undo_last" (Some (RObj m)) = Ok (exec "task rc.confirmation=no undo") /\
     snd (CallTool execSync "undo_last" (Some (RObj m))) =
       [ exec "task rc.confirmation=no undo" ]) /\
  (forall (m : gmap string raw) (x : string),
     m !! "identifier" = Some (RStr x) ->
     dispatch "delete_task" (Some (RObj m)) =
       Ok (exec ("task rc.confirmation=no " +:+ x +:+ " delete")) /\
     snd (CallTool execSync "delete_task" (Some (RObj m))) =
       [ exec ("task rc.confirmation=no " +:+ x +:+ " delete") ]) /\
  (forall (tool : string) (args : option raw) (inv : CommandInvocation),
     tool = "delete_task" \/ tool = "undo_last" ->
     In inv (snd (CallTool execSync tool args)) ->
     exists rest,
       command inv = "task rc.confirmation=no " +:+ rest /\
       (tool = "undo_last" -> rest = "undo") /\
       (tool = "delete_task" -> exists d,
          deleteTaskRequest [] args = Valid d /\ rest = identifier d +:+ " delete")).
Proof.
  assert (Hspawn : forall tool args inv,
    dispatch tool args = Ok inv -> snd (CallTool execSync tool args) = [ inv ]).
  { intros tool args inv E. unfold CallTool. rewrite E. by destruct (execSync inv). }
  split; [|split].
  - intros m.
    assert (E : dispatch "undo_last" (Some (RObj m)) =
                Ok (exec "task rc.confirmation=no undo")) by reflexivity.
    split; [exact E|]. by apply Hspawn.
  - intros m x Hx.
    assert (E : dispatch "delete_task" (Some (RObj m)) =
                Ok (exec ("task rc.confirmation=no " +:+ x +:+ " delete"))).
    { change (dispatch "delete_task" (Some (RObj m))) with (delete_task (Some (RObj m))).
      unfold delete_task, safeParse, deleteTaskRequest, z_object, shape_ap, key,
        shape_pure. simpl. by rewrite Hx. }
    split; [exact E|]. by apply Hspawn.
  - intros tool args inv Htool. unfold CallTool. destruct Htool as [-> | ->].
    + change (dispatch "delete_task" args) with (delete_task args).
      destruct (delete_task args) as [inv'|e] eqn:E; [|intros []].
      apply delete_task_ok in E as (d & Hd & ->).
      destruct (execSync _); simpl; (intros [<-|[]]);
        exists (identifier d +:+ " delete"); (split; [done|split; [discriminate|eauto]]).
    + change (dispatch "undo_last" args) with (undo_last args).
      destruct (undo_last args) as [inv'|e] eqn:E; [|intros []].
      apply undo_last_ok in E as ->.
      destruct (execSync _); simpl; (intros [<-|[]]);
        exists "undo"; (split; [done|split; [done|discriminate]]).
Qed.

Lemma delete_and_undo_disable_confirmation_witness :
  let run : CommandInvocation -> string + string := fun _ => inl "" in
  let undo := exec "task rc.confirmation=no undo" in
  let m : gmap string raw := {[ "identifier" := RStr "5" ]} in
  m !! "identifier" = Some (RStr "5") /\
  snd (CallTool run "undo_last" (Some (RObj ∅))) = [ undo ] /\
  snd (CallTool run "delete_task" (Some (RObj m))) =
    [ exec "task rc.confirmation=no 5 delete" ] /\
  ("undo_last" = "delete_task" \/ "undo_last" = "undo_last") /\
  In undo (snd (CallTool run "undo_last" (Some (RObj ∅)))) /\
  exists rest,
    command undo = "task rc.confirmation=no " +:+ rest /\
    ("undo_last" = "undo_last" -> rest = "undo") /\
    ("undo_last" = "delete_task" -> exists d,
       deleteTaskRequest [] (Some (RObj ∅)) = Valid d /\
       rest = identifier d +:+ " delete").
Proof.
  intros run undo m.
  pose proof (delete_and_undo_disable_confirmation run) as (Hundo & Hdelete & Hall).
  assert (Hm : m !! "identifier" = Some (RStr "5")) by reflexivity.
  assert (Hin : In undo (snd (CallTool run "undo_last" (Some (RObj ∅))))).
  { left. reflexivity. }
  split; [exact Hm|]. split; [exact (proj2 (Hundo ∅))|].
  split; [exact (proj2 (Hdelete m "5" Hm))|].
  split; [by right|]. split; [exact Hin|].
  exact (Hall "undo_last" (Some (RObj ∅)) undo (or_intror eq_refl) Hin).
Defined.

(** ** The catalog *)

Lemma switch_some (name : string) (cs : list (string * Handler)) (body : Handler) :
  switch name cs = Some body -> In name (map fst cs).
Proof.
  induction cs as [|[label b] cs IH]; simpl; [discriminate|].
  destruct (String.eqb_spec name label) as [->|Hne]; [by left|].
  intros H. right. by apply IH.
Qed.

Lemma switch_in (name : string) (cs : list (string * Handler)) :
  In name (map fst cs) -> exists body, switch name cs = Some body.
Proof.
  induction cs as [|[label b] cs IH]; simpl; [done|].
  destruct (String.eqb_spec name label) as [->|Hne]; [eauto|].
  intros [E|Hin]; [congruence|by apply IH].
Qed.

Lemma handled_iff (name : string) : handled name = true <-> In name tool_names.
Proof.
  unfold handled. change tool_names with (map fst cases). split.
  - destruct (switch name cases) as [body|] eqn:E; [|discriminate].
    intros _. by apply switch_some in E.
  - intros Hin. by apply switch_in in Hin as [body ->].
Qed.

(** C9, as stated, fails: the catalog has 17 entries, not 18. *)
Lemma catalog_counterexample :
  List.length tools = 17%nat /\
  List.length cases = 17%nat /\
  List.length tools <> Spec.spec_operation_count.
Proof. repeat split. vm_compute. discriminate. Qed.

(** C9, amended.  The catalog is closed and holds exactly 17 operations:
    the tool list has 17 entries with 17 different names, the switch has a
    case for exactly those names, in the same order, and any other name
    ends in the [Unknown tool] error. *)
Theorem catalog_closed :
  List.length tools = 17%nat /\
  NoDup tool_names /\
  map fst cases = tool_names /\
  (forall name : string, handled name = true <-> In name tool_names) /\
  (forall (name : string) (args : option raw),
     ~ In name tool_names -> dispatch name args = Err (UnknownTool name)).
Proof.
  split; [reflexivity|]. split; [|split; [reflexivity|split]].
  - apply NoDup_ListNoDup. vm_compute.
    repeat (constructor; [by (intros H; repeat (destruct H as [H|H]; [discriminate|]))|]).
    constructor.
  - exact handled_iff.
  - intros name args Hnot. unfold dispatch.
    destruct (switch name cases) as [body|] eqn:E; [|done].
    apply switch_some in E. contradiction.
Qed.

Lemma catalog_closed_witness :
  ~ In "get_task" tool_names /\
  dispatch "get_task" (Some (RObj {[ "identifier" := RStr "1" ]})) =
    Err (UnknownTool "get_task").
Proof.
  assert (Hnot : ~ In "get_task" tool_names).
  { intros H. vm_compute in H. repeat (destruct H as [H|H]; [discriminate|]). exact H. }
  split; [exact Hnot|].
  exact (proj2 (proj2 (proj2 (proj2 catalog_closed))) "get_task" _ Hnot).
Defined.

(** ** Empty required fields *)

(** C3.  The code at the failing inputs: an empty [identifier] passes the
    schemas of [mark_task_done], [get_task_info], [delete_task],
    [annotate_task], [append_task], [prepend_task] and [duplicate_task], and
    an empty [description] passes the schema of [add_task]; each request is
    run as a command with an empty token.  Only [modify_task] and
    [modify_tasks_bulk] reject the empty string, with the [min(1)] rule. *)
Theorem empty_required_text_runs :
  let ident (v : string) : option raw := Some (RObj {[ "identifier" := RStr v ]}) in
  let with_text (k : string) : option raw :=
    Some (RObj (<[ k := RStr "note" ]> {[ "identifier" := RStr "" ]})) in
  dispatch "mark_task_done" (ident "") = Ok (exec "task  done") /\
  dispatch "get_task_info" (ident "") = Ok (exec "task  info") /\
  dispatch "delete_task" (ident "") = Ok (exec "task rc.confirmation=no  delete") /\
  dispatch "duplicate_task" (ident "") = Ok (exec "task  duplicate") /\
  dispatch "annotate_task" (with_text "annotation") = Ok (exec "task  annotate 'note'") /\
  dispatch "append_task" (with_text "text") = Ok (exec "task  append 'note'") /\
  dispatch "prepend_task" (with_text "text") = Ok (exec "task  prepend 'note'") /\
  dispatch "add_task" (Some (RObj {[ "description" := RStr "" ]})) =
    Ok (exec "task add ''") /\
  (forall execSync,
     snd (CallTool execSync "delete_task" (ident "")) =
       [ exec "task rc.confirmation=no  delete" ]) /\
  dispatch "modify_task" (ident "") =
    Err (InvalidArguments "modify_task"
           [ mkIssue too_small [ PKey "identifier" ]
               (Some "Task identifier cannot be empty") ]) /\
  dispatch "modify_tasks_bulk" (Some (RObj {[ "filter" := RStr "" ]})) =
    Err (InvalidArguments "modify_tasks_bulk"
           [ mkIssue too_small [ PKey "filter" ] (Some "Filter cannot be empty") ]).
Proof.
  intros ident with_text.
  repeat split; try (vm_compute; reflexivity).
  intros execSync. unfold CallTool.
  assert (E : dispatch "delete_task" (ident "") =
              Ok (exec "task rc.confirmation=no  delete")) by reflexivity.
  rewrite E. by destruct (execSync (exec "task rc.confirmation=no  delete")).
Qed.

(** ** Identifiers and filters *)

Lemma identifier_shape_valid (m : gmap string raw) (x : string) :
  m !! "identifier" = Some (RStr x) ->
  (shape_pure mkIdentifier <&> key "identifier" z_string) [] m = Valid (mkIdentifier x).
Proof. intros Hm. unfold shape_ap, key, shape_pure. simpl. by rewrite Hm. Qed.

Lemma annotate_shape_valid (m : gmap string raw) (x : string) (d : AnnotateData) :
  m !! "identifier" = Some (RStr x) ->
  annotateTaskRequest [] (Some (RObj m)) = Valid d -> ann_identifier d = x.
Proof.
  intros Hm H. unfold annotateTaskRequest, z_object in H. invert_shape H.
  unfold key in *. simpl app in *. rewrite Hm in Ha0. simpl in *. congruence.
Qed.

Lemma text_shape_valid (m : gmap string raw) (x : string) (d : TextData) :
  m !! "identifier" = Some (RStr x) ->
  appendTaskRequest [] (Some (RObj m)) = Valid d -> txt_identifier d = x.
Proof.
  intros Hm H. unfold appendTaskRequest, z_object in H. invert_shape H.
  unfold key in *. simpl app in *. rewrite Hm in Ha0. simpl in *. congruence.
Qed.

Lemma target_inserted tool k head verb (m : gmap string raw) (x : string)
    (inv : CommandInvocation) :
  In (tool, (k, head, verb)) target_table ->
  m !! k = Some (RStr x) ->
  dispatch tool (Some (RObj m)) = Ok inv ->
  exists tail,
    command inv = head +:+ target_token tool x +:+ " " +:+ verb +:+ tail /\
    (tail = "" \/ exists tail', tail = " " +:+ tail').
Proof.
  intros Hin Hm. simpl in Hin.
  destruct Hin as [E|[E|[E|[E|[E|[E|[E|[E|[E|[]]]]]]]]]]; injection E as <- <- <- <-.
  - change (dispatch "mark_task_done" (Some (RObj m))) with (mark_task_done (Some (RObj m))).
    unfold mark_task_done, safeParse, markTaskDoneRequest, z_object.
    rewrite (identifier_shape_valid m x Hm). simpl. intros [= <-]. exists ""; split; [done|by left].
  - change (dispatch "modify_task" (Some (RObj m))) with (modify_task (Some (RObj m))).
    rewrite modify_task_eq.
    destruct (modify_shape _ _ [] m) as [d|issues] eqn:Ed; [|discriminate].
    apply modify_shape_valid in Ed as ((Hid & _) & _). rewrite Hm in Hid.
    injection Hid as ->.
    destruct (first_rejected (present_dates d)); [discriminate|]. intros [= <-].
    exists (" " +:+ join " " (modify_tokens d)); split; [done|right; eauto].
  - change (dispatch "modify_tasks_bulk" (Some (RObj m)))
      with (modify_tasks_bulk (Some (RObj m))).
    rewrite modify_tasks_bulk_eq.
    destruct (modify_shape _ _ [] m) as [d|issues] eqn:Ed; [|discriminate].
    apply modify_shape_valid in Ed as ((Hid & _) & _). rewrite Hm in Hid.
    injection Hid as ->.
    destruct (first_rejected (present_dates d)); [discriminate|]. intros [= <-].
    exists (" " +:+ join " " (modify_tokens d)); split; [done|right; eauto].
  - change (dispatch "get_task_info" (Some (RObj m))) with (get_task_info (Some (RObj m))).
    unfold get_task_info, safeParse, getTaskInfoRequest, z_object.
    rewrite (identifier_shape_valid m x Hm). simpl. intros [= <-]. exists ""; split; [done|by left].
  - change (dispatch "delete_task" (Some (RObj m))) with (delete_task (Some (RObj m))).
    unfold delete_task, safeParse, deleteTaskRequest, z_object.
    rewrite (identifier_shape_valid m x Hm). simpl. intros [= <-]. exists ""; split; [done|by left].
  - change (dispatch "annotate_task" (Some (RObj m))) with (annotate_task (Some (RObj m))).
    unfold annotate_task, safeParse.
    destruct (annotateTaskRequest [] (Some (RObj m))) as [d|issues] eqn:Ed;
      [|discriminate].
    apply (annotate_shape_valid m x d Hm) in Ed as <-. simpl. intros [= <-].
    exists (" " +:+ escapeShellArg (annotation d)); split; [done|right; eauto].
  - change (dispatch "append_task" (Some (RObj m))) with (append_task (Some (RObj m))).
    unfold append_task, safeParse.
    destruct (appendTaskRequest [] (Some (RObj m))) as [d|issues] eqn:Ed; [|discriminate].
    apply (text_shape_valid m x d Hm) in Ed as <-. simpl. intros [= <-].
    exists (" " +:+ escapeShellArg (text d)); split; [done|right; eauto].
  - change (dispatch "prepend_task" (Some (RObj m))) with (prepend_task (Some (RObj m))).
    unfold prepend_task, safeParse.
    destruct (prependTaskRequest [] (Some (RObj m))) as [d|issues] eqn:Ed; [|discriminate].
    apply (text_shape_valid m x d Hm) in Ed as <-. simpl. intros [= <-].
    exists (" " +:+ escapeShellArg (text d)); split; [done|right; eauto].
  - change (dispatch "duplicate_task" (Some (RObj m))) with (duplicate_task (Some (RObj m))).
    unfold duplicate_task, safeParse, duplicateTaskRequest, z_object.
    rewrite (identifier_shape_valid m x Hm). simpl. intros [= <-]. exists ""; split; [done|by left].
Qed.

(** C4, as stated, fails for [modify_task]: the identifier [a'b] passes the
    schema, and the command line holds its escaped form, in which the
    text [a'b] does not occur. *)
Lemma identifier_counterexample :
  dispatch "modify_task" (Some (RObj {[ "identifier" := RStr "a'b" ]})) =
    Ok (exec "task 'a'\''b' modify ") /\
  ~ occurs_in "a'b" "task 'a'\''b' modify ".
Proof.
  split; [reflexivity|].
  intros H. apply contains_spec in H. vm_compute in H. discriminate.
Qed.

(** C4, amended.  For every accepted request of a tool that takes an
    identifier or a filter, the command line is the head of the tool, the
    target token, a space, the command word and the rest (empty or starting
    with a space).  The target token is the supplied text as it is for
    [mark_task_done], [get_task_info], [delete_task], [annotate_task],
    [append_task], [prepend_task], [duplicate_task] and the filter of
    [modify_tasks_bulk]; for [modify_task] it is the shell-escaped
    identifier. *)
Theorem target_text_on_command_line
    (tool k head verb : string) (m : gmap string raw) (x : string)
    (inv : CommandInvocation) :
  In (tool, (k, head, verb)) target_table ->
  m !! k = Some (RStr x) ->
  dispatch tool (Some (RObj m)) = Ok inv ->
  (exists tail,
     command inv = head +:+ target_token tool x +:+ " " +:+ verb +:+ tail /\
     (tail = "" \/ exists tail', tail = " " +:+ tail')) /\
  (tool <> "modify_task" -> target_token tool x = x) /\
  (tool = "modify_task" -> target_token tool x = escapeShellArg x).
Proof.
  intros Hin Hm Hinv. split; [by eapply target_inserted|].
  unfold target_token. split.
  - intros Hne. apply String.eqb_neq in Hne. by rewrite Hne.
  - by intros ->.
Qed.

Lemma target_text_on_command_line_witness :
  let m : gmap string raw :=
    <[ "annotation" := RStr "call back" ]> {[ "identifier" := RStr "12" ]} in
  let inv := exec "task 12 annotate 'call back'" in
  In ("annotate_task", ("identifier", "task ", "annotate")) target_table /\
  m !! "identifier" = Some (RStr "12") /\
  dispatch "annotate_task" (Some (RObj m)) = Ok inv /\
  (exists tail,
     command inv = "task " +:+ target_token "annotate_task" "12" +:+ " " +:+
                   "annotate" +:+ tail /\
     (tail = "" \/ exists tail', tail = " " +:+ tail')) /\
  ("annotate_task" <> "modify_task" -> target_token "annotate_task" "12" = "12") /\
  ("annotate_task" = "modify_task" ->
     target_token "annotate_task" "12" = escapeShellArg "12").
Proof.
  intros m inv.
  assert (Hin : In ("annotate_task", ("identifier", "task ", "annotate")) target_table).
  { simpl. tauto. }
  split; [exact Hin|]. split; [reflexivity|]. split; [reflexivity|].
  exact (target_text_on_command_line "annotate_task" "identifier" "task " "annotate"
           m "12" inv Hin eq_refl eq_refl).
Defined.

(** ** Tags *)

Lemma opt_tags_valid msg p v (o : option (list string)) :
  opt_tags msg p v = Valid o <->
  v = (fun l => RArr (map RStr l)) <$> o /\
  (forall l, o = Some l -> forallb (Regex.test tagRegex) l = true).
Proof. apply optional_array_str, z_string_regex_str. Qed.

Lemma opt_tags_rejects msg p (l : list raw) (t : string) :
  In (RStr t) l -> Regex.test tagRegex t = false ->
  exists issues, opt_tags msg p (Some (RArr l)) = Invalid issues.
Proof.
  intros Hin Ht. destruct (opt_tags msg p (Some (RArr l))) as [o|issues] eqn:E; [|eauto].
  apply opt_tags_valid in E as [Hv Hall]. destruct o as [xs|]; [|discriminate].
  injection Hv as ->. apply in_map_iff in Hin as (x & [= ->] & Hx).
  pose proof (Hall xs eq_refl) as H. rewrite forallb_forall in H.
  apply H in Hx. congruence.
Qed.

Lemma shape_invalid_l {A B : Type} (sh : Shape (A -> B)) (fld : Shape A) p m :
  (exists i, sh p m = Invalid i) -> exists j, (sh <&> fld) p m = Invalid j.
Proof. intros [i H]. by eapply shape_ap_invalid_l. Qed.

Lemma shape_invalid_r {A B : Type} (sh : Shape (A -> B)) (fld : Shape A) p m :
  (exists i, fld p m = Invalid i) -> exists j, (sh <&> fld) p m = Invalid j.
Proof. intros [i H]. by eapply shape_ap_invalid_r. Qed.

Lemma key_tags_rejects k msg (m : gmap string raw) (l : list raw) (t : string) :
  m !! k = Some (RArr l) -> In (RStr t) l -> Regex.test tagRegex t = false ->
  exists issues, key k (opt_tags msg) [] m = Invalid issues.
Proof. intros Hm Hin Ht. unfold key. rewrite Hm. by eapply opt_tags_rejects. Qed.

(** Finds the failing key in a shape. *)
Ltac find_invalid H :=
  repeat first [ apply shape_invalid_r; exact H | apply shape_invalid_l ].

Lemma bad_tag_rejected tool k (m : gmap string raw) (l : list raw) (t : string) :
  In (tool, k) tag_fields ->
  m !! k = Some (RArr l) -> In (RStr t) l -> Regex.test tagRegex t = false ->
  exists issues, dispatch tool (Some (RObj m)) = Err (InvalidArguments tool issues).
Proof.
  intros Hin Hm Hl Ht.
  pose proof (fun msg => key_tags_rejects k msg m l t Hm Hl Ht) as Hkey.
  simpl in Hin.
  destruct Hin as [E|[E|[E|[E|[E|[E|[E|[E|[E|[E|[]]]]]]]]]]]; injection E as <- <-.
  - change (dispatch "get_next_tasks" (Some (RObj m)))
      with (get_next_tasks (Some (RObj m))).
    unfold get_next_tasks, safeParse, listPendingTasksRequest, z_object.
    match goal with |- context [match ?sh [] m with _ => _ end] =>
      assert (Hs : exists j, sh [] m = Invalid j) by find_invalid (Hkey None) end.
    destruct Hs as [j ->]. simpl. eauto.
  - change (dispatch "add_task" (Some (RObj m))) with (add_task (Some (RObj m))).
    unfold add_task, safeParse, addTaskRequest, z_object.
    match goal with |- context [match ?sh [] m with _ => _ end] =>
      assert (Hs : exists j, sh [] m = Invalid j) by find_invalid (Hkey None) end.
    destruct Hs as [j ->]. simpl. eauto.
  - change (dispatch "modify_task" (Some (RObj m))) with (modify_task (Some (RObj m))).
    rewrite modify_task_eq.
    assert (Hs : exists j, modify_shape "identifier" "Task identifier cannot be empty" [] m
                           = Invalid j) by find_invalid (Hkey (Some tag_msg)).
    destruct Hs as [j ->]. eauto.
  - change (dispatch "modify_task" (Some (RObj m))) with (modify_task (Some (RObj m))).
    rewrite modify_task_eq.
    assert (Hs : exists j, modify_shape "identifier" "Task identifier cannot be empty" [] m
                           = Invalid j) by find_invalid (Hkey (Some tag_msg)).
    destruct Hs as [j ->]. eauto.
  - change (dispatch "modify_tasks_bulk" (Some (RObj m)))
      with (modify_tasks_bulk (Some (RObj m))).
    rewrite modify_tasks_bulk_eq.
    assert (Hs : exists j, modify_shape "filter" "Filter cannot be empty" [] m = Invalid j)
      by find_invalid (Hkey (Some tag_msg)).
    destruct Hs as [j ->]. eauto.
  - change (dispatch "modify_tasks_bulk" (Some (RObj m)))
      with (modify_tasks_bulk (Some (RObj m))).
    rewrite modify_tasks_bulk_eq.
    assert (Hs : exists j, modify_shape "filter" "Filter cannot be empty" [] m = Invalid j)
      by find_invalid (Hkey (Some tag_msg)).
    destruct Hs as [j ->]. eauto.
  - change (dispatch "count_tasks" (Some (RObj m))) with (count_tasks (Some (RObj m))).
    unfold count_tasks, safeParse, countTasksRequest, z_object.
    match goal with |- context [match ?sh [] m with _ => _ end] =>
      assert (Hs : exists j, sh [] m = Invalid j) by find_invalid (Hkey None) end.
    destruct Hs as [j ->]. simpl. eauto.
  - change (dispatch "list_tasks_filtered" (Some (RObj m)))
      with (list_tasks_filtered (Some (RObj m))).
    unfold list_tasks_filtered, safeParse, listTasksFilteredRequest, z_object.
    match goal with |- context [match ?sh [] m with _ => _ end] =>
      assert (Hs : exists j, sh [] m = Invalid j) by find_invalid (Hkey None) end.
    destruct Hs as [j ->]. simpl. eauto.
  - change (dispatch "builtin_report" (Some (RObj m)))
      with (builtin_report (Some (RObj m))).
    unfold builtin_report, safeParse, builtinReportRequest, z_object.
    match goal with |- context [match ?sh [] m with _ => _ end] =>
      assert (Hs : exists j, sh [] m = Invalid j) by find_invalid (Hkey None) end.
    destruct Hs as [j ->]. simpl. eauto.
  - change (dispatch "visualization_report" (Some (RObj m)))
      with (visualization_report (Some (RObj m))).
    unfold visualization_report, safeParse, visualizationReportRequest, z_object.
    match goal with |- context [match ?sh [] m with _ => _ end] =>
      assert (Hs : exists j, sh [] m = Invalid j) by find_invalid (Hkey None) end.
    destruct Hs as [j ->]. simpl. eauto.
Qed.

Lemma tag_char_not_upper (c : ascii) : between "A" "Z" c = true -> tag_char c = false.
Proof. destruct c as [[] [] [] [] [] [] [] []]; vm_compute; congruence. Qed.

Lemma uppercase_tag_rejected (t : string) (c : ascii) :
  In c (list_ascii_of_string t) -> between "A" "Z" c = true ->
  Regex.test tagRegex t = false.
Proof.
  intros Hin Hc. destruct (Regex.test tagRegex t) eqn:E; [|done].
  apply tagRegex_accepts in E as [_ Hall]. rewrite forallb_forall in Hall.
  apply Hall in Hin. apply tag_char_not_upper in Hc. congruence.
Qed.

(** C7, as stated, fails: the tag [Work] matches [[@A-Za-z0-9_-]+], and the
    schemas reject it. *)
Lemma tag_counterexample :
  Regex.test Spec.spec_tag "Work" = true /\
  Regex.test tagRegex "Work" = false /\
  dispatch "modify_task"
    (Some (RObj (<[ "tags" := RArr [ RStr "Work" ] ]> {[ "identifier" := RStr "1" ]}))) =
    Err (InvalidArguments "modify_task"
           [ mkIssue invalid_string [ PKey "tags"; PIndex 0 ] (Some tag_msg) ]).
Proof. repeat split; vm_compute; reflexivity. Qed.

(** C7, amended.  Validation accepts a tag exactly when it matches
    [[@a-z0-9_-]+], lower case only: the pattern accepts the non-empty
    texts over [@], [a-z], [0-9], [_] and [-]; a tags field is valid exactly
    when it is absent or an array of such texts; a tag with an uppercase
    letter fails the pattern; and a request with a failing tag in a [tags]
    or [tags_remove] field is rejected by the schema of every tool that has
    the field. *)
Theorem tags_lowercase_only :
  (forall t : string,
     Regex.test tagRegex t = true <->
     t <> "" /\ forallb tag_char (list_ascii_of_string t) = true) /\
  (forall msg p v (o : option (list string)),
     opt_tags msg p v = Valid o <->
     v = (fun l => RArr (map RStr l)) <$> o /\
     (forall l, o = Some l -> forallb (Regex.test tagRegex) l = true)) /\
  (forall (t : string) (c : ascii),
     In c (list_ascii_of_string t) -> between "A" "Z" c = true ->
     Regex.test tagRegex t = false) /\
  (forall tool k (m : gmap string raw) (l : list raw) (t : string),
     In (tool, k) tag_fields ->
     m !! k = Some (RArr l) -> In (RStr t) l -> Regex.test tagRegex t = false ->
     exists issues, dispatch tool (Some (RObj m)) = Err (InvalidArguments tool issues)).
Proof.
  split; [exact tagRegex_accepts|]. split; [exact opt_tags_valid|].
  split; [exact uppercase_tag_rejected|exact bad_tag_rejected].
Qed.

Lemma tags_lowercase_only_witness :
  let m : gmap string raw := {[ "tags" := RArr [ RStr "home"; RStr "Work" ] ]} in
  In ("count_tasks", "tags") tag_fields /\
  m !! "tags" = Some (RArr [ RStr "home"; RStr "Work" ]) /\
  In (RStr "Work") [ RStr "home"; RStr "Work" ] /\
  Regex.test tagRegex "Work" = false /\
  exists issues,
    dispatch "count_tasks" (Some (RObj m)) = Err (InvalidArguments "count_tasks" issues).
Proof.
  intros m.
  assert (H1 : In ("count_tasks", "tags") tag_fields) by (simpl; tauto).
  assert (H3 : In (RStr "Work") [ RStr "home"; RStr "Work" ]) by (simpl; tauto).
  split; [exact H1|]. split; [reflexivity|]. split; [exact H3|]. split; [reflexivity|].
  exact (proj2 (proj2 (proj2 tags_lowercase_only)) "count_tasks" "tags" m _ "Work"
           H1 eq_refl H3 eq_refl).
Defined.

(** ** Constrained fields, from the raw request to the command line *)

Lemma has_token_between (tok : string) (toks : list string) (P S : string) :
  In tok toks -> has_token tok (P +:+ " " +:+ join " " toks +:+ " " +:+ S).
Proof.
  intros Hin. apply (join_has_token _ _ P) in Hin.
  apply (has_token_suffix _ _ S) in Hin. by rewrite !append_assoc in Hin.
Qed.

Lemma project_key_valid msg p (m : gmap string raw) (o : option string) (x : string) :
  key "project" (opt_project msg) p m = Valid o ->
  m !! "project" = Some (RStr x) -> truthy o = Some x.
Proof.
  unfold key, opt_project. intros H Hm.
  apply (optional_str _ _ _ _ _ (z_string_regex_str _ _)) in H as [Hv Hok].
  rewrite Hm in Hv. destruct o as [s|]; simplify_eq/=.
  pose proof (Hok s eq_refl) as Hs. apply PatternFacts.test_plus_class in Hs as [Hne _].
  by destruct s.
Qed.

Lemma priority_key_valid p (m : gmap string raw) (o : option string) (x : string) :
  key "priority" opt_priority p m = Valid o ->
  m !! "priority" = Some (RStr x) -> truthy o = Some x.
Proof.
  unfold key, opt_priority. intros H Hm.
  apply (optional_str _ _ _ _ _ (z_enum_str _)) in H as [Hv Hok].
  rewrite Hm in Hv. destruct o as [s|]; simplify_eq/=.
  pose proof (Hok s eq_refl) as Hs. by destruct s.
Qed.

Lemma tags_key_valid k msg p (m : gmap string raw) (o : option (list string))
    (l : list raw) (t : string) :
  key k (opt_tags msg) p m = Valid o ->
  m !! k = Some (RArr l) -> In (RStr t) l ->
  exists xs, o = Some xs /\ In t xs.
Proof.
  unfold key. intros H Hm Hin. apply opt_tags_valid in H as [Hv _].
  rewrite Hm in Hv. destruct o as [xs|]; simplify_eq/=.
  apply in_map_iff in Hin as (x & [= ->] & Hx). eauto.
Qed.

Lemma push_field_token name o x args :
  truthy o = Some x -> In (name +:+ ":" +:+ x) (push_field name o args).
Proof. intros H. apply in_push_field. right. by exists x. Qed.

Lemma push_each_token f o xs x args :
  o = Some xs -> In x xs -> In (f x) (push_each f o args).
Proof. intros H Hx. apply in_push_each. right. by exists xs, x. Qed.

Lemma push_field_keeps name o args t : In t args -> In t (push_field name o args).
Proof. intros H. apply in_push_field. by left. Qed.

Lemma push_each_keeps f o args t : In t args -> In t (push_each f o args).
Proof. intros H. apply in_push_each. by left. Qed.

(** Finds a token in an array built by pushes. *)
Ltac find_token :=
  repeat first
    [ by eapply push_field_token
    | by eapply push_each_token
    | apply push_field_keeps
    | apply push_each_keeps ].

Lemma get_next_tasks_carries (m : gmap string raw) (inv : CommandInvocation) :
  get_next_tasks (Some (RObj m)) = Ok inv -> carries false false false m (command inv).
Proof.
  unfold get_next_tasks, safeParse.
  destruct (listPendingTasksRequest [] (Some (RObj m))) as [d|issues] eqn:Ed;
    [|discriminate].
  simpl. intros [= <-]. unfold listPendingTasksRequest, z_object in Ed. invert_shape Ed.
  simpl. unfold carries, shown. repeat split; try (intros [=]).
  - intros p Hp. apply (has_token_between _ _ "task limit:" "next").
    pose proof (project_key_valid _ _ _ _ _ Ha0 Hp). unfold get_next_tasks_args. simpl.
    change ("project:" +:+ p) with ("project" +:+ ":" +:+ p). find_token.
  - intros l t Hl Ht. apply (has_token_between _ _ "task limit:" "next").
    destruct (tags_key_valid _ _ _ _ _ _ _ Ha Hl Ht) as (xs & Hxs & Hx).
    unfold get_next_tasks_args. simpl.
    change ("+" +:+ t) with (plus_tag t). find_token.
Qed.

Lemma filter_args_tokens status project priority tags :
  (forall p, truthy project = Some p ->
     In ("project:" +:+ p) (filter_args status project priority tags)) /\
  (forall p, truthy priority = Some p ->
     In ("priority:" +:+ p) (filter_args status project priority tags)) /\
  (forall xs t, tags = Some xs -> In t xs ->
     In ("+" +:+ t) (filter_args status project priority tags)).
Proof.
  unfold filter_args. repeat split.
  - intros p Hp. change ("project:" +:+ p) with ("project" +:+ ":" +:+ p). find_token.
  - intros p Hp. change ("priority:" +:+ p) with ("priority" +:+ ":" +:+ p). find_token.
  - intros xs t Hxs Ht. change ("+" +:+ t) with (plus_tag t). find_token.
Qed.

Lemma count_tasks_carries (m : gmap string raw) (inv : CommandInvocation) :
  count_tasks (Some (RObj m)) = Ok inv -> carries false true false m (command inv).
Proof.
  unfold count_tasks, safeParse.
  destruct (countTasksRequest [] (Some (RObj m))) as [d|issues] eqn:Ed; [|discriminate].
  simpl. intros [= <-]. unfold countTasksRequest, z_object in Ed. invert_shape Ed.
  simpl.
  destruct (filter_args_tokens a2 a1 a a0) as (Hproj & Hprio & Htags).
  unfold carries, shown. repeat split; try (intros [=]).
  - intros p Hp. apply (has_token_between _ _ "task" "count").
    apply Hproj. by eapply project_key_valid.
  - intros l t Hl Ht. apply (has_token_between _ _ "task" "count").
    destruct (tags_key_valid _ _ _ _ _ _ _ Ha0 Hl Ht) as (xs & Hxs & Hx). by eapply Htags.
  - intros p Hp. apply (has_token_between _ _ "task" "count").
    apply Hprio. by eapply priority_key_valid.
Qed.

Lemma list_tasks_filtered_carries (m : gmap string raw) (inv : CommandInvocation) :
  list_tasks_filtered (Some (RObj m)) = Ok inv -> carries false true false m (command inv).
Proof.
  unfold list_tasks_filtered, safeParse.
  destruct (listTasksFilteredRequest [] (Some (RObj m))) as [d|issues] eqn:Ed;
    [|discriminate].
  simpl. intros [= <-]. unfold listTasksFilteredRequest, z_object in Ed. invert_shape Ed.
  simpl.
  destruct (filter_args_tokens a3 a2 a0 a1) as (Hproj & Hprio & Htags).
  set (report := match truthy a with Some r => r | None => "list" end).
  unfold carries, shown. repeat split; try (intros [=]).
  - intros p Hp. apply (has_token_between _ _ "task" report).
    apply Hproj. by eapply project_key_valid.
  - intros l t Hl Ht. apply (has_token_between _ _ "task" report).
    destruct (tags_key_valid _ _ _ _ _ _ _ Ha1 Hl Ht) as (xs & Hxs & Hx). by eapply Htags.
  - intros p Hp. apply (has_token_between _ _ "task" report).
    apply Hprio. by eapply priority_key_valid.
Qed.

Lemma builtin_report_carries (m : gmap string raw) (inv : CommandInvocation) :
  builtin_report (Some (RObj m)) = Ok inv -> carries false true false m (command inv).
Proof.
  unfold builtin_report, safeParse.
  destruct (builtinReportRequest [] (Some (RObj m))) as [d|issues] eqn:Ed; [|discriminate].
  simpl. intros [= <-]. unfold builtinReportRequest, z_object in Ed. invert_shape Ed.
  simpl. unfold carries, shown, builtin_report_args. simpl. repeat split; try (intros [=]).
  - intros p Hp. apply (has_token_between _ _ "task" a2).
    pose proof (project_key_valid _ _ _ _ _ Ha1 Hp).
    change ("project:" +:+ p) with ("project" +:+ ":" +:+ p). find_token.
  - intros l t Hl Ht. apply (has_token_between _ _ "task" a2).
    destruct (tags_key_valid _ _ _ _ _ _ _ Ha0 Hl Ht) as (xs & Hxs & Hx).
    change ("+" +:+ t) with (plus_tag t). find_token.
  - intros p Hp. apply (has_token_between _ _ "task" a2).
    pose proof (priority_key_valid _ _ _ _ Ha Hp).
    change ("priority:" +:+ p) with ("priority" +:+ ":" +:+ p). find_token.
Qed.

Lemma visualization_report_carries (m : gmap string raw) (inv : CommandInvocation) :
  visualization_report (Some (RObj m)) = Ok inv ->
  carries false false false m (command inv).
Proof.
  unfold visualization_report, safeParse.
  destruct (visualizationReportRequest [] (Some (RObj m))) as [d|issues] eqn:Ed;
    [|discriminate].
  simpl. intros [= <-]. unfold visualizationReportRequest, z_object in Ed.
  invert_shape Ed.
  simpl. unfold carries, shown, visualization_report_args. simpl.
  repeat split; try (intros [=]).
  - intros p Hp. apply (has_token_between _ _ "task" a1).
    pose proof (project_key_valid _ _ _ _ _ Ha0 Hp).
    change ("project:" +:+ p) with ("project" +:+ ":" +:+ p). find_token.
  - intros l t Hl Ht. apply (has_token_between _ _ "task" a1).
    destruct (tags_key_valid _ _ _ _ _ _ _ Ha Hl Ht) as (xs & Hxs & Hx).
    change ("+" +:+ t) with (plus_tag t). find_token.
Qed.

Lemma modify_shape_tokens tk tm (m : gmap string raw) (d : ModifyData) :
  modify_shape tk tm [] m = Valid d ->
  (forall p, m !! "project" = Some (RStr p) -> In ("project:" +:+ p) (modify_tokens d)) /\
  (forall l t, m !! "tags" = Some (RArr l) -> In (RStr t) l ->
     In ("+" +:+ t) (modify_tokens d)) /\
  (forall p, m !! "priority" = Some (RStr p) -> In ("priority:" +:+ p) (modify_tokens d)) /\
  (forall l t, m !! "tags_remove" = Some (RArr l) -> In (RStr t) l ->
     In ("-" +:+ t) (modify_tokens d)).
Proof.
  intros Ed. unfold modify_shape in Ed. invert_shape Ed. repeat split.
  - intros p Hp. pose proof (project_key_valid _ _ _ _ _ Ha3 Hp) as H.
    apply in_modify_tokens. do 8 right. left. by exists p.
  - intros l t Hl Ht.
    destruct (tags_key_valid _ _ _ _ _ _ _ Ha1 Hl Ht) as (xs & Hxs & Hx).
    apply in_modify_tokens. do 10 right. left. by exists xs, t.
  - intros p Hp. pose proof (priority_key_valid _ _ _ _ Ha4 Hp) as H.
    apply in_modify_tokens. do 2 right. left. by exists p.
  - intros l t Hl Ht.
    destruct (tags_key_valid _ _ _ _ _ _ _ Ha0 Hl Ht) as (xs & Hxs & Hx).
    apply in_modify_tokens. do 11 right. left. by exists xs, t.
Qed.

Lemma modify_task_carries (m : gmap string raw) (inv : CommandInvocation) :
  modify_task (Some (RObj m)) = Ok inv -> carries false true true m (command inv).
Proof.
  rewrite modify_task_eq.
  destruct (modify_shape _ _ [] m) as [d|issues] eqn:Ed; [|discriminate].
  destruct (first_rejected (present_dates d)); [discriminate|]. intros [= <-].
  apply modify_shape_tokens in Ed as (Hproj & Htags & Hprio & Hrem).
  assert (Htok : forall tok, In tok (modify_tokens d) ->
    has_token tok ("task " +:+ escapeShellArg (target d) +:+ " modify " +:+
                   join " " (modify_tokens d))).
  { intros tok Hin.
    apply (join_has_token _ _ ("task " +:+ escapeShellArg (target d) +:+ " modify")) in Hin.
    by rewrite !append_assoc in Hin. }
  unfold carries, shown. simpl. repeat split; eauto.
Qed.

Lemma modify_tasks_bulk_carries (m : gmap string raw) (inv : CommandInvocation) :
  modify_tasks_bulk (Some (RObj m)) = Ok inv -> carries false true true m (command inv).
Proof.
  rewrite modify_tasks_bulk_eq.
  destruct (modify_shape _ _ [] m) as [d|issues] eqn:Ed; [|discriminate].
  destruct (first_rejected (present_dates d)); [discriminate|]. intros [= <-].
  apply modify_shape_tokens in Ed as (Hproj & Htags & Hprio & Hrem).
  assert (Htok : forall tok, In tok (modify_tokens d) ->
    has_token tok ("yes | task " +:+ target d +:+ " modify " +:+
                   join " " (modify_tokens d))).
  { intros tok Hin.
    apply (join_has_token _ _ ("yes | task " +:+ target d +:+ " modify")) in Hin.
    by rewrite !append_assoc in Hin. }
  unfold carries, shown. simpl. repeat split; eauto.
Qed.

Lemma add_task_carries (m : gmap string raw) (inv : CommandInvocation) :
  add_task (Some (RObj m)) = Ok inv -> carries true true false m (command inv).
Proof.
  rewrite add_task_eq.
  destruct (addTaskRequest [] (Some (RObj m))) as [d|issues] eqn:Ed; [|discriminate].
  intros Hinv.
  assert (Hcmd : command inv = "task" +:+ " " +:+ join " " (add_tokens d)).
  { destruct (truthy (add_due d)) as [v|]; [destruct (accepted v)|];
      by simplify_eq/=. }
  rewrite Hcmd. clear Hinv Hcmd.
  unfold addTaskRequest, z_object in Ed. invert_shape Ed.
  unfold carries, shown. repeat split; try (intros [=]).
  - intros p Hp. apply join_has_token.
    pose proof (project_key_valid _ _ _ _ _ Ha0 Hp) as H.
    apply in_add_tokens. do 4 right. left. by exists p.
  - intros l t Hl Ht. apply join_has_token.
    destruct (tags_key_valid _ _ _ _ _ _ _ Ha Hl Ht) as (xs & Hxs & Hx).
    apply in_add_tokens. do 5 right. by exists xs, t.
  - intros p Hp. apply join_has_token.
    pose proof (priority_key_valid _ _ _ _ Ha1 Hp) as H.
    apply in_add_tokens. do 3 right. left. by exists p.
Qed.

(** C6, as stated, fails on [add_task]: the project [work] and the tag
    [a] reach the command line inside single quotes, and the unescaped
    tokens [project:work] and [+a] do not occur in it. *)
Lemma add_task_escapes_counterexample :
  let m : gmap string raw :=
    <[ "tags" := RArr [ RStr "a" ] ]>
      (<[ "project" := RStr "work" ]> {[ "description" := RStr "x" ]}) in
  dispatch "add_task" (Some (RObj m)) = Ok (exec "task add 'x' project:'work' +'a'") /\
  ~ occurs_in "project:work" "task add 'x' project:'work' +'a'" /\
  ~ occurs_in "+a" "task add 'x' project:'work' +'a'".
Proof.
  intros m. split; [reflexivity|].
  split; intros H; apply contains_spec in H; vm_compute in H; discriminate.
Qed.

(** C6, amended.  For every request that becomes a command, of a tool
    that takes [project] and [tags]: the command line holds, as tokens,
    [project:<v>] for the project, [+<t>] for each tag, [priority:<v>] for
    the priority and [-<t>] for each tag to remove where the tool takes
    them, and [<field>:<v>] for each non-empty date field.  The values stand
    unescaped, except on [add_task], where the project and the tags are
    shell-escaped ([project:'<v>'], [+'<t>']); priority and due are
    unescaped there too. *)
Theorem constrained_fields_on_command_line
    (tool : string) (escaped with_priority with_remove : bool)
    (m : gmap string raw) (inv : CommandInvocation) :
  In (tool, (escaped, with_priority, with_remove)) field_table ->
  dispatch tool (Some (RObj m)) = Ok inv ->
  (escaped = true <-> tool = "add_task") /\
  (forall p, m !! "project" = Some (RStr p) ->
     has_token ("project:" +:+ shown escaped p) (command inv)) /\
  (forall l t, m !! "tags" = Some (RArr l) -> In (RStr t) l ->
     has_token ("+" +:+ shown escaped t) (command inv)) /\
  (with_priority = true ->
   forall p, m !! "priority" = Some (RStr p) ->
     has_token ("priority:" +:+ p) (command inv)) /\
  (with_remove = true ->
   forall l t, m !! "tags_remove" = Some (RArr l) -> In (RStr t) l ->
     has_token ("-" +:+ t) (command inv)) /\
  (forall fld v, takes_date tool fld = true -> m !! fld = Some (RStr v) -> v <> "" ->
     has_token (fld +:+ ":" +:+ v) (command inv)).
Proof.
  intros Hin Hinv.
  assert (Hdates : forall fld v,
    takes_date tool fld = true -> m !! fld = Some (RStr v) -> v <> "" ->
    has_token (fld +:+ ":" +:+ v) (command inv)).
  { intros fld v Ht Hm Hv. pose proof (date_field_outcome tool fld m v Ht Hm Hv) as H.
    rewrite Hinv in H. by destruct H. }
  assert (Hesc : escaped = true <-> tool = "add_task").
  { simpl in Hin.
    destruct Hin as [E|[E|[E|[E|[E|[E|[E|[E|[]]]]]]]]]; injection E as <- <- <- <-;
      split; (done || discriminate). }
  split; [exact Hesc|].
  assert (Hc : carries escaped with_priority with_remove m (command inv)).
  { clear Hdates Hesc. simpl in Hin.
    destruct Hin as [E|[E|[E|[E|[E|[E|[E|[E|[]]]]]]]]]; injection E as <- <- <- <-.
    - by apply get_next_tasks_carries.
    - by apply add_task_carries.
    - by apply modify_task_carries.
    - by apply modify_tasks_bulk_carries.
    - by apply count_tasks_carries.
    - by apply list_tasks_filtered_carries.
    - by apply builtin_report_carries.
    - by apply visualization_report_carries. }
  destruct Hc as (H1 & H2 & H3 & H4). auto 10.
Qed.

Lemma constrained_fields_on_command_line_witness :
  let m : gmap string raw :=
    <[ "priority" := RStr "H" ]>
      (<[ "tags" := RArr [ RStr "urgent" ] ]> {[ "project" := RStr "Work.api" ]}) in
  In ("count_tasks", (false, true, false)) field_table /\
  dispatch "count_tasks" (Some (RObj m)) =
    Ok (exec "task project:Work.api priority:H +urgent count") /\
  has_token "project:Work.api" "task project:Work.api priority:H +urgent count" /\
  has_token "+urgent" "task project:Work.api priority:H +urgent count" /\
  has_token "priority:H" "task project:Work.api priority:H +urgent count".
Proof.
  intros m.
  assert (H1 : In ("count_tasks", (false, true, false)) field_table) by (simpl; tauto).
  assert (H2 : dispatch "count_tasks" (Some (RObj m)) =
               Ok (exec "task project:Work.api priority:H +urgent count")) by reflexivity.
  destruct (constrained_fields_on_command_line "count_tasks" false true false m _ H1 H2)
    as (_ & Hp & Ht & Hprio & _).
  split; [exact H1|]. split; [exact H2|].
  split; [exact (Hp "Work.api" eq_refl)|].
  split; [|exact (Hprio eq_refl "H" eq_refl)].
  apply (Ht [ RStr "urgent" ] "urgent" eq_refl). by left.
Defined.

(** * Further properties of the code *)

(** ** Plain characters and the patterns *)

Lemma classes_within_lang P r w :
  classes_within P r = true -> Regex.lang r w -> forallb P w = true.
Proof.
  intros Hr Hl. induction Hl as [|p a Ha|r1 r2 w1 w2 _ IH1 _ IH2|r1 r2 w _ IH|r1 r2 w _ IH
                                 | |r1 w1 w2 _ IH1 _ IH2]; cbn [classes_within] in Hr.
  - reflexivity.
  - rewrite forallb_forall in Hr. pose proof (Hr a (in_all_ascii a)) as H.
    rewrite Ha in H. simpl in *. by rewrite H.
  - apply andb_true_iff in Hr as [H1 H2]. rewrite forallb_app, IH1, IH2; auto.
  - apply andb_true_iff in Hr as [H1 H2]. auto.
  - apply andb_true_iff in Hr as [H1 H2]. auto.
  - reflexivity.
  - rewrite forallb_app, IH1, IH2; auto.
Qed.

Lemma classes_within_test P r s :
  classes_within P r = true -> Regex.test r s = true -> forallb P (list_ascii_of_string s) = true.
Proof.
  intros Hr Ht. apply PatternFacts.test_lang in Ht. by eapply classes_within_lang.
Qed.

Lemma accepted_plain (v : string) : accepted v = true -> plain_text v = true.
Proof.
  unfold accepted, plain_text. intros H.
  repeat (apply orb_true_iff in H as [H|H]);
    (eapply classes_within_test; [|exact H]); vm_compute; reflexivity.
Qed.

Lemma project_plain (p : string) : Regex.test projectRegex p = true -> plain_text p = true.
Proof. apply classes_within_test. vm_compute. reflexivity. Qed.

Lemma tag_plain (t : string) : Regex.test tagRegex t = true -> plain_text t = true.
Proof. apply classes_within_test. vm_compute. reflexivity. Qed.

Lemma enum_plain (values : list string) (s : string) :
  forallb plain_text values = true ->
  existsb (String.eqb s) values = true -> plain_text s = true.
Proof.
  intros Hall Hs. apply existsb_exists in Hs as (x & Hx & E).
  apply String.eqb_eq in E as ->. rewrite forallb_forall in Hall. by apply Hall.
Qed.

(** ** How the shell reads tokens and lines *)

Lemma scan_plain_char (cur : option string) (c : ascii) (rest : string) :
  shell_plain c = true ->
  scan Unquoted cur (String c rest) = scan Unquoted (add_char cur c) rest.
Proof.
  unfold shell_plain. intros H. apply negb_true_iff in H.
  apply orb_false_iff in H as [H Hspecial]. apply orb_false_iff in H as [H Hblank].
  apply orb_false_iff in H as [Hq Hb]. simpl. by rewrite Hq, Hb, Hblank, Hspecial.
Qed.

Lemma scan_plain_text (s : string) (cur : option string) (rest : string) :
  plain_text s = true ->
  scan Unquoted cur (s +:+ rest) =
  scan Unquoted (match s with
                 | EmptyString => cur
                 | _ => Some (started_text cur +:+ s)
                 end) rest.
Proof.
  unfold plain_text. revert cur. induction s as [|c s IH]; intros cur H; [done|].
  simpl in H. apply andb_true_iff in H as [Hc Hs].
  rewrite append_cons, (scan_plain_char _ _ _ Hc), (IH _ Hs).
  unfold add_char, started_text. destruct s; [done|]. by rewrite append_assoc.
Qed.

Lemma reads_plain (s : string) : s <> "" -> plain_text s = true -> reads_as s s.
Proof.
  intros Hne Hs cur rest. rewrite (scan_plain_text _ _ _ Hs). by destruct s.
Qed.

Lemma reads_escaped (x : string) : reads_as (escapeShellArg x) x.
Proof. intros cur rest. apply scan_escaped_token. Qed.

Lemma reads_app (t1 f1 t2 f2 : string) :
  reads_as t1 f1 -> reads_as t2 f2 -> reads_as (t1 +:+ t2) (f1 +:+ f2).
Proof.
  intros H1 H2 cur rest. rewrite append_assoc, H1, H2. simpl.
  by rewrite append_assoc.
Qed.

Lemma plain_text_app (s t : string) :
  plain_text (s +:+ t) = plain_text s && plain_text t.
Proof. unfold plain_text. by rewrite list_ascii_of_append, forallb_app. Qed.

Lemma scan_blank_none (rest : string) :
  scan Unquoted None (String " " rest) = scan Unquoted None rest.
Proof. simpl. by destruct (scan Unquoted None rest). Qed.

Lemma scan_blank_some (f rest : string) :
  scan Unquoted (Some f) (String " " rest) =
  match scan Unquoted None rest with
  | Some fields => Some (f :: fields)
  | None => None
  end.
Proof. reflexivity. Qed.

(** A line of tokens joined by single spaces, followed by the end of the
    line or by a blank and more text, is read as the fields of the tokens
    followed by the fields of the rest. *)
Lemma scan_join (toks fields : list string) (rest : string) (more : list string) :
  Forall2 reads_as toks fields ->
  rest = "" \/ (exists rest', rest = String " " rest') ->
  scan Unquoted None rest = Some more ->
  scan Unquoted None (join " " toks +:+ rest) = Some (fields ++ more).
Proof.
  intros Hall Hrest Hmore. induction Hall as [|t f toks fields Ht Hall IH]; [done|].
  destruct toks as [|t2 toks].
  - inversion Hall; subst. change (join " " [t]) with t. rewrite Ht. simpl.
    destruct Hrest as [->|[rest' ->]].
    + simpl in Hmore. by injection Hmore as <-.
    + rewrite scan_blank_none in Hmore. rewrite scan_blank_some. by rewrite Hmore.
  - rewrite join_cons2, append_assoc, Ht. simpl started_text. rewrite append_nil_l.
    rewrite append_assoc, append_cons, append_nil_l, scan_blank_some. by rewrite IH.
Qed.

Lemma plain_nonempty_reads (s : string) (c : ascii) (t : string) :
  s = String c t -> plain_text s = true -> reads_as s s.
Proof. intros -> H. by apply reads_plain. Qed.

Lemma reads_field_token (name v : string) :
  plain_text name = true -> plain_text v = true ->
  reads_as (name +:+ ":" +:+ v) (name +:+ ":" +:+ v).
Proof.
  intros Hn Hv. apply reads_plain.
  - destruct name; discriminate.
  - rewrite !plain_text_app, Hn, Hv. reflexivity.
Qed.

Lemma reads_signed (sign : ascii) (t : string) :
  shell_plain sign = true -> plain_text t = true ->
  reads_as (String sign t) (String sign t).
Proof.
  intros Hs Ht. apply reads_plain; [done|]. unfold plain_text in *. simpl.
  by rewrite Hs, Ht.
Qed.

Lemma push_field_reads name x toks fields :
  plain_text name = true ->
  (forall v, truthy x = Some v -> plain_text v = true) ->
  Forall2 reads_as toks fields ->
  Forall2 reads_as (push_field name x toks) (push_field name x fields).
Proof.
  intros Hn Hx Hall. unfold push_field. destruct (truthy x) as [v|]; [|done].
  apply Forall2_app; [done|]. constructor; [|constructor].
  apply reads_field_token; auto.
Qed.

Lemma push_each_reads f g xs toks fields :
  (forall l x, xs = Some l -> In x l -> reads_as (f x) (g x)) ->
  Forall2 reads_as toks fields ->
  Forall2 reads_as (push_each f xs toks) (push_each g xs fields).
Proof.
  intros Hx Hall. unfold push_each. destruct xs as [l|]; [|done].
  apply Forall2_app; [done|].
  assert (H : forall x, In x l -> reads_as (f x) (g x)) by eauto.
  clear Hx. induction l as [|x l IH]; simpl; constructor.
  - apply H. by left.
  - apply IH. intros y Hy. apply H. by right.
Qed.

(** What the schemas guarantee of the values they let through. *)
Lemma opt_project_plain msg p v (o : option string) (x : string) :
  opt_project msg p v = Valid o -> truthy o = Some x -> plain_text x = true.
Proof.
  unfold opt_project. intros H Hx.
  apply (optional_str _ _ _ _ _ (z_string_regex_str _ _)) in H as [_ Hok].
  destruct o as [s|]; [|discriminate]. destruct s; [discriminate|].
  injection Hx as <-. by apply project_plain, Hok.
Qed.

Lemma opt_enum_plain values p v (o : option string) (x : string) :
  forallb plain_text values = true ->
  z_optional (z_enum values) p v = Valid o -> truthy o = Some x -> plain_text x = true.
Proof.
  intros Hvals H Hx.
  apply (optional_str _ _ _ _ _ (z_enum_str _)) in H as [_ Hok].
  destruct o as [s|]; [|discriminate]. destruct s; [discriminate|].
  injection Hx as <-. by apply (enum_plain values), Hok.
Qed.

Lemma opt_tags_plain msg p v (o : option (list string)) (l : list string) (t : string) :
  opt_tags msg p v = Valid o -> o = Some l -> In t l -> plain_text t = true.
Proof.
  intros H -> Ht. apply opt_tags_valid in H as [_ Hok].
  pose proof (Hok l eq_refl) as Hall. rewrite forallb_forall in Hall.
  by apply tag_plain, Hall.
Qed.

Lemma opt_enum_items_plain values p v (o : option (list string)) (l : list string)
    (x : string) :
  forallb plain_text values = true ->
  z_optional (z_array (z_enum values)) p v = Valid o -> o = Some l -> In x l ->
  plain_text x = true.
Proof.
  intros Hvals H -> Hx.
  apply (optional_array_str _ _ _ _ _ (z_enum_str _)) in H as [_ Hok].
  pose proof (Hok l eq_refl) as Hall. rewrite forallb_forall in Hall.
  by apply (enum_plain values), Hall.
Qed.

Lemma z_enum_plain values p v (s : string) :
  forallb plain_text values = true ->
  z_enum values p v = Valid s -> plain_text s = true.
Proof.
  intros Hvals H. apply z_enum_str in H as [_ Hok]. by apply (enum_plain values).
Qed.

Lemma z_enum_nonempty values p v (s : string) :
  existsb (String.eqb "") values = false ->
  z_enum values p v = Valid s -> s <> "".
Proof.
  intros Hvals H. apply z_enum_str in H as [_ Hok]. intros ->. congruence.
Qed.

Lemma scan_two (pre prefs toks fields : list string) :
  Forall2 reads_as pre prefs -> Forall2 reads_as toks fields ->
  sh_fields (join " " pre +:+ String " " (join " " toks)) = Some (prefs ++ fields).
Proof.
  intros Hpre Htoks. unfold sh_fields. apply scan_join; [done|eauto|].
  rewrite scan_blank_none.
  pose proof (scan_join toks fields "" [] Htoks (or_introl eq_refl) eq_refl) as H.
  by rewrite append_nil_r, app_nil_r in H.
Qed.

Lemma scan_three (pre prefs toks fields post postfs : list string) :
  Forall2 reads_as pre prefs -> Forall2 reads_as toks fields ->
  Forall2 reads_as post postfs ->
  sh_fields (join " " pre +:+ String " " (join " " toks +:+ String " " (join " " post))) =
  Some (prefs ++ fields ++ postfs).
Proof.
  intros Hpre Htoks Hpost. unfold sh_fields. apply scan_join; [done|eauto|].
  rewrite scan_blank_none. apply scan_join; [done|eauto|].
  rewrite scan_blank_none.
  pose proof (scan_join post postfs "" [] Hpost (or_introl eq_refl) eq_refl) as H.
  by rewrite append_nil_r, app_nil_r in H.
Qed.

Lemma reads_word (w : string) :
  negb (String.eqb w "") && plain_text w = true -> reads_as w w.
Proof.
  intros H. apply andb_true_iff in H as [Hne Hp]. apply reads_plain; [|done].
  intros ->. discriminate.
Qed.

Lemma get_next_tasks_read (m : gmap string raw) (inv : CommandInvocation) :
  get_next_tasks (Some (RObj m)) = Ok inv ->
  exists d,
    listPendingTasksRequest [] (Some (RObj m)) = Valid d /\
    sh_fields (command inv) =
      Some ([ "task"; "limit:" ] ++ get_next_tasks_args d ++ [ "next" ]).
Proof.
  unfold get_next_tasks, safeParse.
  destruct (listPendingTasksRequest [] (Some (RObj m))) as [d|issues] eqn:Ed;
    [|discriminate].
  simpl. intros [= <-]. exists d. split; [done|].
  unfold listPendingTasksRequest, z_object in Ed. invert_shape Ed. unfold key in *.
  match goal with |- context [join " " ?t] =>
    apply (scan_three [ "task"; "limit:" ] [ "task"; "limit:" ] t t [ "next" ] [ "next" ])
  end.
  - repeat constructor; by apply reads_word.
  - unfold get_next_tasks_args. simpl.
    apply push_field_reads; [done|intros v Hv; by eapply opt_project_plain|].
    apply push_each_reads; [|constructor].
    intros l x -> Hx. apply reads_signed; [done|]. by eapply opt_tags_plain.
  - repeat constructor; by apply reads_word.
Qed.

Lemma filter_args_read p1 v1 p2 v2 p3 v3 msg p4 v4 status project priority tags :
  opt_status p1 v1 = Valid status ->
  opt_project msg p2 v2 = Valid project ->
  opt_priority p3 v3 = Valid priority ->
  opt_tags msg p4 v4 = Valid tags ->
  Forall2 reads_as (filter_args status project priority tags)
    (filter_args status project priority tags).
Proof.
  intros Hs Hp Hpr Ht. unfold filter_args.
  apply push_each_reads.
  { intros l x -> Hx. apply reads_signed; [done|]. by eapply opt_tags_plain. }
  apply push_field_reads; [done|intros v Hv; by eapply (opt_enum_plain priorities)|].
  apply push_field_reads; [done|intros v Hv; by eapply opt_project_plain|].
  apply push_field_reads; [done|intros v Hv; by eapply (opt_enum_plain statuses)|].
  constructor.
Qed.

Lemma count_tasks_read (m : gmap string raw) (inv : CommandInvocation) :
  count_tasks (Some (RObj m)) = Ok inv ->
  exists d,
    countTasksRequest [] (Some (RObj m)) = Valid d /\
    sh_fields (command inv) =
      Some ([ "task" ] ++
            filter_args (cnt_status d) (cnt_project d) (cnt_priority d) (cnt_tags d) ++
            [ "count" ]).
Proof.
  unfold count_tasks, safeParse.
  destruct (countTasksRequest [] (Some (RObj m))) as [d|issues] eqn:Ed; [|discriminate].
  simpl. intros [= <-]. exists d. split; [done|].
  unfold countTasksRequest, z_object in Ed. invert_shape Ed. unfold key in *.
  match goal with |- context [join " " ?t] =>
    apply (scan_three [ "task" ] [ "task" ] t t [ "count" ] [ "count" ])
  end.
  - repeat constructor; by apply reads_word.
  - simpl. by eapply filter_args_read.
  - repeat constructor; by apply reads_word.
Qed.

Lemma builtin_report_read (m : gmap string raw) (inv : CommandInvocation) :
  builtin_report (Some (RObj m)) = Ok inv ->
  exists d,
    builtinReportRequest [] (Some (RObj m)) = Valid d /\
    sh_fields (command inv) =
      Some ([ "task" ] ++ builtin_report_args d ++ [ br_report d ]).
Proof.
  unfold builtin_report, safeParse.
  destruct (builtinReportRequest [] (Some (RObj m))) as [d|issues] eqn:Ed; [|discriminate].
  simpl. intros [= <-]. exists d. split; [done|].
  unfold builtinReportRequest, z_object in Ed. invert_shape Ed. unfold key in *.
  match goal with |- context [join " " ?t] =>
    apply (scan_three [ "task" ] [ "task" ] t t [ a2 ] [ a2 ])
  end.
  - repeat constructor; by apply reads_word.
  - unfold builtin_report_args. simpl.
    apply push_each_reads.
    { intros l x -> Hx. apply reads_signed; [done|]. by eapply opt_tags_plain. }
    apply push_field_reads; [done|intros v Hv; by eapply (opt_enum_plain priorities)|].
    apply push_field_reads; [done|intros v Hv; by eapply opt_project_plain|].
    constructor.
  - constructor; [|constructor]. simpl. apply reads_plain.
    + eapply z_enum_nonempty; [|eassumption]. reflexivity.
    + eapply z_enum_plain; [|eassumption]. reflexivity.
Qed.

Lemma visualization_report_read (m : gmap string raw) (inv : CommandInvocation) :
  visualization_report (Some (RObj m)) = Ok inv ->
  exists d,
    visualizationReportRequest [] (Some (RObj m)) = Valid d /\
    sh_fields (command inv) =
      Some ([ "task" ] ++ visualization_report_args d ++ [ vis_report d ]).
Proof.
  unfold visualization_report, safeParse.
  destruct (visualizationReportRequest [] (Some (RObj m))) as [d|issues] eqn:Ed;
    [|discriminate].
  simpl. intros [= <-]. exists d. split; [done|].
  unfold visualizationReportRequest, z_object in Ed. invert_shape Ed. unfold key in *.
  match goal with |- context [join " " ?t] =>
    apply (scan_three [ "task" ] [ "task" ] t t [ a1 ] [ a1 ])
  end.
  - repeat constructor; by apply reads_word.
  - unfold visualization_report_args. simpl.
    apply push_each_reads.
    { intros l x -> Hx. apply reads_signed; [done|]. by eapply opt_tags_plain. }
    apply push_field_reads; [done|intros v Hv; by eapply opt_project_plain|].
    constructor.
  - constructor; [|constructor]. simpl. apply reads_plain.
    + eapply z_enum_nonempty; [|eassumption]. reflexivity.
    + eapply z_enum_plain; [|eassumption]. reflexivity.
Qed.

Lemma reads_plus_escaped (sign : string) (x : string) :
  negb (String.eqb sign "") && plain_text sign = true ->
  reads_as (sign +:+ escapeShellArg x) (sign +:+ x).
Proof. intros H. apply reads_app; [by apply reads_word|apply reads_escaped]. Qed.

Lemma push_escaped_reads (name : string) (x : option string) (toks fields : list string) :
  negb (String.eqb name "") && plain_text name = true ->
  Forall2 reads_as toks fields ->
  Forall2 reads_as
    (match truthy x with
     | Some v => toks ++ [ (name +:+ ":") +:+ escapeShellArg v ]
     | None => toks
     end)
    (push_field name x fields).
Proof.
  intros Hn Hall. unfold push_field. destruct (truthy x) as [v|]; [|done].
  apply Forall2_app; [done|]. constructor; [|constructor].
  rewrite <- (append_assoc name ":" v). apply reads_app; [|apply reads_escaped].
  apply andb_true_iff in Hn as [Hne Hp]. apply reads_plain.
  - destruct name; discriminate.
  - by rewrite plain_text_app, Hp.
Qed.

Lemma add_tokens_read (d : AddTaskData) :
  (forall v, truthy (add_due d) = Some v -> plain_text v = true) ->
  (forall v, truthy (add_priority d) = Some v -> plain_text v = true) ->
  Forall2 reads_as (add_tokens d) (add_fields d).
Proof.
  intros Hdue Hprio. unfold add_tokens, add_fields.
  apply push_each_reads.
  { intros l x _ _. by apply (reads_plus_escaped "+"). }
  apply (push_escaped_reads "project"); [done|].
  apply push_field_reads; [done|done|]. apply push_field_reads; [done|done|].
  repeat constructor; [by apply reads_word|apply reads_escaped].
Qed.

Lemma add_task_read (m : gmap string raw) (inv : CommandInvocation) :
  add_task (Some (RObj m)) = Ok inv ->
  exists d,
    addTaskRequest [] (Some (RObj m)) = Valid d /\
    sh_fields (command inv) = Some ("task" :: add_fields d).
Proof.
  rewrite add_task_eq.
  destruct (addTaskRequest [] (Some (RObj m))) as [d|issues] eqn:Ed; [|discriminate].
  intros Hinv. exists d. split; [done|].
  assert (H : command inv = "task" +:+ String " " (join " " (add_tokens d)) /\
              forall v, truthy (add_due d) = Some v -> plain_text v = true).
  { destruct (truthy (add_due d)) as [v|]; [destruct (accepted v) eqn:Ev|];
      simplify_eq/=; split; try done.
    intros ? [= <-]. by apply accepted_plain. }
  destruct H as [-> Hdue].
  unfold addTaskRequest, z_object in Ed. invert_shape Ed. unfold key in *.
  apply (scan_two [ "task" ] [ "task" ]).
  - repeat constructor; by apply reads_word.
  - apply add_tokens_read; [done|]. simpl.
    intros v Hv. by eapply (opt_enum_plain priorities).
Qed.

Lemma plain_join (sep : string) (l : list string) :
  plain_text sep = true -> (forall x, In x l -> plain_text x = true) ->
  plain_text (join sep l) = true.
Proof.
  intros Hsep Hl. induction l as [|x l IH]; [done|].
  destruct l as [|y l].
  - apply Hl. by left.
  - rewrite join_cons2, !plain_text_app, Hsep, (Hl x (or_introl eq_refl)). simpl.
    apply IH. intros z Hz. apply Hl. by right.
Qed.

Lemma present_dates_in (d : ModifyData) (x : option string) (v : string) :
  In x [ due d; start d; wait d; until d; scheduled d ] ->
  truthy x = Some v -> In v (present_dates d).
Proof.
  intros Hx Hv. unfold present_dates. apply in_flat_map. exists x.
  split; [done|]. rewrite Hv. by left.
Qed.

Lemma modify_tokens_read (d : ModifyData) :
  (forall v, In v (present_dates d) -> plain_text v = true) ->
  (forall v, truthy (priority d) = Some v -> plain_text v = true) ->
  (forall v, truthy (project d) = Some v -> plain_text v = true) ->
  (forall ds, depends d = Some ds -> plain_text (join "," ds) = true) ->
  (forall l x, tags d = Some l -> In x l -> plain_text x = true) ->
  (forall l x, tags_remove d = Some l -> In x l -> plain_text x = true) ->
  (forall l x, clear_fields d = Some l -> In x l -> plain_text x = true) ->
  Forall2 reads_as (modify_tokens d) (modify_fields d).
Proof.
  intros Hdates Hprio Hproj Hdep Htags Hrem Hclear.
  assert (Hdate : forall x, In x [ due d; start d; wait d; until d; scheduled d ] ->
                  forall v, truthy x = Some v -> plain_text v = true).
  { intros x Hx v Hv. apply Hdates. by eapply present_dates_in. }
  unfold modify_tokens, modify_fields.
  apply push_each_reads.
  { intros l x Hl Hx. apply reads_plain; [by destruct x|].
    by rewrite plain_text_app, (Hclear l x Hl Hx). }
  apply push_each_reads.
  { intros l x Hl Hx. apply reads_signed; [done|]. by eapply Hrem. }
  apply push_each_reads.
  { intros l x Hl Hx. apply reads_signed; [done|]. by eapply Htags. }
  assert (Hrest : Forall2 reads_as
    (push_field "project" (project d)
       (push_field "scheduled" (scheduled d)
          (push_field "until" (until d)
             (push_field "wait" (wait d)
                (match stop_task d with
                 | Some true =>
                     push_field "start" (start d)
                       (push_field "priority" (priority d)
                          (push_field "due" (due d)
                             (match truthy (description d) with
                              | Some v => [] ++ [ "description:" +:+ escapeShellArg v ]
                              | None => []
                              end))) ++ [ "start:" ]
                 | _ =>
                     push_field "start" (start d)
                       (push_field "priority" (priority d)
                          (push_field "due" (due d)
                             (match truthy (description d) with
                              | Some v => [] ++ [ "description:" +:+ escapeShellArg v ]
                              | None => []
                              end)))
                 end)))))
    (push_field "project" (project d)
       (push_field "scheduled" (scheduled d)
          (push_field "until" (until d)
             (push_field "wait" (wait d)
                (match stop_task d with
                 | Some true =>
                     push_field "start" (start d)
                       (push_field "priority" (priority d)
                          (push_field "due" (due d)
                             (push_field "description" (description d) []))) ++
                     [ "start:" ]
                 | _ =>
                     push_field "start" (start d)
                       (push_field "priority" (priority d)
                          (push_field "due" (due d)
                             (push_field "description" (description d) [])))
                 end)))))).
  { assert (Hhead : Forall2 reads_as
      (push_field "start" (start d)
         (push_field "priority" (priority d)
            (push_field "due" (due d)
               (match truthy (description d) with
                | Some v => [] ++ [ "description:" +:+ escapeShellArg v ]
                | None => []
                end))))
      (push_field "start" (start d)
         (push_field "priority" (priority d)
            (push_field "due" (due d)
               (push_field "description" (description d) []))))).
    { apply push_field_reads; [done|apply Hdate; simpl; tauto|].
      apply push_field_reads; [done|done|].
      apply push_field_reads; [done|apply Hdate; simpl; tauto|].
      apply (push_escaped_reads "description"); [done|constructor]. }
    apply push_field_reads; [done|done|].
    apply push_field_reads; [done|apply Hdate; simpl; tauto|].
    apply push_field_reads; [done|apply Hdate; simpl; tauto|].
    apply push_field_reads; [done|apply Hdate; simpl; tauto|].
    destruct (stop_task d) as [[|]|]; [|done|done].
    apply Forall2_app; [done|]. repeat constructor. by apply reads_word. }
  destruct (depends d) as [ds|] eqn:Eds; [|done].
  apply Forall2_app; [done|]. constructor; [|constructor].
  apply reads_plain; [done|]. by rewrite plain_text_app, (Hdep ds eq_refl).
Qed.

Lemma modify_shape_plain tk tm p (m : gmap string raw) (d : ModifyData) :
  modify_shape tk tm p m = Valid d ->
  (forall v, truthy (priority d) = Some v -> plain_text v = true) /\
  (forall v, truthy (project d) = Some v -> plain_text v = true) /\
  (forall l x, tags d = Some l -> In x l -> plain_text x = true) /\
  (forall l x, tags_remove d = Some l -> In x l -> plain_text x = true) /\
  (forall l x, clear_fields d = Some l -> In x l -> plain_text x = true).
Proof.
  intros H. unfold modify_shape in H. invert_shape H. unfold key in *. simpl.
  repeat split.
  - intros v Hv. by eapply (opt_enum_plain priorities).
  - intros v Hv. by eapply opt_project_plain.
  - intros l x Hl Hx. exact (opt_tags_plain _ _ _ _ _ _ Ha1 Hl Hx).
  - intros l x Hl Hx. exact (opt_tags_plain _ _ _ _ _ _ Ha0 Hl Hx).
  - intros l x Hl Hx. by eapply (opt_enum_items_plain clearable).
Qed.

Lemma modify_task_read (m : gmap string raw) (inv : CommandInvocation) :
  (forall l s, m !! "depends" = Some (RArr l) -> In (RStr s) l -> plain_text s = true) ->
  modify_task (Some (RObj m)) = Ok inv ->
  exists d,
    modify_shape "identifier" "Task identifier cannot be empty" [] m = Valid d /\
    sh_fields (command inv) = Some ([ "task"; target d; "modify" ] ++ modify_fields d).
Proof.
  intros Hraw. rewrite modify_task_eq.
  destruct (modify_shape _ _ [] m) as [d|issues] eqn:Ed; [|discriminate].
  destruct (first_rejected (present_dates d)) as [w|] eqn:Ew; [discriminate|].
  intros [= <-]. exists d. split; [done|].
  destruct (modify_shape_plain _ _ _ _ _ Ed) as (Hprio & Hproj & Htags & Hrem & Hclear).
  pose proof (modify_shape_valid _ _ _ _ _ Ed) as (_ & _ & _ & _ & _ & _ & Hdep & _).
  assert (Hall : Forall2 reads_as (modify_tokens d) (modify_fields d)).
  { apply modify_tokens_read; try done.
    - intros v Hv. apply accepted_plain. by apply (first_rejected_none _ _ Ew).
    - intros ds Hds. apply plain_join; [done|]. intros x Hx.
      rewrite Hds in Hdep. simpl in Hdep. apply (Hraw _ x Hdep).
      apply in_map_iff. eauto. }
  assert (Hpre : Forall2 reads_as [ "task"; escapeShellArg (target d); "modify" ]
                   [ "task"; target d; "modify" ]).
  { constructor; [by apply reads_word|]. constructor; [apply reads_escaped|].
    constructor; [by apply reads_word|constructor]. }
  pose proof (scan_two _ _ _ _ Hpre Hall) as H.
  change (join " " [ "task"; escapeShellArg (target d); "modify" ])
    with ("task" +:+ " " +:+ escapeShellArg (target d) +:+ " " +:+ "modify") in H.
  rewrite !append_assoc in H. exact H.
Qed.

(** The line [head x verb], for a plain identifier [x]. *)
Lemma scan_then (s : string) (m : mode) (cur : option string) (ws : list string)
    (rest : string) (more : list string) :
  scan m cur s = Some ws -> scan Unquoted None rest = Some more ->
  scan m cur (s +:+ String " " rest) = Some (ws ++ more).
Proof.
  intros Hs Hrest. revert m cur ws Hs.
  induction s as [|c s IH]; intros m cur ws Hs.
  - rewrite append_nil_l. destruct m; simpl in Hs; try discriminate.
    injection Hs as <-. simpl. by rewrite Hrest.
  - rewrite append_cons. destruct m; simpl in *.
    + destruct (Ascii.eqb c "'"); [by apply IH|].
      destruct (Ascii.eqb c "\"); [by apply IH|].
      destruct (is_blank c).
      * destruct (scan Unquoted None s) as [fields|] eqn:E; [|discriminate].
        injection Hs as <-. rewrite (IH Unquoted None fields E).
        by rewrite app_assoc.
      * destruct (is_special c); [discriminate|]. by apply IH.
    + destruct (Ascii.eqb c "010"); by apply IH.
    + destruct (Ascii.eqb c "'"); by apply IH.
Qed.

Lemma words_read (ws : list string) :
  forallb (fun w => negb (String.eqb w "") && plain_text w) ws = true ->
  Forall2 reads_as ws ws.
Proof.
  intros H. rewrite forallb_forall in H.
  induction ws as [|w ws IH]; constructor.
  - apply reads_word, H. by left.
  - apply IH. intros y Hy. apply H. by right.
Qed.

Lemma target_line_read (pre : list string) (x : string) (ws : list string)
    (post postfs : list string) :
  forallb (fun w => negb (String.eqb w "") && plain_text w) pre = true ->
  sh_fields x = Some ws -> Forall2 reads_as post postfs ->
  sh_fields (join " " pre +:+ String " " (x +:+ String " " (join " " post))) =
  Some (pre ++ ws ++ postfs).
Proof.
  intros Hpre Hx Hpost. unfold sh_fields.
  apply scan_join; [by apply words_read|eauto|].
  rewrite scan_blank_none. apply scan_then; [done|].
  pose proof (scan_join post postfs "" [] Hpost (or_introl eq_refl) eq_refl) as H.
  by rewrite append_nil_r, app_nil_r in H.
Qed.

Lemma identifier_command_read tool pre verb (m : gmap string raw) (x : string)
    (ws : list string) :
  In (tool, (pre, verb)) identifier_lines ->
  m !! "identifier" = Some (RStr x) -> sh_fields x = Some ws ->
  exists inv,
    dispatch tool (Some (RObj m)) = Ok inv /\
    sh_fields (command inv) = Some (pre ++ ws ++ [ verb ]).
Proof.
  intros Hin Hm Hx. simpl in Hin.
  assert (Hverb : forall v, negb (String.eqb v "") && plain_text v = true ->
                            Forall2 reads_as [ v ] [ v ]).
  { intros v Hv. constructor; [by apply reads_word|constructor]. }
  destruct Hin as [E|[E|[E|[E|[]]]]]; injection E as <- <- <-.
  - exists (exec ("task " +:+ x +:+ " done")). split.
    + change (dispatch "mark_task_done" (Some (RObj m)))
        with (mark_task_done (Some (RObj m))).
      unfold mark_task_done, safeParse, markTaskDoneRequest, z_object.
      by rewrite (identifier_shape_valid m x Hm).
    + apply (target_line_read [ "task" ] x ws [ "done" ] [ "done" ]); auto.
  - exists (exec ("task " +:+ x +:+ " info")). split.
    + change (dispatch "get_task_info" (Some (RObj m)))
        with (get_task_info (Some (RObj m))).
      unfold get_task_info, safeParse, getTaskInfoRequest, z_object.
      by rewrite (identifier_shape_valid m x Hm).
    + apply (target_line_read [ "task" ] x ws [ "info" ] [ "info" ]); auto.
  - exists (exec ("task rc.confirmation=no " +:+ x +:+ " delete")). split.
    + change (dispatch "delete_task" (Some (RObj m))) with (delete_task (Some (RObj m))).
      unfold delete_task, safeParse, deleteTaskRequest, z_object.
      by rewrite (identifier_shape_valid m x Hm).
    + apply (target_line_read [ "task"; "rc.confirmation=no" ] x ws
               [ "delete" ] [ "delete" ]); auto.
  - exists (exec ("task " +:+ x +:+ " duplicate")). split.
    + change (dispatch "duplicate_task" (Some (RObj m)))
        with (duplicate_task (Some (RObj m))).
      unfold duplicate_task, safeParse, duplicateTaskRequest, z_object.
      by rewrite (identifier_shape_valid m x Hm).
    + apply (target_line_read [ "task" ] x ws [ "duplicate" ] [ "duplicate" ]); auto.
Qed.

Lemma text_shape_fields (sch : Schema TextData) (k : string) (m : gmap string raw)
    (x t : string) :
  sch = z_object (shape_pure mkText <&> key "identifier" z_string <&> key k z_string) ->
  m !! "identifier" = Some (RStr x) -> m !! k = Some (RStr t) ->
  sch [] (Some (RObj m)) = Valid (mkText x t).
Proof.
  intros -> Hx Ht. unfold z_object, shape_ap, key, shape_pure. simpl.
  by rewrite Hx, Ht.
Qed.

(** ** What reaches the engine *)

(** X1.  A value that passes the date check, the project pattern or the
    tag pattern, or that belongs to the priority, status or clearable-field
    enumeration, holds no character the shell treats specially outside
    quotes; when it is not empty, the shell reads it, unquoted, as the one
    field it is. *)
Theorem validated_values_are_plain (v : string) :
  accepted v = true \/ Regex.test projectRegex v = true \/
  Regex.test tagRegex v = true \/
  In v priorities \/ In v statuses \/ In v clearable ->
  plain_text v = true /\ (v <> "" -> sh_fields v = Some [ v ]).
Proof.
  intros H.
  assert (Hp : plain_text v = true).
  { destruct H as [H|[H|[H|[H|[H|H]]]]].
    - by apply accepted_plain.
    - by apply project_plain.
    - by apply tag_plain.
    - simpl in H. destruct H as [<-|[<-|[<-|[]]]]; reflexivity.
    - simpl in H. destruct H as [<-|[<-|[<-|[<-|[<-|[]]]]]]; reflexivity.
    - simpl in H. destruct H as [<-|[<-|[<-|[<-|[<-|[<-|[<-|[<-|[]]]]]]]]]; reflexivity. }
  split; [done|]. intros Hne. unfold sh_fields.
  rewrite <- (append_nil_r v) at 1. by rewrite (reads_plain v Hne Hp).
Qed.

Lemma validated_values_are_plain_witness :
  (accepted "+14d" = true \/ Regex.test projectRegex "+14d" = true \/
   Regex.test tagRegex "+14d" = true \/
   In "+14d" priorities \/ In "+14d" statuses \/ In "+14d" clearable) /\
  plain_text "+14d" = true /\ ("+14d" <> "" -> sh_fields "+14d" = Some [ "+14d" ]).
Proof.
  assert (H : accepted "+14d" = true) by reflexivity.
  split; [by left|]. exact (validated_values_are_plain "+14d" (or_introl H)).
Defined.

(** X2.  For every accepted request of [get_next_tasks], [count_tasks],
    [builtin_report] and [visualization_report], the shell reads the
    command line as exactly the engine name, the tokens of the request, one
    field each, and the command word: nothing in a request of these tools
    can add, split or change a field. *)
Theorem query_commands_read_back (m : gmap string raw) (inv : CommandInvocation) :
  (dispatch "get_next_tasks" (Some (RObj m)) = Ok inv ->
   exists d,
     listPendingTasksRequest [] (Some (RObj m)) = Valid d /\
     sh_fields (command inv) =
       Some ([ "task"; "limit:" ] ++ get_next_tasks_args d ++ [ "next" ])) /\
  (dispatch "count_tasks" (Some (RObj m)) = Ok inv ->
   exists d,
     countTasksRequest [] (Some (RObj m)) = Valid d /\
     sh_fields (command inv) =
       Some ([ "task" ] ++
             filter_args (cnt_status d) (cnt_project d) (cnt_priority d) (cnt_tags d) ++
             [ "count" ])) /\
  (dispatch "builtin_report" (Some (RObj m)) = Ok inv ->
   exists d,
     builtinReportRequest [] (Some (RObj m)) = Valid d /\
     sh_fields (command inv) =
       Some ([ "task" ] ++ builtin_report_args d ++ [ br_report d ])) /\
  (dispatch "visualization_report" (Some (RObj m)) = Ok inv ->
   exists d,
     visualizationReportRequest [] (Some (RObj m)) = Valid d /\
     sh_fields (command inv) =
       Some ([ "task" ] ++ visualization_report_args d ++ [ vis_report d ])).
Proof.
  repeat split.
  - apply get_next_tasks_read.
  - apply count_tasks_read.
  - apply builtin_report_read.
  - apply visualization_report_read.
Qed.

Lemma query_commands_read_back_witness :
  let m : gmap string raw :=
    <[ "tags" := RArr [ RStr "next"; RStr "@home" ] ]>
      (<[ "project" := RStr "Home.garden" ]> {[ "report" := RStr "overdue" ]}) in
  let inv := exec "task project:Home.garden +next +@home overdue" in
  dispatch "builtin_report" (Some (RObj m)) = Ok inv /\
  exists d,
    builtinReportRequest [] (Some (RObj m)) = Valid d /\
    sh_fields (command inv) =
      Some ([ "task" ] ++ builtin_report_args d ++ [ br_report d ]).
Proof.
  intros m inv.
  assert (H : dispatch "builtin_report" (Some (RObj m)) = Ok inv) by reflexivity.
  split; [exact H|].
  exact (proj1 (proj2 (proj2 (query_commands_read_back m inv))) H).
Defined.

(** X3.  For every accepted [add_task] request, the shell reads the command
    line as [task], [add], the description exactly as the request gave it
    (whatever it holds), and one field for each of due, priority, project
    and tag with the value as given: the quoting of description, project
    and tags is undone by the shell and nothing else changes. *)
Theorem add_task_read_back (m : gmap string raw) (inv : CommandInvocation) :
  dispatch "add_task" (Some (RObj m)) = Ok inv ->
  exists d,
    addTaskRequest [] (Some (RObj m)) = Valid d /\
    m !! "description" = Some (RStr (add_description d)) /\
    sh_fields (command inv) = Some ("task" :: add_fields d).
Proof.
  intros H. apply add_task_read in H as (d & Hd & Hf).
  exists d. split; [done|]. split; [|done]. by apply add_shape_valid in Hd as (? & _).
Qed.

Lemma add_task_read_back_witness :
  let m : gmap string raw :=
    <[ "tags" := RArr [ RStr "shop" ] ]>
      (<[ "project" := RStr "home" ]>
         (<[ "due" := RStr "friday" ]> {[ "description" := RStr "buy Sam's $5 gift; wrap it" ]})) in
  let inv := exec "task add 'buy Sam'\''s $5 gift; wrap it' due:friday project:'home' +'shop'" in
  dispatch "add_task" (Some (RObj m)) = Ok inv /\
  sh_fields (command inv) =
    Some [ "task"; "add"; "buy Sam's $5 gift; wrap it"; "due:friday"; "project:home";
           "+shop" ].
Proof.
  intros m inv.
  assert (H : dispatch "add_task" (Some (RObj m)) = Ok inv) by reflexivity.
  split; [exact H|].
  destruct (add_task_read_back m inv H) as (d & Hd & _ & Hf).
  assert (E : addTaskRequest [] (Some (RObj m)) =
              Valid (mkAddTask "buy Sam's $5 gift; wrap it" (Some "friday") None
                       (Some "home") (Some [ "shop" ]))) by reflexivity.
  rewrite E in Hd. injection Hd as <-. exact Hf.
Defined.

(** X4.  For every accepted [modify_task] request whose [depends] items
    (if any) are plain text (free of blanks, quotes, braces and the other
    special characters), the shell, bash or POSIX, reads the command line
    as [task], the identifier exactly as given, [modify], and one field for
    each modification with its value as given: the identifier and the
    description cannot add or split a field, whatever they hold. *)
Theorem modify_task_read_back (m : gmap string raw) (inv : CommandInvocation) :
  (forall l s, m !! "depends" = Some (RArr l) -> In (RStr s) l -> plain_text s = true) ->
  dispatch "modify_task" (Some (RObj m)) = Ok inv ->
  exists d,
    modify_shape "identifier" "Task identifier cannot be empty" [] m = Valid d /\
    m !! "identifier" = Some (RStr (target d)) /\
    sh_fields (command inv) = Some ([ "task"; target d; "modify" ] ++ modify_fields d).
Proof.
  intros Hdep H. apply (modify_task_read m inv Hdep) in H as (d & Hd & Hf).
  exists d. split; [done|]. split; [|done].
  by apply modify_shape_valid in Hd as ((? & _) & _).
Qed.

Lemma modify_task_read_back_witness :
  let m : gmap string raw :=
    <[ "depends" := RArr [ RStr "3"; RStr "7" ] ]>
      (<[ "description" := RStr "it's done; really" ]>
         (<[ "tags_remove" := RArr [ RStr "wip" ] ]> {[ "identifier" := RStr "4 or 5" ]})) in
  let inv := exec "task '4 or 5' modify description:'it'\''s done; really' depends:3,7 -wip" in
  (forall l s, m !! "depends" = Some (RArr l) -> In (RStr s) l -> plain_text s = true) /\
  dispatch "modify_task" (Some (RObj m)) = Ok inv /\
  sh_fields (command inv) =
    Some [ "task"; "4 or 5"; "modify"; "description:it's done; really"; "depends:3,7";
           "-wip" ].
Proof.
  intros m inv.
  assert (Hdep : forall l s,
            m !! "depends" = Some (RArr l) -> In (RStr s) l -> plain_text s = true).
  { intros l s Hl Hs.
    assert (E : m !! "depends" = Some (RArr [ RStr "3"; RStr "7" ])) by reflexivity.
    rewrite E in Hl. injection Hl as <-.
    destruct Hs as [[= <-]|[[= <-]|[]]]; reflexivity. }
  assert (H : dispatch "modify_task" (Some (RObj m)) = Ok inv) by reflexivity.
  split; [exact Hdep|]. split; [exact H|].
  destruct (modify_task_read_back m inv Hdep H) as (d & Hd & _ & Hf).
  assert (E : modify_shape "identifier" "Task identifier cannot be empty" [] m =
              Valid (mkModify "4 or 5" (Some "it's done; really") None None None None None
                       None None None (Some [ "3"; "7" ]) None (Some [ "wip" ]) None))
    by reflexivity.
  rewrite E in Hd. injection Hd as <-. exact Hf.
Defined.

(** X5.  [mark_task_done], [get_task_info], [delete_task] and
    [duplicate_task] accept any identifier and insert it as it is.  When
    the shell reads the identifier alone as a list of fields, it reads the
    command line as the words before the identifier, those fields, and the
    command word: an identifier with blanks brings several fields, a
    quoted one a single field, and an empty one none, so that the command
    word then follows the words before it directly. *)
Theorem identifier_commands_read_back
    (tool : string) (pre : list string) (verb : string)
    (m : gmap string raw) (x : string) (ws : list string) :
  In (tool, (pre, verb)) identifier_lines ->
  m !! "identifier" = Some (RStr x) -> sh_fields x = Some ws ->
  exists inv,
    dispatch tool (Some (RObj m)) = Ok inv /\
    sh_fields (command inv) = Some (pre ++ ws ++ [ verb ]) /\
    (x = "" -> sh_fields (command inv) = Some (pre ++ [ verb ])).
Proof.
  intros Hin Hm Hx.
  destruct (identifier_command_read tool pre verb m x ws Hin Hm Hx) as (inv & Hd & Hf).
  exists inv. split; [done|]. split; [done|]. intros ->.
  injection Hx as <-. exact Hf.
Qed.

Lemma identifier_commands_read_back_witness :
  let m : gmap string raw := {[ "identifier" := RStr "3 '4 5'" ]} in
  In ("delete_task", ([ "task"; "rc.confirmation=no" ], "delete")) identifier_lines /\
  m !! "identifier" = Some (RStr "3 '4 5'") /\
  sh_fields "3 '4 5'" = Some [ "3"; "4 5" ] /\
  exists inv,
    dispatch "delete_task" (Some (RObj m)) = Ok inv /\
    sh_fields (command inv) =
      Some ([ "task"; "rc.confirmation=no" ] ++ [ "3"; "4 5" ] ++ [ "delete" ]) /\
    ("3 '4 5'" = "" ->
     sh_fields (command inv) = Some ([ "task"; "rc.confirmation=no" ] ++ [ "delete" ])).
Proof.
  intros m.
  assert (Hin : In ("delete_task", ([ "task"; "rc.confirmation=no" ], "delete"))
                  identifier_lines) by (simpl; tauto).
  split; [exact Hin|]. split; [reflexivity|]. split; [reflexivity|].
  exact (identifier_commands_read_back "delete_task" _ "delete" m "3 '4 5'" _
           Hin eq_refl eq_refl).
Defined.

(** X6.  [annotate_task], [append_task] and [prepend_task] accept any
    identifier and any text.  When the shell reads the identifier alone as
    a list of fields, it reads the command line as [task], those fields,
    the command word, and the text exactly as given, as one field. *)
Theorem text_commands_read_back
    (tool k verb : string) (m : gmap string raw) (x t : string) (ws : list string) :
  In (tool, (k, verb)) text_lines ->
  m !! "identifier" = Some (RStr x) -> m !! k = Some (RStr t) ->
  sh_fields x = Some ws ->
  exists inv,
    dispatch tool (Some (RObj m)) = Ok inv /\
    sh_fields (command inv) = Some ([ "task" ] ++ ws ++ [ verb; t ]).
Proof.
  intros Hin Hx Ht Hws. simpl in Hin.
  assert (Hline : forall v, negb (String.eqb v "") && plain_text v = true ->
    sh_fields ("task " +:+ x +:+ " " +:+ v +:+ " " +:+ escapeShellArg t) =
    Some ([ "task" ] ++ ws ++ [ v; t ])).
  { intros v Hv.
    apply (target_line_read [ "task" ] x ws [ v; escapeShellArg t ] [ v; t ]);
      [done|done|].
    constructor; [by apply reads_word|]. constructor; [apply reads_escaped|constructor]. }
  destruct Hin as [E|[E|[E|[]]]]; injection E as <- <- <-.
  - exists (exec ("task " +:+ x +:+ " annotate " +:+ escapeShellArg t)). split.
    + change (dispatch "annotate_task" (Some (RObj m)))
        with (annotate_task (Some (RObj m))).
      unfold annotate_task, safeParse, annotateTaskRequest, z_object, shape_ap, key,
        shape_pure. simpl. by rewrite Hx, Ht.
    + by apply (Hline "annotate").
  - exists (exec ("task " +:+ x +:+ " append " +:+ escapeShellArg t)). split.
    + change (dispatch "append_task" (Some (RObj m))) with (append_task (Some (RObj m))).
      unfold append_task, safeParse.
      by rewrite (text_shape_fields appendTaskRequest "text" m x t eq_refl Hx Ht).
    + by apply (Hline "append").
  - exists (exec ("task " +:+ x +:+ " prepend " +:+ escapeShellArg t)). split.
    + change (dispatch "prepend_task" (Some (RObj m)))
        with (prepend_task (Some (RObj m))).
      unfold prepend_task, safeParse.
      by rewrite (text_shape_fields prependTaskRequest "text" m x t eq_refl Hx Ht).
    + by apply (Hline "prepend").
Qed.

Lemma text_commands_read_back_witness :
  let m : gmap string raw :=
    <[ "annotation" := RStr "see `notes`; don't skip" ]> {[ "identifier" := RStr "12" ]} in
  In ("annotate_task", ("annotation", "annotate")) text_lines /\
  m !! "identifier" = Some (RStr "12") /\
  m !! "annotation" = Some (RStr "see `notes`; don't skip") /\
  sh_fields "12" = Some [ "12" ] /\
  exists inv,
    dispatch "annotate_task" (Some (RObj m)) = Ok inv /\
    sh_fields (command inv) =
      Some ([ "task" ] ++ [ "12" ] ++ [ "annotate"; "see `notes`; don't skip" ]).
Proof.
  intros m.
  assert (Hin : In ("annotate_task", ("annotation", "annotate")) text_lines)
    by (simpl; tauto).
  split; [exact Hin|]. split; [reflexivity|]. split; [reflexivity|].
  split; [reflexivity|].
  exact (text_commands_read_back "annotate_task" "annotation" "annotate" m "12" _ _
           Hin eq_refl eq_refl eq_refl).
Defined.

(** ** Rejected requests *)

Lemma tool_name_cases (name : string) :
  In name tool_names ->
  name = "get_next_tasks" \/ name = "mark_task_done" \/ name = "add_task" \/
  name = "modify_task" \/ name = "modify_tasks_bulk" \/ name = "get_task_info" \/
  name = "count_tasks" \/ name = "list_tasks_filtered" \/ name = "delete_task" \/
  name = "annotate_task" \/ name = "append_task" \/ name = "prepend_task" \/
  name = "duplicate_task" \/ name = "undo_last" \/ name = "builtin_report" \/
  name = "visualization_report" \/ name = "custom_report".
Proof.
  intros H. vm_compute in H.
  repeat (destruct H as [H|H]; [symmetry in H; tauto|]). done.
Qed.

Lemma not_object_rejected (name : string) (args : option raw) :
  In name tool_names -> (forall m, args <> Some (RObj m)) ->
  dispatch name args = Err (InvalidArguments name [ mkIssue invalid_type [] None ]).
Proof.
  intros Hin Hargs. apply tool_name_cases in Hin.
  assert (Hraw : forall (h : Handler),
    (forall r, (forall m, r <> RObj m) ->
       h (Some r) = Err (InvalidArguments name [ mkIssue invalid_type [] None ])) ->
    h None = Err (InvalidArguments name [ mkIssue invalid_type [] None ]) ->
    h args = Err (InvalidArguments name [ mkIssue invalid_type [] None ])).
  { intros h Hsome Hnone. destruct args as [r|]; [|done]. apply Hsome.
    intros m ->. by eapply Hargs. }
  repeat (destruct Hin as [->|Hin]); try subst name;
    (apply (Hraw (dispatch _)); [|reflexivity]);
    (intros r Hr; destruct r as [| | | | |m]; try reflexivity; exfalso; by eapply Hr).
Qed.

Lemma pap_reports_l {A B : Type} (f : parsed (A -> B)) (x : parsed A) iss :
  reports iss f -> reports iss (pap f x).
Proof.
  intros (i & -> & Hin). destruct x as [a|j]; simpl.
  - by exists i.
  - exists (i ++ j). split; [done|]. apply in_app_iff. by left.
Qed.

Lemma pap_reports_r {A B : Type} (f : parsed (A -> B)) (x : parsed A) iss :
  reports iss x -> reports iss (pap f x).
Proof.
  intros (j & -> & Hin). destruct f as [g|i]; simpl.
  - by exists j.
  - exists (i ++ j). split; [done|]. apply in_app_iff. by right.
Qed.

Lemma shape_reports_l {A B : Type} (sh : Shape (A -> B)) (fld : Shape A) p m iss :
  reports iss (sh p m) -> reports iss ((sh <&> fld) p m).
Proof. apply pap_reports_l. Qed.

Lemma shape_reports_r {A B : Type} (sh : Shape (A -> B)) (fld : Shape A) p m iss :
  reports iss (fld p m) -> reports iss ((sh <&> fld) p m).
Proof. apply pap_reports_r. Qed.

(** Finds the reporting key in a shape. *)
Ltac find_report H :=
  solve [ unfold modify_shape;
          repeat first [ apply shape_reports_r; apply H | apply shape_reports_l ] ].

Lemma safeParse_reports {A : Type} tool (sch : Schema A) args iss :
  reports iss (sch [] args) ->
  exists issues, safeParse tool sch args = Err (InvalidArguments tool issues) /\
                 In iss issues.
Proof. intros (i & E & Hin). unfold safeParse. rewrite E. eauto. Qed.

Lemma bind_err {A B : Type} (x : result A) (f : A -> result B) e :
  x = Err e -> bind x f = Err e.
Proof. by intros ->. Qed.

Lemma z_string_not_string p v :
  (forall s, v <> Some (RStr s)) -> z_string p v = Invalid [ mkIssue invalid_type p None ].
Proof.
  intros H. unfold z_string. destruct v as [[| | |s| |]|]; try done.
  by destruct (H s).
Qed.

Lemma z_string_min_not_string n msg p v :
  (forall s, v <> Some (RStr s)) ->
  z_string_min n msg p v = Invalid [ mkIssue invalid_type p None ].
Proof. intros H. unfold z_string_min. by rewrite (z_string_not_string p v H). Qed.

Lemma z_enum_not_string values p v :
  (forall s, v <> Some (RStr s)) ->
  z_enum values p v = Invalid [ mkIssue invalid_type p None ].
Proof.
  intros H. unfold z_enum. destruct v as [[| | |s| |]|]; try done.
  by destruct (H s).
Qed.

Lemma required_key_reports (sch : Schema string) k (m : gmap string raw) :
  (forall p v, (forall s, v <> Some (RStr s)) ->
               sch p v = Invalid [ mkIssue invalid_type p None ]) ->
  (forall s, m !! k <> Some (RStr s)) ->
  reports (mkIssue invalid_type [ PKey k ] None) (key k sch [] m).
Proof.
  intros Hbad Hm. unfold key. rewrite (Hbad _ _ Hm). eexists. split; [done|].
  by left.
Qed.

Lemma handler_reports {A : Type} tool (sch : Shape A) (h : Handler)
    (m : gmap string raw) iss :
  (forall args, exists f, h args = bind (safeParse tool (z_object sch) args) f) ->
  reports iss (sch [] m) ->
  exists issues,
    h (Some (RObj m)) = Err (InvalidArguments tool issues) /\ In iss issues.
Proof.
  intros Hh Hrep. destruct (Hh (Some (RObj m))) as [f ->].
  destruct (safeParse_reports tool (z_object sch) (Some (RObj m)) _ Hrep)
    as (issues & E & Hi).
  exists issues. split; [|done]. by apply bind_err.
Qed.

Lemma pmap_reports {A B : Type} (f : A -> B) (x : parsed A) iss :
  reports iss x -> reports iss (pmap f x).
Proof. intros (i & -> & Hin). by exists i. Qed.

Lemma parse_items_reports re msg p (i j : nat) (l : list raw) (t : string) :
  l !! j = Some (RStr t) -> Regex.test re t = false ->
  reports (mkIssue invalid_string (p ++ [ PIndex (i + j) ]) msg)
    (parse_items (z_string_regex re msg) p i l).
Proof.
  revert i j. induction l as [|r l IH]; intros i j Hj Ht; [done|].
  simpl. destruct j as [|j]; simpl in Hj.
  - injection Hj as ->. apply pap_reports_l, pmap_reports.
    unfold z_string_regex. simpl. rewrite Ht, Nat.add_0_r.
    eexists. split; [done|]. by left.
  - apply pap_reports_r. replace (i + S j)%nat with (S i + j)%nat by lia.
    by apply IH.
Qed.

Lemma key_tags_reports k msg (m : gmap string raw) (l : list raw) (j : nat) (t : string) :
  m !! k = Some (RArr l) -> l !! j = Some (RStr t) -> Regex.test tagRegex t = false ->
  reports (mkIssue invalid_string [ PKey k; PIndex j ] msg) (key k (opt_tags msg) [] m).
Proof.
  intros Hm Hj Ht. unfold key, opt_tags, z_optional, z_array. rewrite Hm.
  apply pmap_reports. by apply (parse_items_reports tagRegex msg [ PKey k ] 0 j l t).
Qed.

Lemma handler_reads_shape {A : Type} tool (sch : Shape A) (h : Handler)
    (m m' : gmap string raw) :
  (exists f, forall args, h args = bind (safeParse tool (z_object sch) args) f) ->
  sch [] m = sch [] m' ->
  h (Some (RObj m)) = h (Some (RObj m')).
Proof.
  intros [f Hh] E. rewrite !Hh. unfold safeParse, z_object. by rewrite E.
Qed.

(** ** Every invocation *)

Lemma dispatch_case (name : string) (args : option raw) (inv : CommandInvocation) :
  dispatch name args = Ok inv -> exists h, In (name, h) cases /\ h args = Ok inv.
Proof.
  unfold dispatch. destruct (switch name cases) as [h|] eqn:E; [|discriminate].
  intros H. exists h. split; [|done]. clear H.
  induction cases as [|[label b] cs IH]; simpl in *; [discriminate|].
  destruct (String.eqb_spec name label) as [->|Hne].
  - injection E as ->. by left.
  - right. by apply IH.
Qed.

Lemma custom_report_command (d : CustomReportData) :
  exists rest, join " " (custom_report_parts d) = "task " +:+ rest.
Proof.
  unfold custom_report_parts.
  destruct (truthy (cr_filter d)) as [f|], (cr_columns d) as [[|c cs]|]; simpl;
    eexists; reflexivity.
Qed.

Lemma invocation_shape (name : string) (args : option raw) (inv : CommandInvocation) :
  dispatch name args = Ok inv ->
  maxBuffer inv = 10485760%N /\
  shell inv = (if String.eqb name "modify_tasks_bulk" then Some "/bin/bash" else None) /\
  exists rest,
    command inv =
    (if String.eqb name "modify_tasks_bulk" then "yes | task " else "task ") +:+ rest.
Proof.
  intros H. apply dispatch_case in H as (h & Hc & H). simpl in Hc.
  repeat (destruct Hc as [E|Hc]; [injection E as <- <-|]); [..|done];
    revert H;
    unfold get_next_tasks, mark_task_done, add_task, modify_task, modify_tasks_bulk,
      get_task_info, count_tasks, list_tasks_filtered, delete_task, annotate_task,
      append_task, prepend_task, duplicate_task, undo_last, builtin_report,
      visualization_report, custom_report;
    (match goal with |- context [safeParse ?t ?s ?a] =>
       destruct (safeParse t s a) as [d|e]; simpl; [|discriminate] end);
    try (match goal with |- context [bind ?x _] =>
           destruct x as [task_args|e]; simpl; [|discriminate] end);
    intros [= <-]; simpl; (split; [reflexivity|]); (split; [reflexivity|]);
    first [ eexists; reflexivity | apply custom_report_command ].
Qed.

(** X7.  Every tool rejects a call whose arguments are absent or are not
    an object, with one type issue at the root and without building a
    command; this holds for [undo_last] and [get_next_tasks] too, which
    need no parameter. *)
Theorem missing_arguments_rejected
    (execSync : CommandInvocation -> string + string)
    (name : string) (args : option raw) :
  In name tool_names -> (forall m, args <> Some (RObj m)) ->
  CallTool execSync name args =
    (ErrorResponse
       (Thrown (InvalidArguments name [ mkIssue invalid_type [] None ])), []).
Proof.
  intros Hin Hargs. unfold CallTool. by rewrite (not_object_rejected name args Hin Hargs).
Qed.

Lemma missing_arguments_rejected_witness :
  In "undo_last" tool_names /\
  (forall m, (None : option raw) <> Some (RObj m)) /\
  CallTool (fun _ => inl "") "undo_last" None =
    (ErrorResponse
       (Thrown (InvalidArguments "undo_last" [ mkIssue invalid_type [] None ])), []).
Proof.
  assert (Hin : In "undo_last" tool_names) by (vm_compute; tauto).
  assert (Hargs : forall m, (None : option raw) <> Some (RObj m)) by discriminate.
  split; [exact Hin|]. split; [exact Hargs|].
  exact (missing_arguments_rejected (fun _ => inl "") "undo_last" None Hin Hargs).
Defined.

(** X8.  A request whose required field is absent or is not a string is
    rejected, and the issues of the error name that field with a type
    issue, whatever else the request holds. *)
Theorem required_field_enforced (tool k : string) (m : gmap string raw) :
  In (tool, k) required_keys ->
  (forall s, m !! k <> Some (RStr s)) ->
  exists issues,
    dispatch tool (Some (RObj m)) = Err (InvalidArguments tool issues) /\
    In (mkIssue invalid_type [ PKey k ] None) issues.
Proof.
  intros Hin Hm.
  pose proof (required_key_reports z_string k m z_string_not_string Hm) as Hstr.
  pose proof (fun n msg =>
    required_key_reports (z_string_min n msg) k m (z_string_min_not_string n msg) Hm)
    as Hmin.
  pose proof (fun values =>
    required_key_reports (z_enum values) k m (z_enum_not_string values) Hm) as Henum.
  assert (Hgo : forall (A : Type) (sch : Shape A) (h : Handler),
    (forall args, exists f, h args = bind (safeParse tool (z_object sch) args) f) ->
    reports (mkIssue invalid_type [ PKey k ] None) (sch [] m) ->
    exists issues,
      h (Some (RObj m)) = Err (InvalidArguments tool issues) /\
      In (mkIssue invalid_type [ PKey k ] None) issues).
  { intros A sch h Hh Hrep. destruct (Hh (Some (RObj m))) as [f ->].
    destruct (safeParse_reports tool (z_object sch) (Some (RObj m)) _ Hrep)
      as (issues & E & Hi).
    exists issues. split; [|done]. by apply bind_err. }
  simpl in Hin.
  repeat (destruct Hin as [E|Hin]; [injection E as <- <-|]); [..|done];
    (eapply (Hgo _ _ (dispatch _)); [intros args; eexists; reflexivity|]);
    first [ find_report Hstr | find_report Hmin | find_report Henum ].
Qed.

Lemma required_field_enforced_witness :
  let m : gmap string raw := {[ "identifier" := RNum 7 ]} in
  In ("annotate_task", "annotation") required_keys /\
  (forall s, m !! "annotation" <> Some (RStr s)) /\
  exists issues,
    dispatch "annotate_task" (Some (RObj m)) =
      Err (InvalidArguments "annotate_task" issues) /\
    In (mkIssue invalid_type [ PKey "annotation" ] None) issues.
Proof.
  intros m.
  assert (Hin : In ("annotate_task", "annotation") required_keys) by (simpl; tauto).
  assert (Hm : forall s, m !! "annotation" <> Some (RStr s)) by (intros s; discriminate).
  split; [exact Hin|]. split; [exact Hm|].
  exact (required_field_enforced "annotate_task" "annotation" m Hin Hm).
Defined.

(** X9.  Every tag that fails the tag pattern is reported on its own: the
    issues of the error hold a string issue whose path is the key of the
    field and the index of the tag in the array. *)
Theorem bad_tag_named_by_index (tool k : string) (m : gmap string raw)
    (l : list raw) (j : nat) (t : string) :
  In (tool, k) tag_fields ->
  m !! k = Some (RArr l) -> l !! j = Some (RStr t) -> Regex.test tagRegex t = false ->
  exists issues msg,
    dispatch tool (Some (RObj m)) = Err (InvalidArguments tool issues) /\
    In (mkIssue invalid_string [ PKey k; PIndex j ] msg) issues.
Proof.
  intros Hin Hm Hj Ht.
  pose proof (fun msg => key_tags_reports k msg m l j t Hm Hj Ht) as Hkey.
  assert (Hgo : forall msg (A : Type) (sch : Shape A),
    (forall args, exists f,
       dispatch tool args = bind (safeParse tool (z_object sch) args) f) ->
    reports (mkIssue invalid_string [ PKey k; PIndex j ] msg) (sch [] m) ->
    exists issues msg',
      dispatch tool (Some (RObj m)) = Err (InvalidArguments tool issues) /\
      In (mkIssue invalid_string [ PKey k; PIndex j ] msg') issues).
  { intros msg A sch Hh Hrep.
    destruct (handler_reports tool sch (dispatch tool) m _ Hh Hrep) as (issues & E & Hi).
    by exists issues, msg. }
  simpl in Hin.
  repeat (destruct Hin as [E|Hin]; [injection E as <- <-|]); [..|done];
    first
      [ (eapply (Hgo None); [intros args; eexists; reflexivity|]); find_report Hkey
      | (eapply (Hgo (Some tag_msg)); [intros args; eexists; reflexivity|]);
        find_report Hkey ].
Qed.

Lemma bad_tag_named_by_index_witness :
  let l := [ RStr "ok"; RStr "No Good"; RStr "fine" ] in
  let m : gmap string raw := <[ "tags_remove" := RArr l ]> {[ "filter" := RStr "+x" ]} in
  In ("modify_tasks_bulk", "tags_remove") tag_fields /\
  m !! "tags_remove" = Some (RArr l) /\
  l !! 1%nat = Some (RStr "No Good") /\
  Regex.test tagRegex "No Good" = false /\
  exists issues msg,
    dispatch "modify_tasks_bulk" (Some (RObj m)) =
      Err (InvalidArguments "modify_tasks_bulk" issues) /\
    In (mkIssue invalid_string [ PKey "tags_remove"; PIndex 1 ] msg) issues.
Proof.
  intros l m.
  assert (Hin : In ("modify_tasks_bulk", "tags_remove") tag_fields) by (simpl; tauto).
  split; [exact Hin|]. split; [reflexivity|]. split; [reflexivity|].
  split; [reflexivity|].
  exact (bad_tag_named_by_index "modify_tasks_bulk" "tags_remove" m l 1 "No Good"
           Hin eq_refl eq_refl eq_refl).
Defined.

(** X10.  The outcome of a request depends only on the keys its schema
    reads: two argument objects that agree on those keys give the same
    command or the same error, so a key the schema does not know never
    reaches the command line. *)
Theorem unknown_keys_dropped (tool : string) (keys : list string)
    (m m' : gmap string raw) :
  In (tool, keys) schema_keys ->
  (forall k, In k keys -> m !! k = m' !! k) ->
  dispatch tool (Some (RObj m)) = dispatch tool (Some (RObj m')).
Proof.
  intros Hin H. simpl in Hin.
  repeat (destruct Hin as [E|Hin]; [injection E as <- <-|]); [..|done];
    (eapply handler_reads_shape; [eexists; intros args; reflexivity|]);
    unfold modify_shape, shape_ap, key, shape_pure;
    repeat (rewrite H by (simpl; tauto)); reflexivity.
Qed.

Lemma unknown_keys_dropped_witness :
  let m : gmap string raw := {[ "identifier" := RStr "9" ]} in
  let m' : gmap string raw := <[ "project" := RStr "x; reboot" ]> m in
  In ("mark_task_done", [ "identifier" ]) schema_keys /\
  (forall k, In k [ "identifier" ] -> m !! k = m' !! k) /\
  dispatch "mark_task_done" (Some (RObj m)) = dispatch "mark_task_done" (Some (RObj m')).
Proof.
  intros m m'.
  assert (Hin : In ("mark_task_done", [ "identifier" ]) schema_keys) by (simpl; tauto).
  assert (Hk : forall k, In k [ "identifier" ] -> m !! k = m' !! k).
  { intros k [<-|[]]. reflexivity. }
  split; [exact Hin|]. split; [exact Hk|].
  exact (unknown_keys_dropped "mark_task_done" [ "identifier" ] m m' Hin Hk).
Defined.

(** X11.  Every command line that a handler hands to [execSync] comes
    with the 10 MiB output cap; it is run under [/bin/bash] exactly when
    the tool is [modify_tasks_bulk], and under the default shell otherwise;
    it begins with [task ], or with [yes | task ] for [modify_tasks_bulk].
    What the shell starts when it runs the line is not stated here. *)
Theorem every_invocation
    (execSync : CommandInvocation -> string + string)
    (name : string) (args : option raw) (inv : CommandInvocation) :
  In inv (snd (CallTool execSync name args)) ->
  maxBuffer inv = (10 * 1024 * 1024)%N /\
  shell inv = (if String.eqb name "modify_tasks_bulk" then Some "/bin/bash" else None) /\
  exists rest,
    command inv =
    (if String.eqb name "modify_tasks_bulk" then "yes | task " else "task ") +:+ rest.
Proof.
  unfold CallTool. destruct (dispatch name args) as [inv'|e] eqn:E; [|intros []].
  intros Hin.
  assert (inv' = inv) as ->.
  { destruct (execSync inv'); simpl in Hin; by destruct Hin as [?|[]]. }
  by apply invocation_shape in E.
Qed.

Lemma every_invocation_witness :
  let args := Some (RObj (<[ "stop_task" := RBool true ]> {[ "filter" := RStr "+work" ]})) in
  let inv := exec_bash "yes | task +work modify start:" in
  In inv (snd (CallTool (fun _ => inr "boom") "modify_tasks_bulk" args)) /\
  maxBuffer inv = (10 * 1024 * 1024)%N /\
  shell inv = Some "/bin/bash" /\
  exists rest, command inv = "yes | task " +:+ rest.
Proof.
  intros args inv.
  assert (Hin : In inv (snd (CallTool (fun _ => inr "boom") "modify_tasks_bulk" args))).
  { left. reflexivity. }
  split; [exact Hin|].
  exact (every_invocation (fun _ => inr "boom") "modify_tasks_bulk" args inv Hin).
Defined.

(** ** Empty and default values *)

Lemma report_choice (v : option raw) (o : option string) (r : string) :
  v = RStr <$> o -> report_or_list v = Some r ->
  match truthy o with Some x => x | None => "list" end = r /\ r <> "".
Proof.
  intros -> H. destruct o as [[|c s]|]; simpl in *; injection H as <-; done.
Qed.

Lemma prel_refl {A : Type} (x : parsed A) : prel eq x x.
Proof. by destruct x. Qed.

Lemma prel_pair {A : Type} (u u' : A) :
  prel (fun a a' => a = u /\ a' = u') (Valid u) (Valid u').
Proof. by split. Qed.

Lemma pap_prel {A A' B B' : Type} (RA : A -> A' -> Prop) (RB : B -> B' -> Prop)
    (f : parsed (A -> B)) (f' : parsed (A' -> B')) (x : parsed A) (x' : parsed A') :
  prel (fun g g' => forall a a', RA a a' -> RB (g a) (g' a')) f f' ->
  prel RA x x' -> prel RB (pap f x) (pap f' x').
Proof.
  destruct f, f', x, x'; simpl; try done; intros; subst; auto.
Qed.

Lemma handler_prel {A : Type} tool (sch : Shape A) (h : Handler)
    (m m' : gmap string raw) :
  (exists f, (forall args, h args = bind (safeParse tool (z_object sch) args) f) /\
             prel (fun d d' => f d = f d') (sch [] m) (sch [] m')) ->
  h (Some (RObj m)) = h (Some (RObj m')).
Proof.
  intros (f & Hh & E). rewrite !Hh. unfold safeParse, z_object.
  destruct (sch [] m), (sch [] m'); simpl in *; by subst.
Qed.

Lemma bind_ext {A B : Type} (c : result A) (f g : A -> result B) :
  (forall a, f a = g a) -> bind c f = bind c g.
Proof. intros H. destruct c; simpl; [apply H|reflexivity]. Qed.

Lemma bind_arg {A B : Type} (c c' : result A) (f : A -> result B) :
  c = c' -> bind c f = bind c' f.
Proof. by intros ->. Qed.

Lemma push_each_nil (f : string -> string) (task_args : list string) :
  push_each f (Some []) task_args = task_args.
Proof. apply app_nil_r. Qed.

(** X12.  Some optional values count as absent: an empty string for [due]
    of [add_task], for [report] of [list_tasks_filtered] and for [filter]
    of [custom_report]; [false] for [stop_task]; an empty array for [tags]
    in every tool that takes them, for [tags_remove], for [clear_fields]
    and for [columns].  The request gives the same command, or the same
    error, as without the key. *)
Theorem empty_optional_is_absent (tool k : string) (v : raw) (m : gmap string raw) :
  In (tool, (k, v)) empty_values ->
  m !! k = Some v ->
  dispatch tool (Some (RObj m)) = dispatch tool (Some (RObj (delete k m))).
Proof.
  intros Hin Hm. simpl in Hin.
  repeat (destruct Hin as [E|Hin]; [injection E as <- <- <-|]); [..|done];
    (eapply handler_prel; eexists; split; [intros args; reflexivity|]);
    unfold modify_shape, shape_ap, key, shape_pure;
    rewrite lookup_delete_eq, ?lookup_delete_ne, Hm by done;
    repeat (eapply pap_prel; [|first [apply prel_refl | apply prel_pair]]);
    cbn [prel]; intros; destruct_and?; subst;
    unfold add_task_args, buildTaskModifyArgs, get_next_tasks_args, filter_args,
      builtin_report_args, visualization_report_args, custom_report_parts;
    cbn -[push_each push_field push_date];
    repeat first [apply bind_ext; intros ? | apply bind_arg];
    rewrite ?push_each_nil; reflexivity.
Qed.

Lemma empty_optional_is_absent_witness :
  let m : gmap string raw :=
    <[ "columns" := RArr [] ]> {[ "report" := RStr "next" ]} in
  In ("custom_report", ("columns", RArr [])) empty_values /\
  m !! "columns" = Some (RArr []) /\
  dispatch "custom_report" (Some (RObj m)) =
    dispatch "custom_report" (Some (RObj (delete "columns" m))).
Proof.
  intros m.
  assert (Hin : In ("custom_report", ("columns", RArr [])) empty_values)
    by (simpl; tauto).
  split; [exact Hin|]. split; [reflexivity|].
  exact (empty_optional_is_absent "custom_report" "columns" (RArr []) m Hin eq_refl).
Defined.

(** X13.  [list_tasks_filtered] runs the report of the request, or [list]
    when the request has none or an empty one: the command line is [task],
    the filter tokens, and that report name, inserted as it is.  When the
    report name is plain text (free of blanks, quotes, braces and the other
    special characters) the shell, bash or POSIX, reads the line as exactly
    those fields. *)
Theorem list_tasks_filtered_report (m : gmap string raw) (inv : CommandInvocation)
    (r : string) :
  dispatch "list_tasks_filtered" (Some (RObj m)) = Ok inv ->
  report_or_list (m !! "report") = Some r ->
  exists d,
    listTasksFilteredRequest [] (Some (RObj m)) = Valid d /\
    command inv =
      "task " +:+
      join " " (filter_args (lf_status d) (lf_project d) (lf_priority d) (lf_tags d)) +:+
      " " +:+ r /\
    (plain_text r = true ->
     sh_fields (command inv) =
       Some ([ "task" ] ++
             filter_args (lf_status d) (lf_project d) (lf_priority d) (lf_tags d) ++
             [ r ])).
Proof.
  change (dispatch "list_tasks_filtered" ?a) with (list_tasks_filtered a).
  unfold list_tasks_filtered, safeParse.
  destruct (listTasksFilteredRequest [] (Some (RObj m))) as [d|issues] eqn:Ed;
    [|discriminate].
  simpl. intros [= <-] Hr. exists d. split; [done|].
  unfold listTasksFilteredRequest, z_object in Ed. invert_shape Ed. unfold key in *.
  simpl.
  apply (optional_str _ _ _ _ _ z_string_str) in Ha as [Hrep _].
  destruct (report_choice _ _ _ Hrep Hr) as [-> Hne].
  split; [done|]. intros Hp.
  match goal with |- context [join " " ?t] =>
    apply (scan_three [ "task" ] [ "task" ] t t [ r ] [ r ])
  end.
  - repeat constructor; by apply reads_word.
  - by eapply filter_args_read.
  - repeat constructor. by apply reads_plain.
Qed.

Lemma list_tasks_filtered_report_witness :
  let m : gmap string raw :=
    <[ "report" := RStr "completed" ]> {[ "status" := RStr "waiting" ]} in
  let inv := exec "task status:waiting completed" in
  dispatch "list_tasks_filtered" (Some (RObj m)) = Ok inv /\
  report_or_list (m !! "report") = Some "completed" /\
  plain_text "completed" = true /\
  sh_fields (command inv) = Some [ "task"; "status:waiting"; "completed" ].
Proof.
  intros m inv.
  assert (H : dispatch "list_tasks_filtered" (Some (RObj m)) = Ok inv) by reflexivity.
  assert (Hr : report_or_list (m !! "report") = Some "completed") by reflexivity.
  split; [exact H|]. split; [exact Hr|]. split; [reflexivity|].
  destruct (list_tasks_filtered_report m inv "completed" H Hr) as (d & Hd & _ & Hf).
  assert (E : listTasksFilteredRequest [] (Some (RObj m)) =
              Valid (mkListFiltered (Some "waiting") None None None (Some "completed")))
    by reflexivity.
  rewrite E in Hd. injection Hd as <-. exact (Hf eq_refl).
Defined.

(** ** Custom reports *)

Lemma to_upper_lower (c : ascii) : Regex.to_lower (to_upper c) = Regex.to_lower c.
Proof. destruct c as [[] [] [] [] [] [] [] []]; reflexivity. Qed.

Lemma capitalize_same_letters (col : string) :
  lower (capitalize col) = lower col /\
  String.length (capitalize col) = String.length col.
Proof.
  destruct col as [|c rest]; [done|]. unfold lower. simpl.
  by rewrite to_upper_lower.
Qed.

Lemma custom_report_with_columns (m : gmap string raw) (r : string)
    (cols : list string) (inv : CommandInvocation) :
  m !! "report" = Some (RStr r) ->
  m !! "columns" = Some (RArr (map RStr cols)) -> cols <> [] ->
  custom_report (Some (RObj m)) = Ok inv ->
  exists front,
    command inv =
      front +:+ " " +:+ r +:+
      " rc.report." +:+ r +:+ ".columns=" +:+ join "," cols +:+
      " rc.report." +:+ r +:+ ".labels=" +:+ join "," (map capitalize cols) /\
    (front = "task" \/
     exists f, f <> "" /\ m !! "filter" = Some (RStr f) /\ front = "task " +:+ f).
Proof.
  intros Hr Hc Hne. unfold custom_report, safeParse, customReportRequest, z_object,
    shape_ap, key, shape_pure. simpl app. rewrite Hr.
  assert (Ecols : z_optional (z_array z_string) [ PKey "columns" ] (m !! "columns") =
                  Valid (Some cols)).
  { apply (optional_array_str _ _ _ _ _ z_string_str). rewrite Hc. split; [done|].
    intros l [= <-]. by apply forallb_forall. }
  rewrite Ecols.
  destruct (z_optional z_string [ PKey "filter" ] (m !! "filter")) as [o|i] eqn:Ef;
    simpl; [|discriminate].
  intros [= <-]. apply (optional_str _ _ _ _ _ z_string_str) in Ef as [Ef _].
  destruct cols as [|c cs]; [done|].
  unfold custom_report_parts.
  cbn [cr_filter cr_report cr_columns].
  remember (join "," (c :: cs)) as columns eqn:Ecolumns.
  remember (join "," (map capitalize (c :: cs))) as labels eqn:Elabels.
  assert (Etail : forall front,
    join " " [ front; r; "rc.report." +:+ r +:+ ".columns=" +:+ columns;
               "rc.report." +:+ r +:+ ".labels=" +:+ labels ] =
    front +:+ " " +:+ r +:+ " rc.report." +:+ r +:+ ".columns=" +:+ columns +:+
    " rc.report." +:+ r +:+ ".labels=" +:+ labels).
  { intros front. unfold join. cbn [String.concat].
    by rewrite !append_assoc. }
  destruct o as [[|a f]|]; cbn [truthy app].
  - exists "task". split; [|by left]. apply Etail.
  - exists ("task " +:+ String a f). split.
    + rewrite <- Etail. unfold join. cbn [String.concat].
      by rewrite !append_assoc.
    + right. exists (String a f). by rewrite Ef.
  - exists "task". split; [|by left]. apply Etail.
Qed.

(** X14.  For an accepted [custom_report] request with a non-empty list of
    columns, each beginning with an ASCII character, the command line is
    [task], the filter if one is given, the report name, and two overrides
    scoped to that report: the columns joined by commas and as many labels,
    each label being its column with the first letter in upper case (the
    same text up to letter case, of the same length). *)
Theorem custom_report_overrides (m : gmap string raw) (r : string)
    (cols : list string) (inv : CommandInvocation) :
  m !! "report" = Some (RStr r) ->
  m !! "columns" = Some (RArr (map RStr cols)) -> cols <> [] ->
  forallb ascii_head cols = true ->
  dispatch "custom_report" (Some (RObj m)) = Ok inv ->
  (exists front,
     command inv =
       front +:+ " " +:+ r +:+
       " rc.report." +:+ r +:+ ".columns=" +:+ join "," cols +:+
       " rc.report." +:+ r +:+ ".labels=" +:+ join "," (map capitalize cols) /\
     (front = "task" \/
      exists f, f <> "" /\ m !! "filter" = Some (RStr f) /\ front = "task " +:+ f)) /\
  List.length (map capitalize cols) = List.length cols /\
  (forall col, In col cols ->
     lower (capitalize col) = lower col /\
     String.length (capitalize col) = String.length col).
Proof.
  intros Hr Hc Hne _ H. split; [by eapply custom_report_with_columns|].
  split; [apply length_map|]. intros col _. apply capitalize_same_letters.
Qed.

Lemma custom_report_overrides_witness :
  let m : gmap string raw :=
    <[ "filter" := RStr "priority:H" ]>
      (<[ "columns" := RArr (map RStr [ "id"; "project" ]) ]>
         {[ "report" := RStr "mine" ]}) in
  let inv :=
    exec "task priority:H mine rc.report.mine.columns=id,project rc.report.mine.labels=Id,Project" in
  m !! "report" = Some (RStr "mine") /\
  m !! "columns" = Some (RArr (map RStr [ "id"; "project" ])) /\
  [ "id"; "project" ] <> [] /\
  forallb ascii_head [ "id"; "project" ] = true /\
  dispatch "custom_report" (Some (RObj m)) = Ok inv /\
  List.length (map capitalize [ "id"; "project" ]) = 2%nat.
Proof.
  intros m inv.
  assert (H : dispatch "custom_report" (Some (RObj m)) = Ok inv) by reflexivity.
  split; [reflexivity|]. split; [reflexivity|]. split; [discriminate|].
  split; [reflexivity|]. split; [exact H|].
  exact (proj1 (proj2 (custom_report_overrides m "mine" [ "id"; "project" ] inv
                         eq_refl eq_refl ltac:(discriminate) eq_refl H))).
Defined.

(** ** Dependencies *)

Lemma modify_shape_depends tk tm (m : gmap string raw) (d : ModifyData) (l : list raw) :
  modify_shape tk tm [] m = Valid d -> m !! "depends" = Some (RArr l) ->
  exists ds,
    l = map RStr ds /\ Forall (fun x => x <> "") ds /\
    In ("depends:" +:+ join "," ds) (modify_tokens d).
Proof.
  intros Ed Hl.
  assert (Hin : forall ds, depends d = Some ds ->
                           In ("depends:" +:+ join "," ds) (modify_tokens d)).
  { intros ds Hds. apply in_modify_tokens. do 9 right. left. by exists ds. }
  unfold modify_shape in Ed. invert_shape Ed. unfold key in *. simpl in Hin.
  apply (optional_array_str _ _ _ _ _ (z_string_min_str 1 _)) in Ha2 as [Hv Hall].
  rewrite Hl in Hv. destruct a2 as [ds|]; [|discriminate]. injection Hv as ->.
  exists ds. split; [done|]. split; [|by apply Hin].
  specialize (Hall ds eq_refl). rewrite forallb_forall in Hall.
  apply Forall_forall. intros x Hx ->. apply list_elem_of_In in Hx. by apply Hall in Hx.
Qed.

Lemma modify_shape_set_depends tk tm (m : gmap string raw) (d : ModifyData)
    (ds : list string) :
  tk <> "depends" ->
  modify_shape tk tm [] (delete "depends" m) = Valid d ->
  Forall (fun x => x <> "") ds ->
  modify_shape tk tm [] (<[ "depends" := RArr (map RStr ds) ]> m) =
    Valid (with_depends d ds).
Proof.
  intros Htk Ed Hds.
  assert (Hnew : z_optional (z_array (z_string_min 1 "Dependency must be a valid task ID or UUID"))
                   ([] ++ [ PKey "depends" ]) (Some (RArr (map RStr ds))) = Valid (Some ds)).
  { apply (optional_array_str _ _ _ _ _ (z_string_min_str 1 _)). split; [done|].
    intros l [= <-]. apply forallb_forall. intros x Hx.
    rewrite Forall_forall in Hds. apply list_elem_of_In, Hds in Hx.
    by destruct x. }
  unfold modify_shape in Ed. invert_shape Ed. unfold key in *.
  rewrite lookup_delete_eq in Ha2. injection Ha2 as <-.
  rewrite lookup_delete_ne in Ha12 by done.
  rewrite !lookup_delete_ne in * by done.
  unfold modify_shape, shape_ap, key, shape_pure, with_depends.
  rewrite lookup_insert_eq, !lookup_insert_ne by done.
  rewrite Ha12, Ha11, Ha10, Ha9, Ha8, Ha7, Ha6, Ha5, Ha4, Ha3, Hnew, Ha1, Ha0, Ha.
  reflexivity.
Qed.

(** X15.  The [depends] array of [modify_task] and [modify_tasks_bulk].
    An accepted request with a [depends] array puts one token on the
    command line: [depends:] followed by the items joined with commas,
    each item as given, without quoting; the items are strings and none is
    empty.  Nothing else about the items is checked: when a request is
    accepted without its [depends], it is accepted with any array of
    non-empty strings in that place, and the token of that array is on
    its command line.  An empty array gives the bare token [depends:]. *)
Theorem depends_joined (tool : string) (m : gmap string raw) :
  tool = "modify_task" \/ tool = "modify_tasks_bulk" ->
  (forall (l : list raw) (inv : CommandInvocation),
     m !! "depends" = Some (RArr l) ->
     dispatch tool (Some (RObj m)) = Ok inv ->
     exists ds,
       l = map RStr ds /\ Forall (fun x => x <> "") ds /\
       has_token ("depends:" +:+ join "," ds) (command inv)) /\
  (forall (ds : list string) (inv : CommandInvocation),
     Forall (fun x => x <> "") ds ->
     dispatch tool (Some (RObj (delete "depends" m))) = Ok inv ->
     exists inv',
       dispatch tool (Some (RObj (<[ "depends" := RArr (map RStr ds) ]> m))) = Ok inv' /\
       has_token ("depends:" +:+ join "," ds) (command inv')).
Proof.
  assert (Hin : forall d ds, In ("depends:" +:+ join "," ds)
                               (modify_tokens (with_depends d ds))).
  { intros d ds. apply in_modify_tokens. do 9 right. left. by exists ds. }
  intros [-> | ->]; split.
  - intros l inv Hl.
    change (dispatch "modify_task" ?a) with (modify_task a). rewrite modify_task_eq.
    destruct (modify_shape _ _ [] m) as [d|issues] eqn:Ed; [|discriminate].
    destruct (first_rejected (present_dates d)); [discriminate|]. intros [= <-].
    destruct (modify_shape_depends _ _ _ _ _ Ed Hl) as (ds & -> & Hne & Htok).
    exists ds. split; [done|]. split; [done|].
    apply (join_has_token _ _ ("task " +:+ escapeShellArg (target d) +:+ " modify")) in Htok.
    simpl. by rewrite !append_assoc in Htok.
  - intros ds inv Hds.
    change (dispatch "modify_task" ?a) with (modify_task a). rewrite !modify_task_eq.
    destruct (modify_shape _ _ [] (delete "depends" m)) as [d|issues] eqn:Ed;
      [|discriminate].
    rewrite (modify_shape_set_depends "identifier" _ m d ds ltac:(discriminate) Ed Hds).
    change (present_dates (with_depends d ds)) with (present_dates d).
    destruct (first_rejected (present_dates d)); [discriminate|]. intros _.
    eexists. split; [reflexivity|].
    pose proof (join_has_token _ _
      ("task " +:+ escapeShellArg (target (with_depends d ds)) +:+ " modify")
      (Hin d ds)) as Htok.
    simpl. by rewrite !append_assoc in Htok.
  - intros l inv Hl.
    change (dispatch "modify_tasks_bulk" ?a) with (modify_tasks_bulk a).
    rewrite modify_tasks_bulk_eq.
    destruct (modify_shape _ _ [] m) as [d|issues] eqn:Ed; [|discriminate].
    destruct (first_rejected (present_dates d)); [discriminate|]. intros [= <-].
    destruct (modify_shape_depends _ _ _ _ _ Ed Hl) as (ds & -> & Hne & Htok).
    exists ds. split; [done|]. split; [done|].
    apply (join_has_token _ _ ("yes | task " +:+ target d +:+ " modify")) in Htok.
    simpl. by rewrite !append_assoc in Htok.
  - intros ds inv Hds.
    change (dispatch "modify_tasks_bulk" ?a) with (modify_tasks_bulk a).
    rewrite !modify_tasks_bulk_eq.
    destruct (modify_shape _ _ [] (delete "depends" m)) as [d|issues] eqn:Ed;
      [|discriminate].
    rewrite (modify_shape_set_depends "filter" _ m d ds ltac:(discriminate) Ed Hds).
    change (present_dates (with_depends d ds)) with (present_dates d).
    destruct (first_rejected (present_dates d)); [discriminate|]. intros _.
    eexists. split; [reflexivity|].
    pose proof (join_has_token _ _
      ("yes | task " +:+ target (with_depends d ds) +:+ " modify")
      (Hin d ds)) as Htok.
    simpl. by rewrite !append_assoc in Htok.
Qed.

Lemma depends_joined_witness :
  let m : gmap string raw :=
    <[ "depends" := RArr [ RStr "3"; RStr "7" ] ]> {[ "identifier" := RStr "5" ]} in
  (m !! "depends" = Some (RArr [ RStr "3"; RStr "7" ]) /\
   dispatch "modify_task" (Some (RObj m)) = Ok (exec "task '5' modify depends:3,7") /\
   exists ds,
     [ RStr "3"; RStr "7" ] = map RStr ds /\ Forall (fun x => x <> "") ds /\
     has_token ("depends:" +:+ join "," ds) "task '5' modify depends:3,7") /\
  (Forall (fun x => x <> "") [ "8"; "x y;z" ] /\
   dispatch "modify_task" (Some (RObj (delete "depends" m))) = Ok (exec "task '5' modify ") /\
   exists inv',
     dispatch "modify_task"
       (Some (RObj (<[ "depends" := RArr (map RStr [ "8"; "x y;z" ]) ]> m))) = Ok inv' /\
     has_token ("depends:" +:+ join "," [ "8"; "x y;z" ]) (command inv')).
Proof.
  intros m.
  pose proof (depends_joined "modify_task" m (or_introl eq_refl)) as [Hgiven Hany].
  assert (Hl : m !! "depends" = Some (RArr [ RStr "3"; RStr "7" ])) by reflexivity.
  assert (H : dispatch "modify_task" (Some (RObj m)) =
              Ok (exec "task '5' modify depends:3,7")) by reflexivity.
  assert (Hds : Forall (fun x => x <> "") [ "8"; "x y;z" ]) by (repeat constructor; done).
  assert (H0 : dispatch "modify_task" (Some (RObj (delete "depends" m))) =
               Ok (exec "task '5' modify ")) by reflexivity.
  split.
  - split; [exact Hl|]. split; [exact H|]. exact (Hgiven _ _ Hl H).
  - split; [exact Hds|]. split; [exact H0|]. exact (Hany _ _ Hds H0).
Defined.

(** ** The date check *)

(** X16.  [parseFlexibleDate] returns its argument exactly for the texts of
    four kinds, and throws for every other text: an ISO date or timestamp
    of one of nine shapes (any digit at a digit position); a sign, one
    digit or more and one of the unit letters [d], [w], [m], [q], [y]; one
    of twenty-nine names in any letter case; one or two digits followed by
    [st], [nd], [rd] or [th] in any letter case. *)
Theorem date_grammar (v : string) :
  parseFlexibleDate v = Ok v <->
  In (date_shape v) iso_shapes \/ relative_date v \/ In (lower v) date_names \/
  ordinal_date v.
Proof.
  assert (E : parseFlexibleDate v = Ok v <-> accepted v = true).
  { unfold parseFlexibleDate. destruct (accepted v); split; done. }
  rewrite E. unfold accepted. rewrite !orb_true_iff.
  pose proof (iso_accepts v) as Hiso.
  pose proof (relative_accepts v) as Hrel.
  pose proof (names_accept v) as Hnames.
  pose proof (ordinal_accepts v) as Hord.
  rewrite !orb_true_iff in Hnames.
  fold (ordinal_date v) in Hord.
  tauto.
Qed.

(** X17.  The date check reads only the shape of a text: two texts that
    differ only in which digits stand at their digit positions are both
    accepted or both rejected.  No year, month, day, hour or count is
    checked against a range. *)
Theorem date_check_reads_shape_only (v w : string) :
  date_shape v = date_shape w -> accepted v = accepted w.
Proof.
  intros E. by rewrite <- (accepted_date_shape v), <- (accepted_date_shape w), E.
Qed.

Lemma date_check_reads_shape_only_witness :
  date_shape "2024-01-15" = date_shape "2024-13-45" /\
  accepted "2024-01-15" = accepted "2024-13-45".
Proof.
  split; [reflexivity|].
  exact (date_check_reads_shape_only "2024-01-15" "2024-13-45" eq_refl).
Defined.

(** ** Thrown errors *)

Lemma z_string_issues : issues_nonempty z_string.
Proof. intros p v i. unfold z_string. destruct v as [[| | | | |]|]; by intros [= <-]. Qed.

Lemma z_string_min_issues n msg : issues_nonempty (z_string_min n msg).
Proof.
  intros p v i. unfold z_string_min.
  destruct (z_string p v) as [s|j] eqn:E.
  - destruct (n <=? String.length s)%nat; by intros [= <-].
  - intros [= <-]. by eapply z_string_issues.
Qed.

Lemma z_string_regex_issues re msg : issues_nonempty (z_string_regex re msg).
Proof.
  intros p v i. unfold z_string_regex.
  destruct (z_string p v) as [s|j] eqn:E.
  - destruct (Regex.test re s); by intros [= <-].
  - intros [= <-]. by eapply z_string_issues.
Qed.

Lemma z_enum_issues values : issues_nonempty (z_enum values).
Proof.
  intros p v i. unfold z_enum. destruct v as [[| | |s| |]|]; try by intros [= <-].
  destruct (existsb (String.eqb s) values); by intros [= <-].
Qed.

Lemma z_boolean_issues : issues_nonempty z_boolean.
Proof. intros p v i. unfold z_boolean. destruct v as [[| | | | |]|]; by intros [= <-]. Qed.

Lemma z_optional_issues {A : Type} (sch : Schema A) :
  issues_nonempty sch -> issues_nonempty (z_optional sch).
Proof.
  intros H p v i. unfold z_optional. destruct v as [r|]; [|discriminate].
  destruct (sch p (Some r)) as [a|j] eqn:E; simpl; [discriminate|].
  intros [= <-]. by eapply H.
Qed.

Lemma pap_issues {A B : Type} (f : parsed (A -> B)) (x : parsed A) (i : list ZodIssue) :
  (forall j, f = Invalid j -> j <> []) -> (forall j, x = Invalid j -> j <> []) ->
  pap f x = Invalid i -> i <> [].
Proof.
  intros Hf Hx. destruct f as [g|j], x as [a|k]; simpl; intros [= <-]; eauto.
  intros E. apply app_eq_nil in E as [E _]. by eapply Hf.
Qed.

Lemma parse_items_issues {A : Type} (item : Schema A) p n l i :
  issues_nonempty item -> parse_items item p n l = Invalid i -> i <> [].
Proof.
  intros H. revert n i. induction l as [|x l IH]; intros n i; simpl; [discriminate|].
  apply pap_issues; [|by apply IH].
  intros j. destruct (item (p ++ [ PIndex n ]) (Some x)) as [a|k] eqn:E; simpl;
    [discriminate|].
  intros [= <-]. by eapply H.
Qed.

Lemma z_array_issues {A : Type} (item : Schema A) :
  issues_nonempty item -> issues_nonempty (z_array item).
Proof.
  intros H p v i. unfold z_array.
  destruct v as [[| | | |l|]|]; try by intros [= <-].
  by apply parse_items_issues.
Qed.

Lemma shape_pure_issues {A : Type} (a : A) : shape_issues_nonempty (shape_pure a).
Proof. intros p m i. discriminate. Qed.

Lemma shape_ap_issues {A B : Type} (sh : Shape (A -> B)) (k : string) (sch : Schema A) :
  shape_issues_nonempty sh -> issues_nonempty sch ->
  shape_issues_nonempty (sh <&> key k sch).
Proof.
  intros Hsh Hsch p m i. unfold shape_ap, key. apply pap_issues.
  - intros j. apply Hsh.
  - intros j. apply Hsch.
Qed.

Lemma z_object_issues {A : Type} (sh : Shape A) :
  shape_issues_nonempty sh -> issues_nonempty (z_object sh).
Proof.
  intros H p v i. unfold z_object.
  destruct v as [[| | | | |m]|]; try by intros [= <-].
  apply H.
Qed.

Ltac issues_of_schema :=
  repeat first
    [ apply z_object_issues | apply shape_ap_issues | apply shape_pure_issues
    | apply z_optional_issues | apply z_array_issues | apply z_string_issues
    | apply z_string_min_issues | apply z_string_regex_issues | apply z_enum_issues
    | apply z_boolean_issues ].

Lemma modify_shape_issues tk tm : shape_issues_nonempty (modify_shape tk tm).
Proof.
  unfold modify_shape, opt_priority, opt_project, opt_tags. issues_of_schema.
Qed.

Lemma truthy_is_some (x : option string) (w : string) :
  truthy x = Some w -> x = Some w /\ w <> "".
Proof. destruct x as [[|c s]|]; simpl; intros [= <-]; done. Qed.

Lemma modify_date_origin tk tm (m : gmap string raw) (d : ModifyData) (w : string) :
  modify_shape tk tm [] m = Valid d -> first_rejected (present_dates d) = Some w ->
  exists fld,
    In fld date_fields /\ m !! fld = Some (RStr w) /\ w <> "" /\ accepted w = false.
Proof.
  intros Ed Hw. apply first_rejected_some in Hw as [Hin Hacc].
  apply modify_shape_valid in Ed as (_ & _ & (Hdue & Hstart & Hwait & Huntil & Hsched) & _).
  unfold present_dates in Hin. apply in_flat_map in Hin as (x & Hx & Hin).
  destruct (truthy x) as [v|] eqn:Hv; [|done]. destruct Hin as [->|[]].
  apply truthy_is_some in Hv as [-> Hne].
  simpl in Hx. destruct Hx as [E|[E|[E|[E|[E|[]]]]]]; rewrite E in *.
  - exists "due". simpl. tauto.
  - exists "start". simpl. tauto.
  - exists "wait". simpl. tauto.
  - exists "until". simpl. tauto.
  - exists "scheduled". simpl. tauto.
Qed.

Ltac issues_of_request :=
  unfold listPendingTasksRequest, listTasksRequest, markTaskDoneRequest, addTaskRequest,
    modifyTaskRequest, modifyTasksBulkRequest, getTaskInfoRequest, countTasksRequest,
    listTasksFilteredRequest, deleteTaskRequest, annotateTaskRequest, appendTaskRequest,
    prependTaskRequest, duplicateTaskRequest, undoLastRequest, builtinReportRequest,
    visualizationReportRequest, customReportRequest,
    opt_priority, opt_project, opt_tags, opt_status;
  repeat first [ apply modify_shape_issues | progress issues_of_schema ].

Lemma object_or_not (args : option raw) :
  (exists m, args = Some (RObj m)) \/ (forall m, args <> Some (RObj m)).
Proof. destruct args as [[| | | | |m]|]; eauto; right; intros m'; discriminate. Qed.

Lemma dispatch_err_case (name : string) (args : option raw) (e : error) :
  dispatch name args = Err e ->
  (handled name = false /\ e = UnknownTool name) \/
  (handled name = true /\ exists h, In (name, h) cases /\ h args = Err e).
Proof.
  unfold dispatch, handled. destruct (switch name cases) as [h|] eqn:E.
  - intros H. right. split; [done|]. exists h. split; [|done]. clear H.
    induction cases as [|[label b] cs IH]; simpl in *; [discriminate|].
    destruct (String.eqb_spec name label) as [->|Hne].
    + injection E as ->. by left.
    + right. by apply IH.
  - intros [= <-]. by left.
Qed.

(** X18.  What a request can throw before any process is spawned: an
    unknown-tool error, exactly for a name outside the catalog; an
    argument error that names the tool called and carries at least one
    issue; or a date error, only from [add_task], [modify_task] and
    [modify_tasks_bulk], whose message quotes a non-empty value that the
    request gave in one of the date fields of that tool and that the date
    check rejects. *)
Theorem thrown_errors_classified (name : string) (args : option raw) (e : error) :
  dispatch name args = Err e ->
  (e = UnknownTool name /\ ~ In name tool_names) \/
  (In name tool_names /\
   exists issues, e = InvalidArguments name issues /\ issues <> []) \/
  (exists m fld w,
     args = Some (RObj m) /\ takes_date name fld = true /\
     m !! fld = Some (RStr w) /\ w <> "" /\ accepted w = false /\
     e = InvalidDateFormat (invalid_date_message w)).
Proof.
  intros H. apply dispatch_err_case in H as [[Hh ->]|(Hh & h & Hin & H)].
  { left. split; [done|]. intros Hin. apply handled_iff in Hin. congruence. }
  right. apply handled_iff in Hh.
  destruct (object_or_not args) as [[m ->]|Hno].
  2:{ left. split; [done|]. exists [ mkIssue invalid_type [] None ]. split; [|done].
      assert (E : dispatch name args = h args).
      { unfold dispatch. clear -Hin. simpl in Hin.
        repeat (destruct Hin as [E|Hin]; [by injection E as <- <-|]). done. }
      rewrite <- E, (not_object_rejected name args Hh Hno) in H. by injection H as <-. }
  simpl in Hin.
  repeat (destruct Hin as [E|Hin]; [injection E as <- <-|]); [..|done];
    try solve
      [ left; split; [done|];
        unfold get_next_tasks, mark_task_done, get_task_info, count_tasks,
          list_tasks_filtered, delete_task, annotate_task, append_task, prepend_task,
          duplicate_task, undo_last, builtin_report, visualization_report, custom_report,
          safeParse in H;
        match type of H with
        | context [match ?sch [] ?a with _ => _ end] =>
            destruct (sch [] a) as [d|issues] eqn:Ed; simpl in H; [discriminate|];
            injection H as <-; exists issues; split; [done|];
            assert (Hs : issues_nonempty sch) by issues_of_request;
            exact (Hs _ _ _ Ed)
        end ].
  - rewrite add_task_eq in H.
    destruct (addTaskRequest [] (Some (RObj m))) as [d|issues] eqn:Ed.
    + right. apply add_shape_valid in Ed as (_ & Hdue & _).
      destruct (truthy (add_due d)) as [w|] eqn:Hw; [|discriminate].
      destruct (accepted w) eqn:Hacc; [discriminate|]. injection H as <-.
      apply truthy_is_some in Hw as [Hw Hne]. rewrite Hw in Hdue.
      by exists m, "due", w.
    + left. split; [done|]. injection H as <-. exists issues. split; [done|].
      assert (Hs : issues_nonempty addTaskRequest) by issues_of_request.
      exact (Hs _ _ _ Ed).
  - rewrite modify_task_eq in H.
    destruct (modify_shape _ _ [] m) as [d|issues] eqn:Ed.
    + right. destruct (first_rejected (present_dates d)) as [w|] eqn:Hw; [|discriminate].
      injection H as <-.
      destruct (modify_date_origin _ _ _ _ _ Ed Hw) as (fld & Hfld & Hm & Hne & Hacc).
      exists m, fld, w. repeat split; try done.
      simpl in Hfld. destruct Hfld as [<-|[<-|[<-|[<-|[<-|[]]]]]]; reflexivity.
    + left. split; [done|]. injection H as <-. exists issues. split; [done|].
      by eapply modify_shape_issues.
  - rewrite modify_tasks_bulk_eq in H.
    destruct (modify_shape _ _ [] m) as [d|issues] eqn:Ed.
    + right. destruct (first_rejected (present_dates d)) as [w|] eqn:Hw; [|discriminate].
      injection H as <-.
      destruct (modify_date_origin _ _ _ _ _ Ed Hw) as (fld & Hfld & Hm & Hne & Hacc).
      exists m, fld, w. repeat split; try done.
      simpl in Hfld. destruct Hfld as [<-|[<-|[<-|[<-|[<-|[]]]]]]; reflexivity.
    + left. split; [done|]. injection H as <-. exists issues. split; [done|].
      by eapply modify_shape_issues.
Qed.

Lemma thrown_errors_classified_witness :
  let m : gmap string raw :=
    <[ "due" := RStr "soon" ]> {[ "description" := RStr "water the plants" ]} in
  let e := InvalidDateFormat (invalid_date_message "soon") in
  dispatch "add_task" (Some (RObj m)) = Err e /\
  ((e = UnknownTool "add_task" /\ ~ In "add_task" tool_names) \/
   (In "add_task" tool_names /\
    exists issues, e = InvalidArguments "add_task" issues /\ issues <> []) \/
   (exists m' fld w,
      Some (RObj m) = Some (RObj m') /\ takes_date "add_task" fld = true /\
      m' !! fld = Some (RStr w) /\ w <> "" /\ accepted w = false /\
      e = InvalidDateFormat (invalid_date_message w))).
Proof.
  intros m e.
  assert (H : dispatch "add_task" (Some (RObj m)) = Err e) by reflexivity.
  split; [exact H|].
  exact (thrown_errors_classified "add_task" (Some (RObj m)) e H).
Defined.

(** ** Bulk modification *)

(** X19.  For an accepted [modify_tasks_bulk] request whose [depends] items
    (if any) are plain text (free of blanks, quotes, braces and the other
    special characters), the command line is [yes | ] followed by the
    engine command, and when bash reads the filter alone as a list of
    fields, it reads the engine command as [task], those fields, [modify],
    and one field for each modification with its value as given: the
    filter is split by the shell, the modifications are not. *)
Theorem modify_tasks_bulk_read_back (m : gmap string raw) (inv : CommandInvocation)
    (x : string) (ws : list string) :
  (forall l s, m !! "depends" = Some (RArr l) -> In (RStr s) l -> plain_text s = true) ->
  m !! "filter" = Some (RStr x) -> sh_fields x = Some ws ->
  dispatch "modify_tasks_bulk" (Some (RObj m)) = Ok inv ->
  exists d,
    modify_shape "filter" "Filter cannot be empty" [] m = Valid d /\
    command inv = "yes | " +:+ "task " +:+ x +:+ " modify " +:+ join " " (modify_tokens d) /\
    sh_fields ("task " +:+ x +:+ " modify " +:+ join " " (modify_tokens d)) =
      Some ([ "task" ] ++ ws ++ [ "modify" ] ++ modify_fields d).
Proof.
  intros Hraw Hm Hx.
  change (dispatch "modify_tasks_bulk" ?a) with (modify_tasks_bulk a).
  rewrite modify_tasks_bulk_eq.
  destruct (modify_shape _ _ [] m) as [d|issues] eqn:Ed; [|discriminate].
  destruct (first_rejected (present_dates d)) as [w|] eqn:Ew; [discriminate|].
  intros [= <-]. exists d. split; [done|].
  destruct (modify_shape_plain _ _ _ _ _ Ed) as (Hprio & Hproj & Htags & Hrem & Hclear).
  pose proof (modify_shape_valid _ _ _ _ _ Ed) as ((Htarget & _) & _ & _ & _ & _ & _ & Hdep & _).
  rewrite Hm in Htarget. injection Htarget as <-.
  split; [reflexivity|].
  assert (Hall : Forall2 reads_as (modify_tokens d) (modify_fields d)).
  { apply modify_tokens_read; try done.
    - intros v Hv. apply accepted_plain. by apply (first_rejected_none _ _ Ew).
    - intros ds Hds. apply plain_join; [done|]. intros y Hy.
      rewrite Hds in Hdep. simpl in Hdep. apply (Hraw _ y Hdep).
      apply in_map_iff. eauto. }
  assert (Hverb : Forall2 reads_as [ "modify" ] [ "modify" ]).
  { constructor; [by apply reads_word|constructor]. }
  pose proof (scan_two _ _ _ _ Hverb Hall) as Hmore.
  change ("task " +:+ x +:+ " modify " +:+ join " " (modify_tokens d))
    with (join " " [ "task" ] +:+
          String " " (x +:+
                      String " " (join " " [ "modify" ] +:+
                                  String " " (join " " (modify_tokens d))))).
  unfold sh_fields. apply scan_join.
  - constructor; [by apply reads_word|constructor].
  - eauto.
  - rewrite scan_blank_none. by apply scan_then.
Qed.

Lemma modify_tasks_bulk_read_back_witness :
  let m : gmap string raw :=
    <[ "depends" := RArr [ RStr "3"; RStr "7" ] ]>
      (<[ "priority" := RStr "H" ]> {[ "filter" := RStr "project:home +urgent" ]}) in
  let inv := exec_bash "yes | task project:home +urgent modify priority:H depends:3,7" in
  (forall l s, m !! "depends" = Some (RArr l) -> In (RStr s) l -> plain_text s = true) /\
  m !! "filter" = Some (RStr "project:home +urgent") /\
  sh_fields "project:home +urgent" = Some [ "project:home"; "+urgent" ] /\
  dispatch "modify_tasks_bulk" (Some (RObj m)) = Ok inv /\
  sh_fields "task project:home +urgent modify priority:H depends:3,7" =
    Some [ "task"; "project:home"; "+urgent"; "modify"; "priority:H"; "depends:3,7" ].
Proof.
  intros m inv.
  assert (Hdep : forall l s,
            m !! "depends" = Some (RArr l) -> In (RStr s) l -> plain_text s = true).
  { intros l s Hl Hs.
    assert (E : m !! "depends" = Some (RArr [ RStr "3"; RStr "7" ])) by reflexivity.
    rewrite E in Hl. injection Hl as <-.
    destruct Hs as [[= <-]|[[= <-]|[]]]; reflexivity. }
  assert (H : dispatch "modify_tasks_bulk" (Some (RObj m)) = Ok inv) by reflexivity.
  split; [exact Hdep|]. split; [reflexivity|]. split; [reflexivity|]. split; [exact H|].
  destruct (modify_tasks_bulk_read_back m inv "project:home +urgent" _ Hdep eq_refl
              eq_refl H) as (d & Hd & _ & Hf).
  assert (E : modify_shape "filter" "Filter cannot be empty" [] m =
              Valid (mkModify "project:home +urgent" None None None None None None
                       None (Some "H") None (Some [ "3"; "7" ]) None None None))
    by reflexivity.
  rewrite E in Hd. injection Hd as <-. exact Hf.
Defined.
